(** * Order splitting for Rooftopshop fulfillment orders

    A shallow embedding of [function.py]: the resilient GraphQL call
    executor, the fulfillment-order fetcher and its metafield
    normalisation, the item classifier, the location grouper and the
    split/tag decision tree, followed by the properties proved about
    them.

    Conventions.
    - Python values that come out of a JSON response are [pyval]s; Python
      exceptions are the [Raise] case of [res].
    - Durations given to [time.sleep] are recorded in milliseconds.
    - Python lists grow at the end ([l ++ [x]] is [l.append(x)]); an
      insertion-ordered [dict] whose iteration order matters is an
      association list, a [dict] that is only looked up is a [gmap], a
      [set] is a [gset]. *)

From Stdlib Require Import ZArith String Ascii List Lia Permutation.
From stdpp Require Import gmap strings list fin_maps.
Import ListNotations.
Open Scope string_scope.
Open Scope list_scope.
Set Warnings "-register-all".

(* ===================================================================== *)
(** * Python values and exceptions                                        *)
(* ===================================================================== *)

(** A Python [float] as it comes out of a JSON number: the decimal literal
    [(-1)^neg * m * 10^e] that was read (Python keeps the binary64 number
    nearest to it), or one of the three constants [json] accepts. *)
Inductive pyfloat : Type :=
| FNaN
| FInf (neg : bool)
| FDec (neg : bool) (m : N) (e : Z).

Inductive pyval : Type :=
| PNone
| PBool (b : bool)
| PInt (z : Z)
| PFloat (f : pyfloat)
| PStr (s : string)
| PList (l : list pyval)
| PDict (d : list (string * pyval)).

(** A JSON object, as [response.json()] gives it for a GraphQL response. *)
Definition pydict : Type := list (string * pyval).

Inductive exn : Type :=
| TypeError
| KeyError
| AttributeError
| JSONDecodeError.

Inductive res (A : Type) : Type :=
| Ok (a : A)
| Raise (e : exn).
Arguments Ok {A} a.
Arguments Raise {A} e.

Definition res_bind {A B} (r : res A) (k : A -> res B) : res B :=
  match r with
  | Ok a => k a
  | Raise e => Raise e
  end.

Declare Scope res_scope.
Delimit Scope res_scope with res.
Notation "'do' x <- r ; k" := (res_bind r (fun x => k))
  (at level 10, x name, r at level 100, k at level 200) : res_scope.

(** [m * 10^e] is so small that the nearest binary64 number is zero: it is
    at most [2^-1075], half the least subnormal. *)
Definition rounds_to_zero (m : N) (e : Z) : bool :=
  if (m =? 0)%N then true
  else if (0 <=? e)%Z then false
  else (Z.of_N m * 2 ^ 1075 <=? 10 ^ (- e))%Z.

(** [bool(v)]. *)
Definition truthy (v : pyval) : bool :=
  match v with
  | PNone => false
  | PBool b => b
  | PInt z => negb (z =? 0)%Z
  | PFloat FNaN => true
  | PFloat (FInf _) => true
  | PFloat (FDec _ m e) => negb (rounds_to_zero m e)
  | PStr s => negb (String.eqb s "")
  | PList l => match l with [] => false | _ => true end
  | PDict d => match d with [] => false | _ => true end
  end.

Fixpoint dict_lookup (k : string) (d : pydict) : option pyval :=
  match d with
  | [] => None
  | (k', v) :: d' => if String.eqb k k' then Some v else dict_lookup k d'
  end.

(** [k in d] for a dict [d]. *)
Definition dict_has (k : string) (d : pydict) : bool :=
  match dict_lookup k d with Some _ => true | None => false end.

(** [d[k] = v]: the first occurrence of a key keeps its place. *)
Fixpoint dict_set (k : string) (v : pyval) (d : pydict) : pydict :=
  match d with
  | [] => [(k, v)]
  | (k', v') :: d' =>
      if String.eqb k k' then (k', v) :: d' else (k', v') :: dict_set k v d'
  end.

(** [v.get(k, default)]: only a dict has [get]. *)
Definition py_get (v : pyval) (k : string) (default : pyval) : res pyval :=
  match v with
  | PDict d => Ok (match dict_lookup k d with Some x => x | None => default end)
  | _ => Raise AttributeError
  end.

(** [v[k]] for a string key [k]. *)
Definition py_index (v : pyval) (k : string) : res pyval :=
  match v with
  | PDict d => match dict_lookup k d with Some x => Ok x | None => Raise KeyError end
  | _ => Raise TypeError
  end.

Definition chars_of (s : string) : list pyval :=
  map (fun c => PStr (String c EmptyString)) (list_ascii_of_string s).

(** The elements [for x in v] goes through. *)
Definition py_iter (v : pyval) : res (list pyval) :=
  match v with
  | PList l => Ok l
  | PDict d => Ok (map (fun kv => PStr (fst kv)) d)
  | PStr s => Ok (chars_of s)
  | _ => Raise TypeError
  end.

(** [v == s] for a string literal [s]. *)
Definition py_eq_str (v : pyval) (s : string) : bool :=
  match v with
  | PStr s' => String.eqb s' s
  | _ => false
  end.

(** [k in v] for a string literal [k]: a key of a dict, an element of a
    list, a substring of a string; nothing else can be searched. *)
Definition py_contains (k : string) (v : pyval) : res bool :=
  match v with
  | PDict d => Ok (dict_has k d)
  | PList l => Ok (existsb (fun x => py_eq_str x k) l)
  | PStr s => Ok (match String.index 0 k s with Some _ => true | None => false end)
  | _ => Raise TypeError
  end.

(** The value [send_request_with_retry] returns: [None] or the decoded
    body. *)
Definition result_value (result : option pydict) : pyval :=
  match result with
  | None => PNone
  | Some d => PDict d
  end.

Definition lower_ascii (c : ascii) : ascii :=
  let n := nat_of_ascii c in
  if (65 <=? n)%nat && (n <=? 90)%nat then ascii_of_nat (n + 32) else c.

Fixpoint str_lower (s : string) : string :=
  match s with
  | EmptyString => EmptyString
  | String c s' => String (lower_ascii c) (str_lower s')
  end.

(** [v.lower()]: only a [str] has it. Outside ASCII no character lowers to
    a letter of [true], so the comparison with ['true'] below is decided by
    the ASCII letters. *)
Definition py_lower (v : pyval) : res string :=
  match v with
  | PStr s => Ok (str_lower s)
  | _ => Raise AttributeError
  end.

(* ===================================================================== *)
(** * send_request_with_retry                                             *)
(* ===================================================================== *)

(** What one round of the [try] block meets: [requests.post] or
    [response.json()] raises a [RequestException] (connection error,
    timeout, a body that is not JSON), or there is a response with a
    status code and a body, which for a GraphQL endpoint decodes to a JSON
    object. *)
Inductive attempt_outcome : Type :=
| RequestException
| Response (status_code : Z) (body : pydict).

Inductive io_event : Type :=
| Post (attempt : nat)
| Sleep (ms : Z).

Section Executor.
(** [http k] is the outcome of the post made by attempt [k] (from 0). *)
Variable http : nat -> attempt_outcome.
Variable max_retries : Z.
Variable delay : Z.

(** The sleep after a failed attempt, skipped on the last one. *)
Definition backoff (attempt : nat) : list io_event :=
  if (Z.of_nat attempt <? max_retries - 1)%Z
  then [Sleep (1000 * (delay * (Z.of_nat attempt + 1)))]
  else [].

(** The [for attempt in range(max_retries)] loop with [remaining]
    iterations to go. *)
Fixpoint attempts_from (remaining attempt : nat) : option pydict * list io_event :=
  match remaining with
  | O => (None, [])
  | S remaining' =>
      match http attempt with
      | Response code body =>
          if (code =? 200)%Z then (Some body, [Post attempt; Sleep 500])
          else
            let '(r, tr) := attempts_from remaining' (S attempt) in
            (r, Post attempt :: backoff attempt ++ tr)
      | RequestException =>
          let '(r, tr) := attempts_from remaining' (S attempt) in
          (r, Post attempt :: backoff attempt ++ tr)
      end
  end.

Definition send_request_with_retry : option pydict * list io_event :=
  attempts_from (Z.to_nat max_retries) 0.
End Executor.

(** The call with the default arguments [max_retries=3, delay=2]. *)
Definition send_request_with_retry_default (http : nat -> attempt_outcome) :=
  send_request_with_retry http 3 2.

(** An attempt that makes the loop go on. *)
Definition attempt_failed (a : attempt_outcome) : bool :=
  match a with
  | RequestException => true
  | Response code _ => negb (code =? 200)%Z
  end.

(** The events of [n] failed attempts in a row, the first being attempt
    [from]: each one posts, then waits the base delay times its number
    (counted from 1), except when it is the last attempt allowed. *)
Fixpoint failed_attempts (max_retries delay : Z) (from n : nat) : list io_event :=
  match n with
  | O => []
  | S n' =>
      let number := (Z.of_nat from + 1)%Z in
      (if (number <? max_retries)%Z
       then [Post from; Sleep (1000 * (delay * number))%Z]
       else [Post from])
      ++ failed_attempts max_retries delay (S from) n'
  end.

(* ===================================================================== *)
(** * json.loads                                                          *)
(* ===================================================================== *)

(** The decoder of Python's [json] module in its default (strict) mode, on
    the UTF-8 bytes of the text. The interpreter's limits (recursion depth,
    digits of an integer literal) are not part of it. *)
Module Json.

Definition code (c : ascii) : N := N_of_ascii c.

Definition is_char (c : ascii) (s : string) : bool :=
  match s with
  | String c' EmptyString => Ascii.eqb c c'
  | _ => false
  end.

Definition dquote : ascii := ascii_of_N 34.

Definition is_ws (c : ascii) : bool :=
  let n := code c in
  ((n =? 32) || (n =? 9) || (n =? 10) || (n =? 13))%N.

Fixpoint skip_ws (s : list ascii) : list ascii :=
  match s with
  | c :: r => if is_ws c then skip_ws r else s
  | [] => []
  end.

Definition is_digit (c : ascii) : bool :=
  let n := code c in ((48 <=? n) && (n <=? 57))%N.

Definition hex_val (c : ascii) : option N :=
  let n := code c in
  if ((48 <=? n) && (n <=? 57))%N then Some (n - 48)%N
  else if ((97 <=? n) && (n <=? 102))%N then Some (n - 87)%N
  else if ((65 <=? n) && (n <=? 70))%N then Some (n - 55)%N
  else None.

Definition hex4 (a b c d : ascii) : option N :=
  match hex_val a, hex_val b, hex_val c, hex_val d with
  | Some x, Some y, Some z, Some w => Some (((x * 16 + y) * 16 + z) * 16 + w)%N
  | _, _, _, _ => None
  end.

Definition byte (n : N) : ascii := ascii_of_N n.

(** The UTF-8 bytes of a code point (a lone surrogate keeps its
    three-byte form). *)
Definition utf8 (u : N) : list ascii :=
  if (u <? 128)%N then [byte u]
  else if (u <? 2048)%N then [byte (192 + u / 64); byte (128 + u mod 64)]
  else if (u <? 65536)%N then
    [byte (224 + u / 4096); byte (128 + (u / 64) mod 64); byte (128 + u mod 64)]
  else
    [byte (240 + u / 262144); byte (128 + (u / 4096) mod 64);
     byte (128 + (u / 64) mod 64); byte (128 + u mod 64)].

Definition simple_escape (c : ascii) : option ascii :=
  if Ascii.eqb c dquote then Some c
  else if is_char c "\" then Some c
  else if is_char c "/" then Some c
  else if is_char c "b" then Some (byte 8)
  else if is_char c "f" then Some (byte 12)
  else if is_char c "n" then Some (byte 10)
  else if is_char c "r" then Some (byte 13)
  else if is_char c "t" then Some (byte 9)
  else None.

(** The text after an opening quote, up to the closing one; [acc] holds
    the decoded bytes so far, last first. *)
Fixpoint scan_string (s : list ascii) (acc : list ascii) : option (string * list ascii) :=
  match s with
  | [] => None
  | c :: r =>
      if Ascii.eqb c dquote then Some (string_of_list_ascii (rev acc), r)
      else if is_char c "\" then
        match r with
        | [] => None
        | e :: r1 =>
            if is_char e "u" then
              match r1 with
              | a :: b :: c1 :: d :: r2 =>
                  match hex4 a b c1 d with
                  | None => None
                  | Some u =>
                      if ((55296 <=? u) && (u <=? 56319))%N then
                        match r2 with
                        | bs :: lu :: a2 :: b2 :: c2 :: d2 :: r3 =>
                            if is_char bs "\" && is_char lu "u" then
                              match hex4 a2 b2 c2 d2 with
                              | None => None
                              | Some u2 =>
                                  if ((56320 <=? u2) && (u2 <=? 57343))%N then
                                    scan_string r3
                                      (rev (utf8 (65536 + (u - 55296) * 1024 + (u2 - 56320))%N) ++ acc)
                                  else scan_string r2 (rev (utf8 u) ++ acc)
                              end
                            else scan_string r2 (rev (utf8 u) ++ acc)
                        | _ => scan_string r2 (rev (utf8 u) ++ acc)
                        end
                      else scan_string r2 (rev (utf8 u) ++ acc)
                  end
              | _ => None
              end
            else
              match simple_escape e with
              | Some x => scan_string r1 (x :: acc)
              | None => None
              end
        end
      else if (code c <? 32)%N then None
      else scan_string r (c :: acc)
  end.

Fixpoint take_digits (s : list ascii) : list ascii * list ascii :=
  match s with
  | c :: r => if is_digit c then let '(ds, r') := take_digits r in (c :: ds, r') else ([], s)
  | [] => ([], [])
  end.

Definition digits_value (ds : list ascii) : N :=
  fold_left (fun n c => (n * 10 + (code c - 48))%N) ds 0%N.

(** The integer part of a number (an optional minus sign, then a single
    0 or digits that do not start with 0): sign, digits, rest. *)
Definition scan_int (s : list ascii) : option (bool * list ascii * list ascii) :=
  let '(neg, s1) :=
    match s with
    | c :: r => if is_char c "-" then (true, r) else (false, s)
    | [] => (false, s)
    end in
  match s1 with
  | c :: r =>
      if is_char c "0" then Some (neg, [c], r)
      else if is_digit c then let '(ds, r') := take_digits r in Some (neg, c :: ds, r')
      else None
  | [] => None
  end.

(** The optional fraction: a dot and at least one digit. *)
Definition scan_frac (s : list ascii) : option (list ascii) * list ascii :=
  match s with
  | c :: r =>
      if is_char c "." then
        match take_digits r with
        | ([], _) => (None, s)
        | (ds, r') => (Some ds, r')
        end
      else (None, s)
  | [] => (None, s)
  end.

(** The optional exponent: e or E, an optional sign, at least one digit. *)
Definition scan_exp (s : list ascii) : option Z * list ascii :=
  match s with
  | c :: r =>
      if is_char c "e" || is_char c "E" then
        let '(neg, r1) :=
          match r with
          | c1 :: r' =>
              if is_char c1 "-" then (true, r')
              else if is_char c1 "+" then (false, r')
              else (false, r)
          | [] => (false, r)
          end in
        match take_digits r1 with
        | ([], _) => (None, s)
        | (ds, r') =>
            let v := Z.of_N (digits_value ds) in
            (Some (if neg then (- v)%Z else v), r')
        end
      else (None, s)
  | [] => (None, s)
  end.

Definition scan_number (s : list ascii) : option (pyval * list ascii) :=
  match scan_int s with
  | None => None
  | Some (neg, ds, r) =>
      let '(frac, r1) := scan_frac r in
      let '(ex, r2) := scan_exp r1 in
      match frac, ex with
      | None, None =>
          let v := Z.of_N (digits_value ds) in
          Some (PInt (if neg then (- v)%Z else v), r2)
      | _, _ =>
          let fs := match frac with Some fs => fs | None => [] end in
          let e := match ex with Some e => e | None => 0%Z end in
          Some (PFloat (FDec neg (digits_value (ds ++ fs))
                             (e - Z.of_nat (length fs))), r2)
      end
  end.

Fixpoint strip_prefix (p s : list ascii) : option (list ascii) :=
  match p, s with
  | [], _ => Some s
  | a :: p', b :: s' => if Ascii.eqb a b then strip_prefix p' s' else None
  | _ :: _, [] => None
  end.

Definition keyword (w : string) (v : pyval) (s : list ascii) : option (pyval * list ascii) :=
  match strip_prefix (list_ascii_of_string w) s with
  | Some r => Some (v, r)
  | None => None
  end.

Definition first_of {A} (a b : option A) : option A :=
  match a with Some _ => a | None => b end.

(** A value that is neither a string, an array nor an object. *)
Definition scan_atom (s : list ascii) : option (pyval * list ascii) :=
  first_of (keyword "null" PNone s)
  (first_of (keyword "true" (PBool true) s)
  (first_of (keyword "false" (PBool false) s)
  (first_of (scan_number s)
  (first_of (keyword "NaN" (PFloat FNaN) s)
  (first_of (keyword "Infinity" (PFloat (FInf false)) s)
            (keyword "-Infinity" (PFloat (FInf true)) s)))))).

Fixpoint scan_once (fuel : nat) (s : list ascii) : option (pyval * list ascii) :=
  match fuel with
  | O => None
  | S f =>
      match s with
      | [] => None
      | c :: r =>
          if Ascii.eqb c dquote then
            match scan_string r [] with
            | Some (x, r') => Some (PStr x, r')
            | None => None
            end
          else if is_char c "[" then
            match skip_ws r with
            | c' :: r' =>
                if is_char c' "]" then Some (PList [], r')
                else scan_array f (c' :: r') []
            | [] => None
            end
          else if is_char c "{" then
            match skip_ws r with
            | c' :: r' =>
                if is_char c' "}" then Some (PDict [], r')
                else scan_object f (c' :: r') []
            | [] => None
            end
          else scan_atom s
      end
  end
with scan_array (fuel : nat) (s : list ascii) (acc : list pyval) : option (pyval * list ascii) :=
  match fuel with
  | O => None
  | S f =>
      match scan_once f s with
      | None => None
      | Some (v, r) =>
          match skip_ws r with
          | c :: r' =>
              if is_char c "]" then Some (PList (acc ++ [v]), r')
              else if is_char c "," then scan_array f (skip_ws r') (acc ++ [v])
              else None
          | [] => None
          end
      end
  end
with scan_object (fuel : nat) (s : list ascii) (acc : pydict) : option (pyval * list ascii) :=
  match fuel with
  | O => None
  | S f =>
      match s with
      | q :: r =>
          if Ascii.eqb q dquote then
            match scan_string r [] with
            | None => None
            | Some (k, r1) =>
                match skip_ws r1 with
                | c :: r2 =>
                    if is_char c ":" then
                      match scan_once f (skip_ws r2) with
                      | None => None
                      | Some (v, r3) =>
                          match skip_ws r3 with
                          | c' :: r4 =>
                              if is_char c' "}" then Some (PDict (dict_set k v acc), r4)
                              else if is_char c' "," then
                                scan_object f (skip_ws r4) (dict_set k v acc)
                              else None
                          | [] => None
                          end
                      end
                    else None
                | [] => None
                end
            end
          else None
      | [] => None
      end
  end.

(** [json.loads(s)] for a [str]: one value between optional white space,
    nothing after it. *)
Definition loads_str (s : string) : res pyval :=
  let cs := list_ascii_of_string s in
  match scan_once (2 * length cs + 2) (skip_ws cs) with
  | Some (v, r) =>
      match skip_ws r with
      | [] => Ok v
      | _ => Raise JSONDecodeError
      end
  | None => Raise JSONDecodeError
  end.

(** [json.loads(v)]: anything but text is a [TypeError]. *)
Definition loads (v : pyval) : res pyval :=
  match v with
  | PStr s => loads_str s
  | _ => Raise TypeError
  end.

End Json.

(* ===================================================================== *)
(** * get_fulfillment_order_details                                       *)
(* ===================================================================== *)

(** The fetcher, from the value [send_request_with_retry] hands back to
    the details it returns. The fields of a line item are whatever the
    response holds; only the location list and the two flags are
    normalised. *)
Module Fetcher.

Record line_item : Type := {
  fulfillment_order_line_item_id : pyval;
  line_item_id : pyval;
  name : pyval;
  sku : pyval;
  quantity : pyval;
  available_locations : list pyval;
  is_length_transport : bool;
  is_daktrim_koppelstukje : bool
}.

Record order_details : Type := {
  fulfillment_order_id : string;
  status : pyval;
  line_items : list line_item
}.

Local Open Scope res_scope.

Fixpoint fold_res {A B} (f : A -> B -> res A) (l : list B) (a : A) : res A :=
  match l with
  | [] => Ok a
  | b :: l' => do a' <- f a b; fold_res f l' a'
  end.

Fixpoint map_res {A B} (f : A -> res B) (l : list A) : res (list B) :=
  match l with
  | [] => Ok []
  | a :: l' => do b <- f a; do bs <- map_res f l'; Ok (b :: bs)
  end.

Section WithJson.
(** [json.loads]. *)
Variable json_loads : pyval -> res pyval.

(** The [availability_location] branch: the [try] around [json.loads]
    and the list check, with its [except Exception]. *)
Definition parse_availability_location (value : pyval) : list pyval :=
  match json_loads value with
  | Ok (PList l) => l
  | Ok v => if truthy v then [v] else []
  | Raise _ => []
  end.

(** The [length_transport] and [daktrim_koppelstukje] branches:
    [value.lower() == 'true'] inside [try], [False] on any exception. *)
Definition parse_flag (value : pyval) : bool :=
  match py_lower value with
  | Ok s => String.eqb s "true"
  | Raise _ => false
  end.

(** One round of [for metafield in metafields]. *)
Definition metafield_step (acc : list pyval * bool * bool) (metafield : pyval)
  : res (list pyval * bool * bool) :=
  let '(locs, lt, dk) := acc in
  do key <- py_get metafield "key" (PStr "");
  do value <- py_get metafield "value" (PStr "");
  if py_eq_str key "availability_location" then
    Ok (parse_availability_location value, lt, dk)
  else if py_eq_str key "length_transport" then
    Ok (locs, parse_flag value, dk)
  else if py_eq_str key "daktrim_koppelstukje" then
    Ok (locs, lt, parse_flag value)
  else Ok (locs, lt, dk).

(** One round of [for edge in edges]. *)
Definition parse_edge (edge : pyval) : res line_item :=
  do node <- py_index edge "node";
  do item <- py_index node "lineItem";
  do variant <- py_get item "variant" (PDict []);
  do mfs <- py_get variant "metafields" (PDict []);
  do nodes <- py_get mfs "nodes" PNone;
  do fields <-
    (if truthy nodes then
       do variant' <- py_index item "variant";
       do mfs' <- py_index variant' "metafields";
       do metafields <- py_index mfs' "nodes";
       do l <- py_iter metafields;
       fold_res metafield_step l ([], false, false)
     else Ok ([], false, false));
  let '(locs, lt, dk) := fields in
  do folid <- py_index node "id";
  do lid <- py_index item "id";
  do nm <- py_index item "name";
  do sk <- py_get item "sku" (PStr "");
  do qty <- py_index item "quantity";
  Ok {| fulfillment_order_line_item_id := folid;
        line_item_id := lid;
        name := nm;
        sku := sk;
        quantity := qty;
        available_locations := locs;
        is_length_transport := lt;
        is_daktrim_koppelstukje := dk |}.

(** [not result or 'errors' in result or
    not result.get('data', {}).get('fulfillmentOrder')]. *)
Definition fetch_failed (result : pyval) : res bool :=
  if negb (truthy result) then Ok true
  else
    do has_errors <- py_contains "errors" result;
    if has_errors then Ok true
    else
      do data <- py_get result "data" (PDict []);
      do fo <- py_get data "fulfillmentOrder" PNone;
      Ok (negb (truthy fo)).

(** The body after the failure check. *)
Definition parse_details (fulfillment_order_id : string) (result : pyval)
  : res order_details :=
  do data <- py_index result "data";
  do fo <- py_index data "fulfillmentOrder";
  do st <- py_index fo "status";
  do data' <- py_index result "data";
  do fo' <- py_index data' "fulfillmentOrder";
  do lis <- py_index fo' "lineItems";
  do edges <- py_index lis "edges";
  if negb (truthy edges) then
    Ok {| fulfillment_order_id := fulfillment_order_id; status := st; line_items := [] |}
  else
    (* [len(edges)] in the log line and the [for] loop fail on the
       same values *)
    do l <- py_iter edges;
    do items <- map_res parse_edge l;
    Ok {| fulfillment_order_id := fulfillment_order_id; status := st; line_items := items |}.

(** [result] is what [send_request_with_retry(query)] returned. *)
Definition get_fulfillment_order_details (fulfillment_order_id : string)
    (result : option pydict) : res (option order_details) :=
  let result := result_value result in
  do failed <- fetch_failed result;
  if failed then
    (* [if 'errors' in result:] picks the log line, then [return None] *)
    do has_errors <- py_contains "errors" result;
    Ok None
  else
    do details <- parse_details fulfillment_order_id result;
    Ok (Some details).
End WithJson.

End Fetcher.

(* ===================================================================== *)
(** * Line items, categories, location groups                             *)
(* ===================================================================== *)

Definition home : string := "Rooftopshop Magazijn".

(** A normalised line item of the fetched details, in the shape the
    classifier and the decision tree work on: ids and names are text, the
    quantity is an integer, the locations are location names and the two
    flags are booleans. *)
Record line_item : Type := {
  fulfillment_order_line_item_id : string;
  line_item_id : string;
  name : string;
  sku : string;
  quantity : Z;
  available_locations : list string;
  is_length_transport : bool;
  is_daktrim_koppelstukje : bool
}.

Record order_details : Type := {
  fulfillment_order_id : string;
  status : string;
  line_items : list line_item
}.

(** The [item_details] dict the classifier files in a bucket. *)
Record item_details : Type := {
  item_id : string;
  item_quantity : Z;
  locations : list string;
  item_is_length_transport : bool;
  item_is_daktrim_koppelstukje : bool
}.

(** The five list-valued keys of [categories]. *)
Inductive bucket : Type :=
| LengthRooftopshop
| NonLengthRooftopshop
| LengthExternal
| NonLengthExternal
| DaktrimKoppelstukjeRooftopshop.

#[global] Instance bucket_eq_dec : EqDecision bucket.
Proof. solve_decision. Defined.

Record buckets : Type := {
  length_rooftopshop : list item_details;
  non_length_rooftopshop : list item_details;
  length_external : list item_details;
  non_length_external : list item_details;
  daktrim_koppelstukje_rooftopshop : list item_details
}.

Record summary_info : Type := {
  has_length_items : bool;
  has_daktrim_koppelstukje_items : bool;
  all_items_at_rooftopshop : bool;
  all_non_length_at_rooftopshop : bool;
  external_locations : list string
}.

Record categories : Type := {
  lists :> buckets;
  summary : summary_info
}.

Definition empty_buckets : buckets :=
  {| length_rooftopshop := []; non_length_rooftopshop := []; length_external := [];
     non_length_external := []; daktrim_koppelstukje_rooftopshop := [] |}.

(** [categories[key]]. *)
Definition get_bucket (key : bucket) (c : buckets) : list item_details :=
  match key with
  | LengthRooftopshop => length_rooftopshop c
  | NonLengthRooftopshop => non_length_rooftopshop c
  | LengthExternal => length_external c
  | NonLengthExternal => non_length_external c
  | DaktrimKoppelstukjeRooftopshop => daktrim_koppelstukje_rooftopshop c
  end.

(** [categories[key].append(d)]. *)
Definition bucket_append (key : bucket) (d : item_details) (c : buckets) : buckets :=
  match key with
  | LengthRooftopshop =>
      {| length_rooftopshop := length_rooftopshop c ++ [d];
         non_length_rooftopshop := non_length_rooftopshop c;
         length_external := length_external c;
         non_length_external := non_length_external c;
         daktrim_koppelstukje_rooftopshop := daktrim_koppelstukje_rooftopshop c |}
  | NonLengthRooftopshop =>
      {| length_rooftopshop := length_rooftopshop c;
         non_length_rooftopshop := non_length_rooftopshop c ++ [d];
         length_external := length_external c;
         non_length_external := non_length_external c;
         daktrim_koppelstukje_rooftopshop := daktrim_koppelstukje_rooftopshop c |}
  | LengthExternal =>
      {| length_rooftopshop := length_rooftopshop c;
         non_length_rooftopshop := non_length_rooftopshop c;
         length_external := length_external c ++ [d];
         non_length_external := non_length_external c;
         daktrim_koppelstukje_rooftopshop := daktrim_koppelstukje_rooftopshop c |}
  | NonLengthExternal =>
      {| length_rooftopshop := length_rooftopshop c;
         non_length_rooftopshop := non_length_rooftopshop c;
         length_external := length_external c;
         non_length_external := non_length_external c ++ [d];
         daktrim_koppelstukje_rooftopshop := daktrim_koppelstukje_rooftopshop c |}
  | DaktrimKoppelstukjeRooftopshop =>
      {| length_rooftopshop := length_rooftopshop c;
         non_length_rooftopshop := non_length_rooftopshop c;
         length_external := length_external c;
         non_length_external := non_length_external c;
         daktrim_koppelstukje_rooftopshop := daktrim_koppelstukje_rooftopshop c ++ [d] |}
  end.

(** [x in l] for a list of names. *)
Definition is_in (x : string) (l : list string) : bool :=
  existsb (String.eqb x) l.

Definition is_external (location : string) : bool :=
  negb (String.eqb location home).

Definition nonempty {A} (l : list A) : bool :=
  match l with [] => false | _ => true end.

(** [s.update(loc for loc in l if loc != "Rooftopshop Magazijn")]. *)
Definition add_external (s : gset string) (l : list string) : gset string :=
  fold_left (fun s loc => if is_external loc then s ∪ {[ loc ]} else s) l s.

(* ===================================================================== *)
(** * categorize_items                                                    *)
(* ===================================================================== *)

Definition details_of (item : line_item) : item_details :=
  {| item_id := fulfillment_order_line_item_id item;
     item_quantity := quantity item;
     locations := available_locations item;
     item_is_length_transport := is_length_transport item;
     item_is_daktrim_koppelstukje := is_daktrim_koppelstukje item |}.

(** The key the [if] cascade at the end of the loop body picks. *)
Definition bucket_of (item : line_item) : bucket :=
  let is_at_rooftopshop := is_in home (available_locations item) in
  if is_daktrim_koppelstukje item && is_at_rooftopshop then DaktrimKoppelstukjeRooftopshop
  else if is_length_transport item then
    if is_at_rooftopshop then LengthRooftopshop else LengthExternal
  else
    if is_at_rooftopshop then NonLengthRooftopshop else NonLengthExternal.

(** One round of [for item in order_details.get('line_items', [])]: the
    state is the five lists and the set of external locations. *)
Definition categorize_step (st : buckets * gset string) (item : line_item)
  : buckets * gset string :=
  let '(c, ext) := st in
  let is_at_rooftopshop := is_in home (available_locations item) in
  let ext' :=
    if negb is_at_rooftopshop && nonempty (available_locations item)
    then add_external ext (available_locations item)
    else ext in
  (bucket_append (bucket_of item) (details_of item) c, ext').

Definition make_summary (c : buckets) (ext : gset string) : summary_info :=
  {| has_length_items :=
       (0 <? length (length_rooftopshop c) + length (length_external c))%nat;
     has_daktrim_koppelstukje_items :=
       (0 <? length (daktrim_koppelstukje_rooftopshop c))%nat;
     all_items_at_rooftopshop :=
       (length (length_external c) + length (non_length_external c) =? 0)%nat;
     all_non_length_at_rooftopshop := (length (non_length_external c) =? 0)%nat;
     external_locations := elements ext |}.

Definition categorize_items (details : order_details) : categories :=
  let '(c, ext) := fold_left categorize_step (line_items details) (empty_buckets, ∅) in
  {| lists := c; summary := make_summary c ext |}.

(* ===================================================================== *)
(** * group_by_external_location and the grouping of the decision tree    *)
(* ===================================================================== *)

(** The [{"id": ..., "quantity": ...}] dict sent to the split mutation. *)
Record split_item : Type := {
  split_id : string;
  split_quantity : Z
}.

Definition to_split (d : item_details) : split_item :=
  {| split_id := item_id d; split_quantity := item_quantity d |}.

(** [location_groups]: location name to items, in insertion order. *)
Definition location_groups : Type := list (string * list split_item).

(** [if location not in g: g[location] = []] then
    [g[location].append(x)]. *)
Fixpoint groups_append (location : string) (x : split_item) (g : location_groups)
  : location_groups :=
  match g with
  | [] => [(location, [x])]
  | (l, xs) :: g' =>
      if String.eqb location l then (l, xs ++ [x]) :: g'
      else (l, xs) :: groups_append location x g'
  end.

(** [g[location]], the empty list when the key is absent. *)
Fixpoint group_at (location : string) (g : location_groups) : list split_item :=
  match g with
  | [] => []
  | (l, xs) :: g' => if String.eqb location l then xs else group_at location g'
  end.

(** The [for location in ...] loop with its [break]: the groups after it
    and the flag [assigned]. *)
Fixpoint assign_first_external (x : split_item) (locs : list string) (g : location_groups)
  : location_groups * bool :=
  match locs with
  | [] => (g, false)
  | location :: rest =>
      if is_external location then (groups_append location x g, true)
      else assign_first_external x rest g
  end.

Definition group_step (g : location_groups) (item : item_details) : location_groups :=
  let '(g', assigned) :=
    if nonempty (locations item)
    then assign_first_external (to_split item) (locations item) g
    else (g, false) in
  if negb assigned then groups_append "unknown" (to_split item) g' else g'.

Definition group_by_external_location (items : list item_details) : location_groups :=
  fold_left group_step items [].

(** [{item['fulfillment_order_line_item_id']: item for item in
    fulfillment_details['line_items']}]: a later item with the same id
    replaces an earlier one. *)
Definition remaining_line_items (details : order_details) : gmap string line_item :=
  fold_left (fun m item => <[ fulfillment_order_line_item_id item := item ]> m)
            (line_items details) ∅.

(** One round of the grouping loops of the decision tree (the three
    copies in the source are the same up to the list they run over): the
    item must still be in the snapshot, its locations are the snapshot's,
    and the [unknown] group is used only [if not assigned and locations]. *)
Definition group_remaining_step (remaining : gmap string line_item)
    (g : location_groups) (item : item_details) : location_groups :=
  match remaining !! item_id item with
  | None => g
  | Some r =>
      let locs := available_locations r in
      let '(g', assigned) := assign_first_external (to_split item) locs g in
      if negb assigned && nonempty locs
      then groups_append "unknown" (to_split item) g'
      else g'
  end.

Definition group_remaining (remaining : gmap string line_item)
    (items : list item_details) (g : location_groups) : location_groups :=
  fold_left (group_remaining_step remaining) items g.

(** The first location of a list that is not the home warehouse. *)
Fixpoint first_external (locs : list string) : option string :=
  match locs with
  | [] => None
  | l :: rest => if is_external l then Some l else first_external rest
  end.

(* ===================================================================== *)
(** * get_location_tag                                                    *)
(* ===================================================================== *)

Definition get_location_tag (location : string) : string :=
  if String.eqb location "Compri Aluminium" then "compriFulfillment"
  else if String.eqb location "Redfox EPDM" then "redfoxFulfillment"
  else location +:+ "Fulfillment".

(* ===================================================================== *)
(** * The remote API seen from the decision tree                          *)
(* ===================================================================== *)

Record split_record : Type := {
  type : string;
  new_fulfillment_order_id : string;
  split_status : string;
  items : list split_item;
  location : option string
}.

(** The [results] dict of the decision tree. *)
Record results : Type := {
  success : bool;
  splits : list split_record;
  tags_added : list string;
  error : option string
}.

(** What [split_fulfillment_order] returns: the new id (or [None]) and the
    status or failure message. *)
Definition split_reply_t : Type := res (option string * string).

(** What [get_fulfillment_order_details] returns. *)
Definition fetch_reply_t : Type := res (option order_details).

(** A remote call of the decision tree with what came back, or a sleep. *)
Inductive event : Type :=
| TagCall (order_gid tag : string) (reply : option pydict)
| SplitCall (fo_id : string) (sent : list split_item) (reply : split_reply_t)
| FetchCall (fo_id : string) (reply : fetch_reply_t)
| SleepCall (ms : Z).

(** The remote side of one run. [tag_reply k] is what
    [send_request_with_retry] returns for the [k]-th [tagsAdd] mutation,
    [split_reply k] what the [k]-th [split_fulfillment_order] returns and
    [fetch_reply k] what the [k]-th [get_fulfillment_order_details]
    returns (counting from 0). The tree only looks at the pair a split
    returns and at the details a fetch returns, so these two calls are
    taken at their return value; a fetch can raise (see [Fetcher]). *)
Record remote : Type := {
  tag_reply : nat -> option pydict;
  split_reply : nat -> split_reply_t;
  fetch_reply : nat -> fetch_reply_t
}.

Definition is_tag (e : event) : bool :=
  match e with TagCall _ _ _ => true | _ => false end.
Definition is_split (e : event) : bool :=
  match e with SplitCall _ _ _ => true | _ => false end.
Definition is_fetch (e : event) : bool :=
  match e with FetchCall _ _ => true | _ => false end.

Definition count (p : event -> bool) (log : list event) : nat :=
  length (List.filter p log).

(** A computation of the decision tree: it extends the log of events and
    returns a value or raises. *)
Definition M (A : Type) : Type := list event -> res A * list event.

Definition ret {A} (a : A) : M A := fun log => (Ok a, log).

Definition bind {A B} (m : M A) (k : A -> M B) : M B :=
  fun log =>
    match m log with
    | (Ok a, log') => k a log'
    | (Raise e, log') => (Raise e, log')
    end.

Definition lift {A} (r : res A) : M A := fun log => (r, log).

Declare Scope tree_scope.
Delimit Scope tree_scope with tree.
Notation "x <~ m ;; k" := (bind m (fun x => k))
  (at level 100, m at next level, right associativity) : tree_scope.

(** The [try] block of [add_tag_to_order] that looks for user errors. *)
Definition tag_user_errors (result : pyval) : res pyval :=
  (do has_data <- py_contains "data" result;
   if negb has_data then Ok (PList [])
   else
     do data <- py_index result "data";
     do tags_add <- py_index data "tagsAdd";
     if negb (truthy tags_add) then Ok (PList [])
     else
       do data1 <- py_index result "data";
       do tags_add1 <- py_index data1 "tagsAdd";
       do errs <- py_index tags_add1 "userErrors";
       if negb (truthy errs) then Ok (PList [])
       else
         do data2 <- py_index result "data";
         do tags_add2 <- py_index data2 "tagsAdd";
         py_index tags_add2 "userErrors")%res.

(** The checks [add_tag_to_order] makes on the executor's result. *)
Definition tag_result_ok (result : pyval) : res bool :=
  (if negb (truthy result) then Ok false
   else
     do has_errors <- py_contains "errors" result;
     if has_errors then Ok false
     else
       do user_errors <-
         match tag_user_errors result with
         | Ok v => Ok v
         | Raise KeyError => Ok (PList [])
         | Raise TypeError => Ok (PList [])
         | Raise e => Raise e
         end;
       if truthy user_errors then Ok false else Ok true)%res.

(** [if order_id] for an order id that is [None] or text. *)
Definition id_truthy (i : option string) : bool :=
  match i with
  | Some s => negb (String.eqb s "")
  | None => false
  end.

Definition order_gid (order_id : string) : string :=
  if String.prefix "gid://" order_id then order_id
  else "gid://shopify/Order/" +:+ order_id.

Section DecisionTree.
Variable rm : remote.

Local Open Scope tree_scope.

Definition sleep (ms : Z) : M unit :=
  fun log => (Ok tt, log ++ [SleepCall ms]).

Definition add_tag_to_order (order_id : option string) (tag : string) : M bool :=
  match order_id with
  | None => ret false
  | Some oid =>
      if String.eqb oid "" then ret false
      else
        fun log =>
          let result := tag_reply rm (count is_tag log) in
          (tag_result_ok (result_value result),
           log ++ [TagCall (order_gid oid) tag result])
  end.

Definition split_fulfillment_order (fo_id : string) (to_send : list split_item)
  : M (option string * string) :=
  fun log =>
    let reply := split_reply rm (count is_split log) in
    (reply, log ++ [SplitCall fo_id to_send reply]).

Definition get_fulfillment_order_details (fo_id : string) : M (option order_details) :=
  fun log =>
    let reply := fetch_reply rm (count is_fetch log) in
    (reply, log ++ [FetchCall fo_id reply]).

Definition append_tag (r : results) (tag : string) : results :=
  {| success := success r; splits := splits r;
     tags_added := tags_added r ++ [tag]; error := error r |}.

Definition append_split (r : results) (s : split_record) : results :=
  {| success := success r; splits := splits r ++ [s];
     tags_added := tags_added r; error := error r |}.

(** [results['success'] = False; results['error'] = msg]. *)
Definition failed (r : results) (msg : string) : results :=
  {| success := false; splits := splits r;
     tags_added := tags_added r; error := Some msg |}.

(** [if order_id and add_tag_to_order(order_id, tag):
       results['tags_added'].append(tag)]. *)
Definition tag_order (order_id : option string) (tag : string) (r : results) : M results :=
  if id_truthy order_id then
    ok <~ add_tag_to_order order_id tag ;;
    ret (if ok then append_tag r tag else r)
  else ret r.

(** The set of external locations the pre-step builds. *)
Definition external_location_set (l : list item_details) : gset string :=
  fold_left (fun s item => add_external s (locations item)) l ∅.

(** The two tags added before the tree is walked. *)
Definition pre_step (order_id : option string) (c : categories) (r : results) : M results :=
  r1 <~ (if has_length_items (summary c) && (length (length_external c) =? 0)%nat
         then tag_order order_id "daktrimFulfillment" r
         else ret r) ;;
  if (0 <? length (length_external c))%nat || (0 <? length (non_length_external c))%nat then
    let ext := external_location_set (length_external c ++ non_length_external c) in
    if (size ext =? 1)%nat
       && (length (length_rooftopshop c) + length (non_length_rooftopshop c)
           + length (daktrim_koppelstukje_rooftopshop c) =? 0)%nat
    then
      match elements ext with
      | loc :: _ => tag_order order_id (get_location_tag loc) r1
      | [] => ret r1
      end
    else ret r1
  else ret r1.

(** The wording that differs between the two [for location, items in
    location_groups.items()] loops. *)
Record loop_messages : Type := {
  split_failed : string;
  refetch_failed : string
}.

Definition length_branch_messages : loop_messages :=
  {| split_failed := "Failed to split items for ";
     refetch_failed :=
       "Failed to get updated fulfillment order details after splitting items at " |}.

Definition no_length_branch_messages : loop_messages :=
  {| split_failed := "Failed to split non-length items for ";
     refetch_failed :=
       "Failed to get updated fulfillment order details after splitting non-length items at " |}.

(** The loop over the location groups. Every way out of it ([return
    results] or [break] in the source) is followed by [return results]. *)
Fixpoint split_groups (msgs : loop_messages) (order_id : option string) (fo_id : string)
    (groups : location_groups) (r : results) : M results :=
  match groups with
  | [] => ret r
  | (loc, its) :: rest =>
      if negb (nonempty its) then split_groups msgs order_id fo_id rest r
      else
        reply <~ split_fulfillment_order fo_id its ;;
        let '(new_id, st) := reply in
        _ <~ sleep 3000 ;;
        if id_truthy new_id then
          let r1 := append_split r
            {| type := "external_" +:+ loc;
               new_fulfillment_order_id := default "" new_id;
               split_status := st;
               items := its;
               location := Some loc |} in
          r2 <~ tag_order order_id (get_location_tag loc) r1 ;;
          _ <~ sleep 1000 ;;
          fulfillment_details <~ get_fulfillment_order_details fo_id ;;
          match fulfillment_details with
          | None => ret (failed r2 (refetch_failed msgs +:+ loc))
          | Some _ => split_groups msgs order_id fo_id rest r2
          end
        else ret (failed r (split_failed msgs +:+ loc +:+ ": " +:+ st))
  end.

(** Step 1 of the branch with length items: the result to return at
    once, or the results so far and the details fetched after the
    split. *)
Definition split_length_rooftopshop (order_id : option string) (fo_id : string)
    (c : categories) (r : results) : M (results + results * option order_details) :=
  if nonempty (length_rooftopshop c) then
    let combined_items :=
      map to_split (length_rooftopshop c)
      ++ (if nonempty (daktrim_koppelstukje_rooftopshop c)
          then map to_split (daktrim_koppelstukje_rooftopshop c) else []) in
    reply <~ split_fulfillment_order fo_id combined_items ;;
    let '(new_id, st) := reply in
    if id_truthy new_id then
      let r1 := append_split r
        {| type := "length_rooftopshop_with_koppelstukje";
           new_fulfillment_order_id := default "" new_id;
           split_status := st;
           items := combined_items;
           location := None |} in
      r2 <~ tag_order order_id "daktrimFulfillment" r1 ;;
      _ <~ sleep 2000 ;;
      fulfillment_details <~ get_fulfillment_order_details fo_id ;;
      match fulfillment_details with
      | None =>
          ret (inl (failed r2
            "Failed to get updated fulfillment order details after splitting length items at Rooftopshop"))
      | Some d => ret (inr (r2, Some d))
      end
    else ret (inl (failed r ("Failed to split length items at Rooftopshop: " +:+ st)))
  else ret (inr (r, None)).

(** The branch taken when the order has length items. *)
Definition length_branch (order_id : option string) (fo_id : string)
    (c : categories) (r : results) : M results :=
  step1 <~ split_length_rooftopshop order_id fo_id c r ;;
  match step1 with
  | inl r' => ret r'
  | inr (r', fulfillment_details) =>
      if negb (all_items_at_rooftopshop (summary c)) then
        fetched <~ match fulfillment_details with
                   | Some d => ret (Some d)
                   | None => get_fulfillment_order_details fo_id
                   end ;;
        match fetched with
        | None =>
            ret (failed r'
              "Failed to get fulfillment order details before splitting external items")
        | Some d =>
            let remaining := remaining_line_items d in
            let groups :=
              group_remaining remaining (non_length_external c)
                (group_remaining remaining (length_external c) []) in
            split_groups length_branch_messages order_id fo_id groups r'
        end
      else ret r'
  end.

(** [categories] after the coupling pieces have been appended to the
    non-length items at home. *)
Definition fold_koppelstukje (c : categories) : categories :=
  {| lists :=
       {| length_rooftopshop := length_rooftopshop c;
          non_length_rooftopshop :=
            non_length_rooftopshop c ++ daktrim_koppelstukje_rooftopshop c;
          length_external := length_external c;
          non_length_external := non_length_external c;
          daktrim_koppelstukje_rooftopshop := daktrim_koppelstukje_rooftopshop c |};
     summary := summary c |}.

(** The branch taken when the order has no length items. *)
Definition no_length_branch (order_id : option string) (fo_id : string)
    (c : categories) (r : results) : M results :=
  if all_non_length_at_rooftopshop (summary c) then ret r
  else
    fulfillment_details <~ get_fulfillment_order_details fo_id ;;
    match fulfillment_details with
    | None =>
        ret (failed r
          "Failed to get fulfillment order details before splitting external non-length items")
    | Some d =>
        let remaining := remaining_line_items d in
        let groups := group_remaining remaining (non_length_external c) [] in
        split_groups no_length_branch_messages order_id fo_id groups r
    end.

Definition initial_results : results :=
  {| success := true; splits := []; tags_added := []; error := None |}.

(** The decision tree: the results it returns and [categories] as the
    caller sees it afterwards. *)
Definition process_fulfillment_according_to_decision_tree
    (order_id : option string) (fo_id : string) (c : categories)
  : M (results * categories) :=
  r <~ pre_step order_id c initial_results ;;
  if has_length_items (summary c) then
    r' <~ length_branch order_id fo_id c r ;;
    ret (r', c)
  else
    let c' := fold_koppelstukje c in
    r' <~ no_length_branch order_id fo_id c' r ;;
    ret (r', c').

(** One run from an empty log. *)
Definition run (order_id : option string) (fo_id : string) (c : categories)
  : res (results * categories) * list event :=
  process_fulfillment_according_to_decision_tree order_id fo_id c [].
End DecisionTree.

(* ===================================================================== *)
(** * Responses and orders used in the statements                         *)
(* ===================================================================== *)

(** The ids filed under a key. *)
Definition bucket_ids (key : bucket) (c : buckets) : list string :=
  map item_id (get_bucket key c).

(** The input items the cascade sends to a key. *)
Definition items_for (key : bucket) (l : list line_item) : list line_item :=
  List.filter (fun item => bool_decide (bucket_of item = key)) l.

(** The key of an entry, read off the entry itself: the cascade looks at
    the locations and the two flags only. *)
Definition details_bucket (d : item_details) : bucket :=
  let is_at_rooftopshop := is_in home (locations d) in
  if item_is_daktrim_koppelstukje d && is_at_rooftopshop then DaktrimKoppelstukjeRooftopshop
  else if item_is_length_transport d then
    if is_at_rooftopshop then LengthRooftopshop else LengthExternal
  else
    if is_at_rooftopshop then NonLengthRooftopshop else NonLengthExternal.

Definition order_of (l : list line_item) : order_details :=
  {| fulfillment_order_id := "gid://shopify/FulfillmentOrder/1";
     status := "OPEN";
     line_items := l |}.

Definition item_of (i : string) (qty : Z) (locs : list string) (lt dk : bool) : line_item :=
  {| fulfillment_order_line_item_id := i;
     line_item_id := "gid://shopify/LineItem/1";
     name := "Daktrim";
     sku := "";
     quantity := qty;
     available_locations := locs;
     is_length_transport := lt;
     is_daktrim_koppelstukje := dk |}.

(** A response for which the failure check has to look at the order:
    some keys, none of them [errors]. *)
Definition order_missing (d : pydict) : Prop :=
  d <> [] /\ dict_has "errors" d = false
  /\ (dict_lookup "data" d = None
      \/ exists data, dict_lookup "data" d = Some (PDict data)
           /\ match dict_lookup "fulfillmentOrder" data with
              | None => True
              | Some fo => truthy fo = false
              end).

(** The edge of a response for one line item with the given metafields. *)
Definition edge_of (folid lid nm sk qty : pyval) (metafields : list pydict) : pyval :=
  PDict [("node", PDict
    [("id", folid);
     ("lineItem", PDict
        [("quantity", qty); ("id", lid); ("name", nm); ("sku", sk);
         ("variant", PDict
            [("metafields", PDict [("nodes", PList (map PDict metafields))])])])])].

(** The response that holds one order with the given edges. *)
Definition response_of (st : pyval) (edges : list pyval) : pydict :=
  [("data", PDict
      [("fulfillmentOrder", PDict
          [("id", PStr "gid://shopify/FulfillmentOrder/1");
           ("status", st);
           ("lineItems", PDict [("edges", PList edges)])])])].

Definition availability_metafield (value : pyval) : pydict :=
  [("key", PStr "availability_location"); ("value", value)].


(** An order of three items: a coupling piece that is a length item at
    home, a length item at home, a plain item at Compri Aluminium. *)
Definition three_items : order_details :=
  order_of
    [item_of "gid://shopify/FulfillmentOrderLineItem/1" 2 [home] true true;
     item_of "gid://shopify/FulfillmentOrderLineItem/2" 1 [home; "Redfox EPDM"] true false;
     item_of "gid://shopify/FulfillmentOrderLineItem/3" 4 ["Compri Aluminium"] false false].

(** The number of entries filed in all groups. *)
Definition total_entries (g : location_groups) : nat :=
  length (flat_map snd g).

(** The group an item belongs to by the rule of the first location that is
    not the home warehouse, [unknown] when there is none. *)
Definition group_name (locs : list string) : string :=
  match first_external locs with
  | Some l => l
  | None => "unknown"
  end.

(** The candidates that are still in the snapshot with at least one
    location there. *)
Definition located_in (remaining : gmap string line_item) (l : list item_details)
  : list item_details :=
  List.filter
    (fun item =>
       match remaining !! item_id item with
       | Some r => nonempty (available_locations r)
       | None => false
       end) l.

(** A plain item that has no location at all. *)
Definition nowhere_item : line_item :=
  item_of "gid://shopify/FulfillmentOrderLineItem/7" 1 [] false false.

(* ===================================================================== *)
(** * Reading a log of remote calls                                       *)
(* ===================================================================== *)

(** The verdict of [add_tag_to_order] on what the executor returned. *)
Definition tag_ok (reply : option pydict) : bool :=
  match tag_result_ok (result_value reply) with
  | Ok b => b
  | Raise _ => false
  end.

(** The tags of the calls that succeeded, in order. *)
Definition committed_tags (ev : list event) : list string :=
  flat_map (fun e => match e with
                     | TagCall _ tag reply => if tag_ok reply then [tag] else []
                     | _ => []
                     end) ev.

(** The splits that gave a new order: what was sent, the new id, the
    status. *)
Definition committed_splits (ev : list event) : list (list split_item * string * string) :=
  flat_map (fun e => match e with
                     | SplitCall _ sent (Ok (Some new_id, st)) =>
                         if id_truthy (Some new_id) then [(sent, new_id, st)] else []
                     | _ => []
                     end) ev.

Definition split_summary (s : split_record) : list split_item * string * string :=
  (items s, new_fulfillment_order_id s, split_status s).

(** A split call that came back without a new order id. *)
Definition split_refused (e : event) : bool :=
  match e with
  | SplitCall _ _ (Ok (new_id, _)) => negb (id_truthy new_id)
  | _ => false
  end.

Definition is_sleep (e : event) : bool :=
  match e with SleepCall _ => true | _ => false end.

(** No split of the log was refused. *)
Definition clean (ev : list event) : Prop :=
  Forall (fun e => split_refused e = false) ev.

(** The results [r'] account for [r] and the calls of [ev] that
    succeeded. *)
Definition extends (r : results) (ev : list event) (r' : results) : Prop :=
  tags_added r' = tags_added r ++ committed_tags ev
  /\ map split_summary (splits r') = map split_summary (splits r) ++ committed_splits ev.

(** The log ends with a refused split, followed by sleeps only, and the
    results report it. *)
Definition stopped (ev : list event) (r' : results) : Prop :=
  exists before fo sent new_id st prefix sleeps,
    ev = before ++ SplitCall fo sent (Ok (new_id, st)) :: sleeps
    /\ id_truthy new_id = false
    /\ clean before
    /\ Forall (fun e => is_sleep e = true) sleeps
    /\ success r' = false
    /\ error r' = Some (prefix +:+ st).

(** What a computation did: the value it returned or the exception it
    raised, and the events it added to the log. *)
Definition post (A : Type) : Type := res A -> list event -> Prop.

Definition spec {A} (m : M A) (Q : post A) : Prop :=
  forall log, exists out ev, m log = (out, log ++ ev) /\ Q out ev.

(** The same, for a run that starts from a given log. *)
Definition spec_at {A} (log : list event) (m : M A) (Q : post A) : Prop :=
  exists out ev, m log = (out, log ++ ev) /\ Q out ev.

Definition tracked (r : results) : post results :=
  fun out ev =>
    match out with
    | Ok r' => extends r ev r' /\ (clean ev \/ stopped ev r')
    | Raise _ => clean ev
    end.

(** Step 1 of the length branch: what it hands on, or the result it
    returns at once. *)
Definition tracked_step (r : results)
  : post (results + results * option order_details) :=
  fun out ev =>
    match out with
    | Ok (inl r') => extends r ev r' /\ (clean ev \/ stopped ev r')
    | Ok (inr (r', _)) => extends r ev r' /\ clean ev
    | Raise _ => clean ev
    end.

(* ===================================================================== *)
(** * Orders and remote sides used in the examples                        *)
(* ===================================================================== *)

(** What the executor returns for a [tagsAdd] mutation that went
    through. *)
Definition tag_accepted : option pydict :=
  Some [("data", PDict
           [("tagsAdd", PDict
               [("node", PDict [("id", PStr "gid://shopify/Order/9")]);
                ("userErrors", PList [])])])].

(** What it returns when the mutation is rejected with a user error. *)
Definition tag_rejected : option pydict :=
  Some [("data", PDict
           [("tagsAdd", PDict
               [("node", PNone);
                ("userErrors", PList [PDict [("message", PStr "Order not found")]])])])].

Definition redfox_item : line_item :=
  item_of "gid://shopify/FulfillmentOrderLineItem/2" 3 ["Redfox EPDM"] false false.

(** A length item at home and a plain item at Redfox EPDM. *)
Definition length_home_and_redfox : order_details :=
  order_of
    [item_of "gid://shopify/FulfillmentOrderLineItem/1" 1 [home] true false;
     redfox_item].

(** A remote side on which every tag and every split goes through; after
    the first split the order holds the Redfox item only. *)
Definition accepting : remote :=
  {| tag_reply := fun _ => tag_accepted;
     split_reply := fun _ => Ok (Some "gid://shopify/FulfillmentOrder/2", "OPEN");
     fetch_reply := fun _ => Ok (Some (order_of [redfox_item])) |}.

(** A remote side on which tags go through, the first split gives a new
    order, every later split is refused, and the order then holds the
    Redfox item only. *)
Definition refusing_second_split : remote :=
  {| tag_reply := fun _ => tag_accepted;
     split_reply := fun k =>
       match k with
       | O => Ok (Some "gid://shopify/FulfillmentOrder/2", "OPEN")
       | S _ => Ok (None, "No splits returned from API")
       end;
     fetch_reply := fun _ => Ok (Some (order_of [redfox_item])) |}.

(* ===================================================================== *)
(** * Two runs that differ in the answers to tag calls only               *)
(* ===================================================================== *)

(** An event without the answer to a tag call. *)
Definition forget_tag_reply (e : event) : event :=
  match e with
  | TagCall gid tag _ => TagCall gid tag None
  | _ => e
  end.

(** Two logs with the same calls, the same answers to splits and fetches,
    the same sleeps. *)
Definition same_calls (l1 l2 : list event) : Prop :=
  map forget_tag_reply l1 = map forget_tag_reply l2.

(** Two results that differ in [tags_added] at most. *)
Definition same_but_tags (r1 r2 : results) : Prop :=
  success r1 = success r2 /\ splits r1 = splits r2 /\ error r1 = error r2.

(** The remote side [rm] with other answers to the tag calls. *)
Definition with_tag_replies (rm : remote) (tags : nat -> option pydict) : remote :=
  {| tag_reply := tags; split_reply := split_reply rm; fetch_reply := fetch_reply rm |}.

(** Two computations go the same way, up to the answers to tag calls. *)
Definition sim {A} (R : A -> A -> Prop) (m1 m2 : M A) : Prop :=
  forall log1 log2, same_calls log1 log2 ->
    match m1 log1, m2 log2 with
    | (Ok a1, l1), (Ok a2, l2) => R a1 a2 /\ same_calls l1 l2
    | (Raise e1, l1), (Raise e2, l2) => e1 = e2 /\ same_calls l1 l2
    | _, _ => False
    end.

Definition same_step (s1 s2 : results + results * option order_details) : Prop :=
  match s1, s2 with
  | inl r1, inl r2 => same_but_tags r1 r2
  | inr (r1, d1), inr (r2, d2) => same_but_tags r1 r2 /\ d1 = d2
  | _, _ => False
  end.

(* ===================================================================== *)
(** * What the splits of a run send                                       *)
(* ===================================================================== *)

(** Every split call of the log sends items of [allowed] only. *)
Definition sent_within (allowed : list split_item) (ev : list event) : Prop :=
  Forall (fun e => match e with
                   | SplitCall _ sent _ => incl sent allowed
                   | _ => True
                   end) ev.

(** Every group holds items of [allowed] only. *)
Definition groups_within (allowed : list split_item) (g : location_groups) : Prop :=
  Forall (fun grp => incl (snd grp) allowed) g.

(** The external items of [categories], as they are sent to a split. *)
Definition external_candidates (c : buckets) : list split_item :=
  map to_split (length_external c ++ non_length_external c).

Definition koppelstukje_item : line_item :=
  item_of "gid://shopify/FulfillmentOrderLineItem/1" 2 [home] false true.

(** A coupling piece at home and a length item at Compri Aluminium. *)
Definition koppelstukje_and_external_length : order_details :=
  order_of
    [koppelstukje_item;
     item_of "gid://shopify/FulfillmentOrderLineItem/2" 1 ["Compri Aluminium"] true false].

(** A remote side on which everything goes through and the order is
    found unchanged. *)
Definition accepting_unchanged (snapshot : order_details) : remote :=
  {| tag_reply := fun _ => tag_accepted;
     split_reply := fun _ => Ok (Some "gid://shopify/FulfillmentOrder/2", "OPEN");
     fetch_reply := fun _ => Ok (Some snapshot) |}.

(** Every group has at least one item. *)
Definition groups_nonempty (g : location_groups) : Prop :=
  Forall (fun grp => snd grp <> []) g.

(** Two plain items, both at Compri Aluminium only. *)
Definition two_compri_items : order_details :=
  order_of
    [item_of "gid://shopify/FulfillmentOrderLineItem/1" 1 ["Compri Aluminium"] false false;
     item_of "gid://shopify/FulfillmentOrderLineItem/2" 5 ["Compri Aluminium"] false false].

(** What follows the first tag of a run: the fetch, then a split when one
    of the candidates is still in the snapshot with a location. *)
Definition fetch_then_split (rm : remote) (fo : string) (candidates : list item_details)
  : post results :=
  fun _ ev =>
    exists rest,
      ev = FetchCall fo (fetch_reply rm 0) :: rest
      /\ (forall d, fetch_reply rm 0 = Ok (Some d) ->
            located_in (remaining_line_items d) candidates <> [] ->
            exists sent reply rest', sent <> [] /\ rest = SplitCall fo sent reply :: rest').

(** A remote side on which tags go through, the order is found unchanged
    and every split is refused. *)
Definition refusing_unchanged (snapshot : order_details) : remote :=
  {| tag_reply := fun _ => tag_accepted;
     split_reply := fun _ => Ok (None, "No splits returned from API");
     fetch_reply := fun _ => Ok (Some snapshot) |}.

(** The tags a run reports, none when it raised. *)
Definition tags_of (outcome : res (results * categories) * list event) : list string :=
  match fst outcome with
  | Ok (r, _) => tags_added r
  | Raise _ => []
  end.

(** A plain item at home and at Compri Aluminium, home listed first. *)
Definition home_then_compri : item_details :=
  details_of (item_of "gid://shopify/FulfillmentOrderLineItem/4" 2
                [home; "Compri Aluminium"] false false).

(* ===================================================================== *)
(** * Measures of an executor trace                                       *)
(* ===================================================================== *)

(** The number of requests a trace made. *)
Definition posts (tr : list io_event) : nat :=
  length (List.filter (fun e => match e with Post _ => true | Sleep _ => false end) tr).

(** The time a trace slept, in milliseconds. *)
Fixpoint waited (tr : list io_event) : Z :=
  match tr with
  | [] => 0
  | Sleep ms :: tr' => ms + waited tr'
  | Post _ :: tr' => waited tr'
  end.

(* ===================================================================== *)
(** * Metafields of a line item, read as a whole                          *)
(* ===================================================================== *)

(** [metafield.get('key', '')] and [metafield.get('value', '')] of a
    metafield that is a dict. *)
Definition metafield_key (m : pydict) : pyval :=
  match dict_lookup "key" m with Some k => k | None => PStr "" end.

Definition metafield_value (m : pydict) : pyval :=
  match dict_lookup "value" m with Some v => v | None => PStr "" end.

(** The value of the last metafield of the list that has the given key. *)
Fixpoint last_value (key : string) (ms : list pydict) : option pyval :=
  match ms with
  | [] => None
  | m :: ms' =>
      match last_value key ms' with
      | Some v => Some v
      | None => if py_eq_str (metafield_key m) key then Some (metafield_value m) else None
      end
  end.

(** The edge of a line item given by its [lineItem] dict. *)
Definition edge_with (folid : pyval) (item : pydict) : pyval :=
  PDict [("node", PDict [("id", folid); ("lineItem", PDict item)])].

(** The letter [c] in either case. *)
Definition letter (lower upper c : ascii) : Prop := c = lower \/ c = upper.

(* ===================================================================== *)
(** * The line items behind the summary of the classifier                 *)
(* ===================================================================== *)

(** [home in available_locations] of a line item. *)
Definition at_home (item : line_item) : bool :=
  is_in home (available_locations item).

(** A coupling piece that is at home: the special case of the cascade. *)
Definition koppelstukje_at_home (item : line_item) : bool :=
  is_daktrim_koppelstukje item && at_home item.

(* ===================================================================== *)
(** * Groups as a dict                                                    *)
(* ===================================================================== *)

(** The keys of [location_groups], in insertion order. *)
Definition group_keys (g : location_groups) : list string := map fst g.

(** The items whose group is [loc], by their own locations. *)
Definition grouped_at (loc : string) (l : list item_details) : list item_details :=
  List.filter (fun item => String.eqb loc (group_name (locations item))) l.

(** The same for the grouping of the decision tree: the item is in the
    snapshot with at least one location, and the snapshot's locations
    decide. *)
Definition regrouped_at (remaining : gmap string line_item) (loc : string)
    (l : list item_details) : list item_details :=
  List.filter
    (fun item =>
       match remaining !! item_id item with
       | Some r => nonempty (available_locations r)
                   && String.eqb loc (group_name (available_locations r))
       | None => false
       end) l.

(** A grouping loop in general: every item is filed under the name
    [name] gives it, or skipped when it gives none. *)
Definition file_items (name : item_details -> option string)
    (l : list item_details) (g : location_groups) : location_groups :=
  fold_left (fun g item =>
               match name item with
               | Some loc => groups_append loc (to_split item) g
               | None => g
               end) l g.

(** The name the grouping of the decision tree gives an item. *)
Definition snapshot_name (remaining : gmap string line_item) (item : item_details)
  : option string :=
  match remaining !! item_id item with
  | Some r =>
      if nonempty (available_locations r) then Some (group_name (available_locations r))
      else None
  | None => None
  end.

(* ===================================================================== *)
(** * Tags                                                                *)
(* ===================================================================== *)

(** The two locations [a] and [b] are [x] and [y], in either order. *)
Definition pair_of (x y a b : string) : Prop :=
  (a = x /\ b = y) \/ (a = y /\ b = x).

(** The response of a [tagsAdd] mutation lists user errors. *)
Definition reports_user_errors (d : pydict) : Prop :=
  exists data tags_add errs,
    dict_lookup "data" d = Some (PDict data)
    /\ dict_lookup "tagsAdd" data = Some (PDict tags_add)
    /\ dict_lookup "userErrors" tags_add = Some errs
    /\ truthy errs = true.

(* ===================================================================== *)
(** * split_fulfillment_order on what the executor returned               *)
(* ===================================================================== *)

Module Splitter.

(** The second component of the pair [split_fulfillment_order] returns.
    It is the status of the order the id belongs to, or one of the
    messages of the function; a message that quotes the response or an
    exception is kept with what it quotes. *)
Inductive status : Type :=
| OrderStatus (st : pyval)
| NoResponse                       (* No response from Shopify API *)
| GraphQLErrors (errors : pyval)   (* GraphQL errors from Shopify API: ... *)
| UserErrors (errors : pyval)      (* User errors from Shopify API: ... *)
| NotIdentified                    (* Split successful but couldn't identify ... *)
| NoSplits                         (* No splits returned from API *)
| ParseError (e : exn).            (* Error parsing split response: ... *)

Local Open Scope res_scope.

(** The [try] block that looks for user errors, before its [except]. *)
Definition split_user_errors (split_data : pyval) : res pyval :=
  do has_data <- py_contains "data" split_data;
  if negb has_data then Ok (PList [])
  else
    do data <- py_index split_data "data";
    do split <- py_index data "fulfillmentOrderSplit";
    if negb (truthy split) then Ok (PList [])
    else
      do data1 <- py_index split_data "data";
      do split1 <- py_index data1 "fulfillmentOrderSplit";
      do errs <- py_index split1 "userErrors";
      if negb (truthy errs) then Ok (PList [])
      else
        do data2 <- py_index split_data "data";
        do split2 <- py_index data2 "fulfillmentOrderSplit";
        py_index split2 "userErrors".

(** [splits[0]] for a truthy [splits]: an empty list or string is not
    truthy, so there is a first element whenever there are elements. *)
Definition first_split (splits : pyval) : res pyval :=
  match splits with
  | PList (s :: _) => Ok s
  | PStr (String c _) => Ok (PStr (String c EmptyString))
  | PDict _ => Raise KeyError
  | _ => Raise TypeError
  end.

(** [splits[0].get(key, {}).get('id')]. *)
Definition order_id_under (splits : pyval) (key : string) : res pyval :=
  do s <- first_split splits;
  do fo <- py_get s key (PDict []);
  py_get fo "id" PNone.

(** [new_id = splits[0][key]['id']] and
    [new_status = splits[0][key].get('status', 'UNKNOWN')]. *)
Definition order_under (splits : pyval) (key : string) : res (pyval * pyval) :=
  do s <- first_split splits;
  do fo <- py_index s key;
  do new_id <- py_index fo "id";
  do s' <- first_split splits;
  do fo' <- py_index s' key;
  do new_status <- py_get fo' "status" (PStr "UNKNOWN");
  Ok (new_id, new_status).

(** The body of the last [try], before its [except]. *)
Definition new_order (split_data : pyval) : res (pyval * status) :=
  do data <- py_index split_data "data";
  do split <- py_index data "fulfillmentOrderSplit";
  do splits <- py_index split "fulfillmentOrderSplits";
  if truthy splits then
    do remaining_id <- order_id_under splits "remainingFulfillmentOrder";
    do found <-
      (if truthy remaining_id then
         do o <- order_under splits "remainingFulfillmentOrder"; Ok (Some o)
       else
         do other_id <- order_id_under splits "fulfillmentOrder";
         if truthy other_id then
           do o <- order_under splits "fulfillmentOrder"; Ok (Some o)
         else Ok None);
    match found with
    | Some (new_id, new_status) =>
        if truthy new_id then Ok (new_id, OrderStatus new_status)
        else Ok (PNone, NotIdentified)
    | None => Ok (PNone, NotIdentified)
    end
  else Ok (PNone, NoSplits).

(** [split_data] is what [send_request_with_retry(split_mutation)]
    returned. The result is the pair returned, or the exception that
    leaves the function. *)
Definition split_fulfillment_order (split_data : option pydict) : res (pyval * status) :=
  let split_data := result_value split_data in
  if negb (truthy split_data) then Ok (PNone, NoResponse)
  else
    do has_errors <- py_contains "errors" split_data;
    if has_errors then
      do errors <- py_index split_data "errors";
      Ok (PNone, GraphQLErrors errors)
    else
      do user_errors <-
        match split_user_errors split_data with
        | Ok v => Ok v
        | Raise KeyError => Ok (PList [])
        | Raise TypeError => Ok (PList [])
        | Raise e => Raise e
        end;
      if truthy user_errors then Ok (PNone, UserErrors user_errors)
      else
        match new_order split_data with
        | Ok r => Ok r
        | Raise KeyError => Ok (PNone, ParseError KeyError)
        | Raise TypeError => Ok (PNone, ParseError TypeError)
        | Raise e => Raise e
        end.

End Splitter.

(** The response of a split mutation that holds the given splits and no
    user errors. *)
Definition split_response_of (splits : pyval) : pydict :=
  [("data", PDict
      [("fulfillmentOrderSplit", PDict
          [("fulfillmentOrderSplits", splits); ("userErrors", PList [])])])].

(** One entry of [fulfillmentOrderSplits]. *)
Definition split_entry (fulfillment_order remaining : pyval) : pyval :=
  PDict [("fulfillmentOrder", fulfillment_order);
         ("remainingFulfillmentOrder", remaining)].

(** An order of the response, with its id and status. *)
Definition order_entry (id st : pyval) : pyval :=
  PDict [("id", id); ("status", st)].

(** The response of a split mutation lists the user errors [errs]. *)
Definition reports_split_errors (d : pydict) (errs : pyval) : Prop :=
  exists data split,
    dict_lookup "data" d = Some (PDict data)
    /\ dict_lookup "fulfillmentOrderSplit" data = Some (PDict split)
    /\ dict_lookup "userErrors" split = Some errs
    /\ truthy errs = true.

(* ===================================================================== *)
(** * Reading the log of a whole run                                      *)
(* ===================================================================== *)

(** A call of a run for the order [order_id] and the fulfillment order
    [fo]: a tag goes to the gid of the order, which is not empty; a split
    or a fetch goes to [fo], and a split sends at least one item; a sleep
    lasts one, two or three seconds. *)
Definition addressed (order_id : option string) (fo : string) (e : event) : Prop :=
  match e with
  | TagCall gid _ _ => exists oid, order_id = Some oid /\ oid <> "" /\ gid = order_gid oid
  | SplitCall fo' sent _ => fo' = fo /\ sent <> []
  | FetchCall fo' _ => fo' = fo
  | SleepCall ms => (ms = 1000 \/ ms = 2000 \/ ms = 3000)%Z
  end.

(** The exception a call raised, if it raised. *)
Definition raised_by (e : event) : option exn :=
  match e with
  | SplitCall _ _ (Raise x) => Some x
  | FetchCall _ (Raise x) => Some x
  | _ => None
  end.

(** A call that came back without what the run needs: a split without a
    new order id, a fetch without details, or either one raising. *)
Definition ends_run (e : event) : bool :=
  match e with
  | SplitCall _ _ (Ok (new_id, _)) => negb (id_truthy new_id)
  | SplitCall _ _ (Raise _) => true
  | FetchCall _ (Ok None) => true
  | FetchCall _ (Raise _) => true
  | _ => false
  end.

(** No call of the log ends the run. *)
Definition smooth (ev : list event) : Prop :=
  Forall (fun e => ends_run e = false) ev.

(** The log is smooth up to a call that ends the run without raising,
    and only sleeps follow it. *)
Definition halted (ev : list event) : Prop :=
  exists before e after,
    ev = before ++ e :: after
    /\ smooth before /\ ends_run e = true /\ raised_by e = None
    /\ Forall (fun e => is_sleep e = true) after.

(** The log is smooth up to its last call, which raised [x]. *)
Definition broken (x : exn) (ev : list event) : Prop :=
  exists before e, ev = before ++ [e] /\ smooth before /\ raised_by e = Some x.

(** How a part of the run that started with the results [r] ended. *)
Definition settled (r : results) : post results :=
  fun out ev =>
    match out with
    | Ok r' =>
        (smooth ev /\ success r' = success r /\ error r' = error r)
        \/ (halted ev /\ success r' = false /\ exists msg, error r' = Some msg)
    | Raise x => broken x ev
    end.

Definition settled_step (r : results) : post (results + results * option order_details) :=
  fun out ev =>
    match out with
    | Ok (inl r') => halted ev /\ success r' = false /\ exists msg, error r' = Some msg
    | Ok (inr (r', _)) => smooth ev /\ success r' = success r /\ error r' = error r
    | Raise x => broken x ev
    end.

(* ===================================================================== *)
(** * lambda_handler: reading the request and counting the items          *)
(* ===================================================================== *)

Module Handler.

(** The two requests answered with status 400. *)
Inductive bad_request : Type :=
| NoRequestBody              (* No request body found *)
| NoFulfillmentOrderId.      (* FulfillmentOrderId is required *)

Local Open Scope res_scope.

(** The value under the first of [keys] that is [in body], [None] when
    there is none: the [if ... elif ...] chains of the handler. *)
Fixpoint first_key (body : pyval) (keys : list string) : res pyval :=
  match keys with
  | [] => Ok PNone
  | k :: rest =>
      do has <- py_contains k body;
      if has then py_index body k else first_key body rest
  end.

(** [fulfillment_order_id] after the [startswith] check. *)
Definition fulfillment_order_gid (fulfillment_order_id : pyval) : res string :=
  match fulfillment_order_id with
  | PStr s =>
      Ok (if String.prefix "gid://" s then s
          else "gid://shopify/FulfillmentOrder/" +:+ s)
  | _ => Raise AttributeError
  end.

Section WithJson.
(** [json.loads]. *)
Variable json_loads : pyval -> res pyval.

(** [body], from an API Gateway event or a direct invocation. *)
Definition request_body (event : pyval) : res pyval :=
  match event with
  | PDict d =>
      if dict_has "body" d then
        do b <- py_index event "body";
        match b with
        | PStr _ => json_loads b
        | _ => Ok b
        end
      else Ok event
  | _ => Ok PNone
  end.

(** The handler up to the call of [get_fulfillment_order_details]: the
    400 response it returns, or the order id and the fulfillment order
    gid it goes on with. An exception raised here is caught by the
    handler's [except Exception]. *)
Definition read_request (event : pyval) : res (bad_request + pyval * string) :=
  do body <- request_body event;
  if negb (truthy body) then Ok (inl NoRequestBody)
  else
    do order_id <- first_key body ["OrderId"; "orderId"];
    do fulfillment_order_id <-
      first_key body ["FulfillmentOrderId"; "fulfillmentOrderId"; "id"];
    if negb (truthy fulfillment_order_id) then Ok (inl NoFulfillmentOrderId)
    else
      do gid <- fulfillment_order_gid fulfillment_order_id;
      Ok (inr (order_id, gid)).
End WithJson.

(** The [item_categories] of the response. *)
Record item_categories : Type := {
  length_items_count : nat;
  non_length_items_count : nat;
  items_at_rooftopshop : nat;
  items_at_external : nat
}.

(** [categories] is the dict the decision tree was called with, as it is
    after the call. *)
Definition count_items (c : buckets) : item_categories :=
  {| length_items_count := length (length_rooftopshop c) + length (length_external c);
     non_length_items_count :=
       length (non_length_rooftopshop c) + length (non_length_external c);
     items_at_rooftopshop :=
       length (length_rooftopshop c) + length (non_length_rooftopshop c);
     items_at_external := length (length_external c) + length (non_length_external c) |}.

End Handler.

(** Everything a run may send to a split: the length items and coupling
    pieces at home, and the external items. *)
Definition split_candidates (c : buckets) : list split_item :=
  map to_split (length_rooftopshop c ++ daktrim_koppelstukje_rooftopshop c)
  ++ external_candidates c.

(** The last line item of a list that carries the id [i]. *)
Definition last_with_id (i : string) (l : list line_item) : option line_item :=
  List.find (fun item => String.eqb (fulfillment_order_line_item_id item) i) (rev l).

(* ===================================================================== *)
(** * The decision tree for whatever the handler read as order id         *)
(* ===================================================================== *)

(** The handler passes on the [OrderId] of the request without looking
    at its type. The tree above takes it as [None] or text; here it is any
    value, and a tag site is what the source has:
    [if order_id and add_tag_to_order(order_id, tag)], with
    [order_id.startswith] inside [add_tag_to_order]. Everything else is
    the tree above, line by line. *)
Module AnyId.

(** An order id that is [None] or text, as a value. *)
Definition id_value (order_id : option string) : pyval :=
  match order_id with
  | Some s => PStr s
  | None => PNone
  end.

(** The text of an order id, if it is text. *)
Definition text_of (order_id : pyval) : option string :=
  match order_id with
  | PStr s => Some s
  | _ => None
  end.

(** A truthy order id that is not text: a number other than zero, [True],
    a list or an object that is not empty. *)
Definition not_text (order_id : pyval) : Prop :=
  truthy order_id = true /\ forall s, order_id <> PStr s.

Section Tree.
Variable rm : remote.

Local Open Scope tree_scope.

Definition add_tag_to_order (order_id : pyval) (tag : string) : M bool :=
  if negb (truthy order_id) then ret false
  else
    match order_id with
    | PStr oid =>
        fun log =>
          let result := tag_reply rm (count is_tag log) in
          (tag_result_ok (result_value result),
           log ++ [TagCall (order_gid oid) tag result])
    | _ => lift (Raise AttributeError)
    end.

Definition tag_order (order_id : pyval) (tag : string) (r : results) : M results :=
  if truthy order_id then
    ok <~ add_tag_to_order order_id tag ;;
    ret (if ok then append_tag r tag else r)
  else ret r.

Definition pre_step (order_id : pyval) (c : categories) (r : results) : M results :=
  r1 <~ (if has_length_items (summary c) && (length (length_external c) =? 0)%nat
         then tag_order order_id "daktrimFulfillment" r
         else ret r) ;;
  if (0 <? length (length_external c))%nat || (0 <? length (non_length_external c))%nat then
    let ext := external_location_set (length_external c ++ non_length_external c) in
    if (size ext =? 1)%nat
       && (length (length_rooftopshop c) + length (non_length_rooftopshop c)
           + length (daktrim_koppelstukje_rooftopshop c) =? 0)%nat
    then
      match elements ext with
      | loc :: _ => tag_order order_id (get_location_tag loc) r1
      | [] => ret r1
      end
    else ret r1
  else ret r1.

Fixpoint split_groups (msgs : loop_messages) (order_id : pyval) (fo_id : string)
    (groups : location_groups) (r : results) : M results :=
  match groups with
  | [] => ret r
  | (loc, its) :: rest =>
      if negb (nonempty its) then split_groups msgs order_id fo_id rest r
      else
        reply <~ split_fulfillment_order rm fo_id its ;;
        let '(new_id, st) := reply in
        _ <~ sleep 3000 ;;
        if id_truthy new_id then
          let r1 := append_split r
            {| type := "external_" +:+ loc;
               new_fulfillment_order_id := default "" new_id;
               split_status := st;
               items := its;
               location := Some loc |} in
          r2 <~ tag_order order_id (get_location_tag loc) r1 ;;
          _ <~ sleep 1000 ;;
          fulfillment_details <~ get_fulfillment_order_details rm fo_id ;;
          match fulfillment_details with
          | None => ret (failed r2 (refetch_failed msgs +:+ loc))
          | Some _ => split_groups msgs order_id fo_id rest r2
          end
        else ret (failed r (split_failed msgs +:+ loc +:+ ": " +:+ st))
  end.

Definition split_length_rooftopshop (order_id : pyval) (fo_id : string)
    (c : categories) (r : results) : M (results + results * option order_details) :=
  if nonempty (length_rooftopshop c) then
    let combined_items :=
      map to_split (length_rooftopshop c)
      ++ (if nonempty (daktrim_koppelstukje_rooftopshop c)
          then map to_split (daktrim_koppelstukje_rooftopshop c) else []) in
    reply <~ split_fulfillment_order rm fo_id combined_items ;;
    let '(new_id, st) := reply in
    if id_truthy new_id then
      let r1 := append_split r
        {| type := "length_rooftopshop_with_koppelstukje";
           new_fulfillment_order_id := default "" new_id;
           split_status := st;
           items := combined_items;
           location := None |} in
      r2 <~ tag_order order_id "daktrimFulfillment" r1 ;;
      _ <~ sleep 2000 ;;
      fulfillment_details <~ get_fulfillment_order_details rm fo_id ;;
      match fulfillment_details with
      | None =>
          ret (inl (failed r2
            "Failed to get updated fulfillment order details after splitting length items at Rooftopshop"))
      | Some d => ret (inr (r2, Some d))
      end
    else ret (inl (failed r ("Failed to split length items at Rooftopshop: " +:+ st)))
  else ret (inr (r, None)).

Definition length_branch (order_id : pyval) (fo_id : string)
    (c : categories) (r : results) : M results :=
  step1 <~ split_length_rooftopshop order_id fo_id c r ;;
  match step1 with
  | inl r' => ret r'
  | inr (r', fulfillment_details) =>
      if negb (all_items_at_rooftopshop (summary c)) then
        fetched <~ match fulfillment_details with
                   | Some d => ret (Some d)
                   | None => get_fulfillment_order_details rm fo_id
                   end ;;
        match fetched with
        | None =>
            ret (failed r'
              "Failed to get fulfillment order details before splitting external items")
        | Some d =>
            let remaining := remaining_line_items d in
            let groups :=
              group_remaining remaining (non_length_external c)
                (group_remaining remaining (length_external c) []) in
            split_groups length_branch_messages order_id fo_id groups r'
        end
      else ret r'
  end.

Definition no_length_branch (order_id : pyval) (fo_id : string)
    (c : categories) (r : results) : M results :=
  if all_non_length_at_rooftopshop (summary c) then ret r
  else
    fulfillment_details <~ get_fulfillment_order_details rm fo_id ;;
    match fulfillment_details with
    | None =>
        ret (failed r
          "Failed to get fulfillment order details before splitting external non-length items")
    | Some d =>
        let remaining := remaining_line_items d in
        let groups := group_remaining remaining (non_length_external c) [] in
        split_groups no_length_branch_messages order_id fo_id groups r
    end.

Definition process_fulfillment_according_to_decision_tree
    (order_id : pyval) (fo_id : string) (c : categories) : M (results * categories) :=
  r <~ pre_step order_id c initial_results ;;
  if has_length_items (summary c) then
    r' <~ length_branch order_id fo_id c r ;;
    ret (r', c)
  else
    let c' := fold_koppelstukje c in
    r' <~ no_length_branch order_id fo_id c' r ;;
    ret (r', c').

(** One run from an empty log. *)
Definition run (order_id : pyval) (fo_id : string) (c : categories)
  : res (results * categories) * list event :=
  process_fulfillment_according_to_decision_tree order_id fo_id c [].
End Tree.

End AnyId.

(** Two computations do the same from every log. *)
Definition same_run {A} (m1 m2 : M A) : Prop := forall log, m1 log = m2 log.

(** How a part of a run ended, for any order id: as [settled] says, or
    with the [AttributeError] of a tag site reached with an order id that
    is truthy and not text, no call before having been refused. *)
Definition settled_any (order_id : pyval) (r : results) : post results :=
  fun out ev =>
    match out with
    | Ok r' => settled r (Ok r') ev
    | Raise x => broken x ev \/ (x = AttributeError /\ smooth ev /\ AnyId.not_text order_id)
    end.

Definition settled_any_step (order_id : pyval) (r : results)
  : post (results + results * option order_details) :=
  fun out ev =>
    match out with
    | Ok step => settled_step r (Ok step) ev
    | Raise x => broken x ev \/ (x = AttributeError /\ smooth ev /\ AnyId.not_text order_id)
    end.

(** A plain item at Compri Aluminium and one at Redfox EPDM. *)
Definition compri_and_redfox : order_details :=
  order_of
    [item_of "gid://shopify/FulfillmentOrderLineItem/1" 1 ["Compri Aluminium"] false false;
     redfox_item].
(* ===================================================================== *)
(** * Properties of send_request_with_retry                               *)
(* ===================================================================== *)

Lemma backoff_number (max_retries delay : Z) (attempt : nat) :
  Post attempt :: backoff max_retries delay attempt
  = if (Z.of_nat attempt + 1 <? max_retries)%Z
    then [Post attempt; Sleep (1000 * (delay * (Z.of_nat attempt + 1)))]
    else [Post attempt].
Proof.
  unfold backoff.
  destruct (Z.ltb_spec (Z.of_nat attempt) (max_retries - 1));
    destruct (Z.ltb_spec (Z.of_nat attempt + 1) max_retries); try lia; reflexivity.
Qed.

Lemma attempts_from_failed http max_retries delay n from :
  (forall k, (from <= k < from + n)%nat -> attempt_failed (http k) = true) ->
  attempts_from http max_retries delay n from
  = (None, failed_attempts max_retries delay from n).
Proof.
  revert from. induction n as [|n IH]; intros from Hall; [reflexivity|].
  cbn [attempts_from failed_attempts].
  assert (Hf : attempt_failed (http from) = true) by (apply Hall; lia).
  rewrite (IH (S from)) by (intros k Hk; apply Hall; lia).
  rewrite <- backoff_number.
  destruct (http from) as [|code body]; [reflexivity|].
  cbn in Hf. destruct (code =? 200)%Z; [discriminate|reflexivity].
Qed.

Lemma attempts_from_answered http max_retries delay n from k body :
  (from <= k < from + n)%nat ->
  (forall j, (from <= j < k)%nat -> attempt_failed (http j) = true) ->
  http k = Response 200 body ->
  attempts_from http max_retries delay n from
  = (Some body, failed_attempts max_retries delay from (k - from) ++ [Post k; Sleep 500]).
Proof.
  revert from. induction n as [|n IH]; intros from Hk Hbefore Hat; [lia|].
  cbn [attempts_from].
  destruct (Nat.eq_dec from k) as [->|Hne].
  - rewrite Hat, Nat.sub_diag. reflexivity.
  - assert (Hf : attempt_failed (http from) = true) by (apply Hbefore; lia).
    rewrite (IH (S from)) by first [lia | assumption | intros j Hj; apply Hbefore; lia].
    replace (k - from)%nat with (S (k - S from)) by lia.
    cbn [failed_attempts]. rewrite <- backoff_number, <- app_assoc.
    destruct (http from) as [|code body']; [reflexivity|].
    cbn in Hf. destruct (code =? 200)%Z; [discriminate|reflexivity].
Qed.

(** Among the attempts [from, from + n) either all fail or there is a
    first one that is answered with status 200. *)
Lemma first_answer http n from :
  (forall k, (from <= k < from + n)%nat -> attempt_failed (http k) = true)
  \/ exists k body, (from <= k < from + n)%nat
       /\ (forall j, (from <= j < k)%nat -> attempt_failed (http j) = true)
       /\ http k = Response 200 body.
Proof.
  revert from. induction n as [|n IH]; intros from; [left; intros; lia|].
  destruct (attempt_failed (http from)) eqn:Hf.
  - destruct (IH (S from)) as [Hall | (k & body & Hk & Hbefore & Hat)].
    + left. intros k Hk. destruct (Nat.eq_dec k from) as [->|]; [assumption|apply Hall; lia].
    + right. exists k, body. split; [lia|]. split; [|assumption].
      intros j Hj. destruct (Nat.eq_dec j from) as [->|]; [assumption|apply Hbefore; lia].
  - right. destruct (http from) as [|code body] eqn:Hat; [discriminate|].
    cbn in Hf. apply negb_false_iff, Z.eqb_eq in Hf. subst code.
    exists from, body. split; [lia|]. split; [intros; lia|exact Hat].
Qed.

(** C6. The executor makes at most [max_retries] attempts; after a failed
    attempt (an exception or a status other than 200) it waits the base
    delay times the attempt number, except after the last attempt allowed;
    it returns [None] exactly when every allowed attempt failed, and
    otherwise the body of the first attempt answered with 200. With the
    defaults, three failures give the waits 2 s and 4 s and then [None]. *)
Theorem send_request_with_retry_backoff (http : nat -> attempt_outcome) (max_retries delay : Z) :
  let n := Z.to_nat max_retries in
  let '(result, trace) := send_request_with_retry http max_retries delay in
  (result = None <-> forall k, (k < n)%nat -> attempt_failed (http k) = true)
  /\ (result = None -> trace = failed_attempts max_retries delay 0 n)
  /\ (forall body, result = Some body ->
        exists k, (k < n)%nat
          /\ (forall j, (j < k)%nat -> attempt_failed (http j) = true)
          /\ http k = Response 200 body
          /\ trace = failed_attempts max_retries delay 0 k ++ [Post k; Sleep 500])
  /\ ((forall k, (k < 3)%nat -> attempt_failed (http k) = true) ->
        send_request_with_retry_default http
        = (None, [Post 0; Sleep 2000; Post 1; Sleep 4000; Post 2])).
Proof.
  intros n. unfold send_request_with_retry_default, send_request_with_retry. fold n.
  assert (Hdefault : (forall k, (k < 3)%nat -> attempt_failed (http k) = true) ->
            attempts_from http 3 2 (Z.to_nat 3) 0
            = (None, [Post 0; Sleep 2000; Post 1; Sleep 4000; Post 2])).
  { intros Hall. rewrite attempts_from_failed; [reflexivity|].
    intros k Hk. apply Hall. change (Z.to_nat 3) with 3%nat in Hk. lia. }
  destruct (first_answer http n 0) as [Hall | (k & body & Hk & Hbefore & Hat)].
  - rewrite (attempts_from_failed http max_retries delay n 0 Hall).
    repeat split; try assumption; try discriminate.
    intros _ k Hk. apply Hall. lia.
  - rewrite (attempts_from_answered http max_retries delay n 0 k body Hk Hbefore Hat).
    rewrite Nat.sub_0_r.
    split; [|split; [|split]]; try assumption; try discriminate.
    + split; [discriminate|]. intros Hall.
      specialize (Hall k ltac:(lia)). rewrite Hat in Hall. discriminate.
    + intros body' [= <-]. exists k. repeat split; try lia; try assumption.
      intros j Hj. apply Hbefore. lia.
Qed.

(** Two refused connections, then an answer: two waits of 2 s and 4 s,
    the answer's body, the pause of half a second. *)
Lemma send_request_with_retry_backoff_witness :
  send_request_with_retry_default
    (fun k => if (k <? 2)%nat then RequestException else Response 200 [("data", PNone)])
  = (Some [("data", PNone)], [Post 0; Sleep 2000; Post 1; Sleep 4000; Post 2; Sleep 500])
  /\ send_request_with_retry_default (fun _ => Response 502 [])
     = (None, [Post 0; Sleep 2000; Post 1; Sleep 4000; Post 2]).
Proof.
  split; [reflexivity|].
  pose proof (send_request_with_retry_backoff (fun _ => Response 502 []) 3 2) as H.
  cbv zeta in H.
  destruct (send_request_with_retry (fun _ => Response 502 []) 3 2) as [result trace].
  destruct H as (_ & _ & _ & Hdefault).
  apply Hdefault. intros k _. reflexivity.
Defined.

(* ===================================================================== *)
(** * Properties of the fetcher                                           *)
(* ===================================================================== *)

(** C4. With no response from the executor the fetcher does not return
    [None]: the test ['errors' in result] that chooses the log line is
    made on [None] and raises [TypeError]. In the other two failure cases
    (an [errors] key, or no order under [data]) it returns [None]. *)
Theorem get_fulfillment_order_details_failures
    (json_loads : pyval -> res pyval) (fo_id : string) :
  Fetcher.get_fulfillment_order_details json_loads fo_id None = Raise TypeError
  /\ (forall d, dict_has "errors" d = true ->
        Fetcher.get_fulfillment_order_details json_loads fo_id (Some d) = Ok None)
  /\ (forall d, order_missing d ->
        Fetcher.get_fulfillment_order_details json_loads fo_id (Some d) = Ok None).
Proof.
  split; [reflexivity|]. split.
  - intros d Herr. unfold Fetcher.get_fulfillment_order_details, Fetcher.fetch_failed.
    destruct d as [|kv d]; [discriminate|].
    cbn [result_value truthy negb py_contains res_bind]. rewrite Herr. reflexivity.
  - intros d (Hne & Herr & Hdata).
    unfold Fetcher.get_fulfillment_order_details, Fetcher.fetch_failed.
    destruct d as [|kv d]; [congruence|].
    cbn [result_value truthy negb py_contains res_bind py_get]. rewrite Herr.
    destruct Hdata as [Hnone | (data & Hsome & Hfo)].
    + rewrite Hnone. reflexivity.
    + rewrite Hsome. cbn [res_bind py_get].
      destruct (dict_lookup "fulfillmentOrder" data) as [fo|].
      * cbn. rewrite Hfo. reflexivity.
      * reflexivity.
Qed.

(** The three cases on small responses. *)
Lemma get_fulfillment_order_details_failures_witness :
  Fetcher.get_fulfillment_order_details Json.loads "gid://shopify/FulfillmentOrder/1" None
  = Raise TypeError
  /\ Fetcher.get_fulfillment_order_details Json.loads "gid://shopify/FulfillmentOrder/1"
       (Some [("errors", PList [PStr "Throttled"])]) = Ok None
  /\ Fetcher.get_fulfillment_order_details Json.loads "gid://shopify/FulfillmentOrder/1"
       (Some [("data", PDict [("fulfillmentOrder", PNone)])]) = Ok None.
Proof.
  destruct (get_fulfillment_order_details_failures Json.loads
              "gid://shopify/FulfillmentOrder/1") as (Hnone & Herrors & Hmissing).
  split; [exact Hnone|]. split.
  - apply Herrors. reflexivity.
  - apply Hmissing. split; [discriminate|]. split; [reflexivity|].
    right. exists [("fulfillmentOrder", PNone)]. split; reflexivity.
Defined.

Lemma metafield_step_dict json_loads acc (m : pydict) :
  exists acc', Fetcher.metafield_step json_loads acc (PDict m) = Ok acc'.
Proof.
  destruct acc as [[locs lt] dk]. unfold Fetcher.metafield_step.
  cbn [py_get res_bind].
  repeat match goal with |- context [if ?b then _ else _] => destruct b end; eauto.
Qed.

Lemma fold_metafields_dicts json_loads (ms : list pydict) acc :
  exists acc', Fetcher.fold_res (Fetcher.metafield_step json_loads) (map PDict ms) acc = Ok acc'.
Proof.
  revert acc. induction ms as [|m ms IH]; intros acc; cbn [map Fetcher.fold_res]; [eauto|].
  destruct (metafield_step_dict json_loads acc m) as [acc' ->]. cbn [res_bind]. apply IH.
Qed.

Lemma parse_edge_of json_loads folid lid nm sk qty ms :
  exists locs lt dk,
    Fetcher.parse_edge json_loads (edge_of folid lid nm sk qty ms)
    = Ok {| Fetcher.fulfillment_order_line_item_id := folid;
            Fetcher.line_item_id := lid;
            Fetcher.name := nm;
            Fetcher.sku := sk;
            Fetcher.quantity := qty;
            Fetcher.available_locations := locs;
            Fetcher.is_length_transport := lt;
            Fetcher.is_daktrim_koppelstukje := dk |}.
Proof.
  unfold Fetcher.parse_edge, edge_of. cbn [py_index py_get dict_lookup String.eqb Ascii.eqb Bool.eqb res_bind].
  destruct ms as [|m ms].
  - cbn. eauto.
  - cbn [map truthy py_iter res_bind].
    destruct (fold_metafields_dicts json_loads (m :: ms) ([], false, false)) as [[[locs lt] dk] Hfold].
    cbn [map] in Hfold. rewrite Hfold. cbn. eauto.
Qed.

(** A response whose edges all have the shape of [edge_of] gives details
    with one line item per edge, whatever the metafields hold. *)
Lemma map_parse_edges json_loads (es : list (pyval * pyval * pyval * pyval * pyval * list pydict)) :
  exists its,
    Fetcher.map_res (Fetcher.parse_edge json_loads)
      (map (fun '(folid, lid, nm, sk, qty, ms) => edge_of folid lid nm sk qty ms) es) = Ok its
    /\ map Fetcher.fulfillment_order_line_item_id its
       = map (fun '(folid, _, _, _, _, _) => folid) es.
Proof.
  induction es as [|[[[[[folid lid] nm] sk] qty] ms] es (its & Hits & Hids)];
    cbn [map Fetcher.map_res].
  - exists []. split; reflexivity.
  - destruct (parse_edge_of json_loads folid lid nm sk qty ms) as (locs & lt & dk & ->).
    cbn [res_bind]. rewrite Hits. cbn [res_bind]. eexists. split; [reflexivity|].
    cbn [map Fetcher.fulfillment_order_line_item_id]. rewrite Hids. reflexivity.
Qed.

(** C7, as the code has it. The location list is the decoded value when
    that is a list; when decoding raises, the list is empty whatever the
    raw value; when the decoded value is not a list, the list is empty if
    the decoded value is falsy and holds the decoded value alone
    otherwise. None of this makes the fetch fail: a response with
    well-shaped edges gives one line item per edge whatever the metafields
    hold, and an item whose only metafield is an undecodable
    [availability_location] comes back with no location. *)
Theorem availability_location_normalised (json_loads : pyval -> res pyval) (value : pyval) :
  let locs := Fetcher.parse_availability_location json_loads value in
  (forall e, json_loads value = Raise e -> locs = [])
  /\ (forall l, json_loads value = Ok (PList l) -> locs = l)
  /\ (forall v, json_loads value = Ok v -> (forall l, v <> PList l) ->
        locs = if truthy v then [v] else [])
  /\ (forall fo_id st es,
        exists its,
          Fetcher.get_fulfillment_order_details json_loads fo_id
            (Some (response_of st
               (map (fun '(folid, lid, nm, sk, qty, ms) => edge_of folid lid nm sk qty ms) es)))
          = Ok (Some {| Fetcher.fulfillment_order_id := fo_id;
                        Fetcher.status := st;
                        Fetcher.line_items := its |})
          /\ map Fetcher.fulfillment_order_line_item_id its
             = map (fun '(folid, _, _, _, _, _) => folid) es)
  /\ (forall fo_id st folid lid nm sk qty,
        Fetcher.get_fulfillment_order_details json_loads fo_id
          (Some (response_of st [edge_of folid lid nm sk qty [availability_metafield value]]))
        = Ok (Some {| Fetcher.fulfillment_order_id := fo_id;
                      Fetcher.status := st;
                      Fetcher.line_items :=
                        [{| Fetcher.fulfillment_order_line_item_id := folid;
                            Fetcher.line_item_id := lid;
                            Fetcher.name := nm;
                            Fetcher.sku := sk;
                            Fetcher.quantity := qty;
                            Fetcher.available_locations := locs;
                            Fetcher.is_length_transport := false;
                            Fetcher.is_daktrim_koppelstukje := false |}] |})).
Proof.
  cbv zeta. unfold Fetcher.parse_availability_location.
  split; [|split; [|split; [|split]]].
  - intros e ->. reflexivity.
  - intros l ->. reflexivity.
  - intros v -> Hnl. destruct v; try reflexivity. exfalso. eapply Hnl. reflexivity.
  - intros fo_id st es.
    destruct (map_parse_edges json_loads es) as (its & Hits & Hids).
    exists its. split; [|exact Hids].
    unfold Fetcher.get_fulfillment_order_details, Fetcher.fetch_failed,
      Fetcher.parse_details, response_of.
    cbn [result_value truthy negb py_contains dict_has dict_lookup String.eqb Ascii.eqb
         Bool.eqb res_bind py_get py_index].
    destruct es as [|e es].
    + cbn in Hits. injection Hits as <-. reflexivity.
    + cbn [map truthy negb py_iter res_bind] in *. rewrite Hits. reflexivity.
  - intros. reflexivity.
Qed.

(** A metafield holding a plain location name: decoding fails, the item
    comes back without location. A metafield holding a JSON list: the list. *)
Lemma availability_location_normalised_witness :
  Fetcher.parse_availability_location Json.loads (PStr "Compri Aluminium") = []
  /\ Fetcher.parse_availability_location Json.loads (PStr "[3, null]") = [PInt 3; PNone].
Proof.
  destruct (availability_location_normalised Json.loads (PStr "Compri Aluminium"))
    as (Hraise & _).
  destruct (availability_location_normalised Json.loads (PStr "[3, null]"))
    as (_ & Hlist & _).
  split.
  - apply (Hraise JSONDecodeError). vm_compute. reflexivity.
  - apply Hlist. vm_compute. reflexivity.
Defined.

(** C7 as stated fails: the raw value [Compri Aluminium] is not
    JSON and is truthy, yet the location list is empty, not the list with
    the raw value; the raw value [0] is truthy and decodes to a number,
    yet the list is empty as well. *)
Lemma availability_location_raw_fallback_fails :
  (Json.loads (PStr "Compri Aluminium") = Raise JSONDecodeError
   /\ truthy (PStr "Compri Aluminium") = true
   /\ Fetcher.parse_availability_location Json.loads (PStr "Compri Aluminium")
      <> [PStr "Compri Aluminium"])
  /\ (Json.loads (PStr "0") = Ok (PInt 0)
      /\ truthy (PStr "0") = true
      /\ Fetcher.parse_availability_location Json.loads (PStr "0") <> [PStr "0"]).
Proof.
  repeat split; try (vm_compute; reflexivity); vm_compute; discriminate.
Qed.

(* ===================================================================== *)
(** * Properties of categorize_items                                      *)
(* ===================================================================== *)

Lemma get_bucket_append key key' d c :
  get_bucket key (bucket_append key' d c)
  = if bool_decide (key' = key) then get_bucket key c ++ [d] else get_bucket key c.
Proof. destruct key, key'; reflexivity. Qed.

(** The loop leaves under each key what was there, followed by the
    details of the input items the cascade sends to that key, in input
    order. *)
Lemma categorize_loop key l c ext :
  get_bucket key (fst (fold_left categorize_step l (c, ext)))
  = get_bucket key c ++ map details_of (items_for key l).
Proof.
  revert c ext. induction l as [|item l IH]; intros c ext; cbn [fold_left items_for List.filter].
  - cbn. rewrite app_nil_r. reflexivity.
  - unfold categorize_step at 2. rewrite IH, get_bucket_append.
    fold (items_for key l).
    destruct (bool_decide (bucket_of item = key)); cbn [map].
    + rewrite <- app_assoc. reflexivity.
    + reflexivity.
Qed.

Lemma categorize_items_bucket key details :
  get_bucket key (categorize_items details)
  = map details_of (items_for key (line_items details)).
Proof.
  unfold categorize_items.
  pose proof (categorize_loop key (line_items details) empty_buckets ∅) as H.
  destruct (fold_left categorize_step (line_items details) (empty_buckets, ∅)) as [c ext].
  cbn [lists fst] in *. rewrite H. destruct key; reflexivity.
Qed.

Lemma items_for_lengths l :
  (length (items_for LengthRooftopshop l) + length (items_for NonLengthRooftopshop l)
   + length (items_for LengthExternal l) + length (items_for NonLengthExternal l)
   + length (items_for DaktrimKoppelstukjeRooftopshop l) = length l)%nat.
Proof.
  induction l as [|item l IH]; [reflexivity|].
  unfold items_for at 1 2 3 4 5. cbn [List.filter].
  unfold items_for in IH.
  destruct (bucket_of item); repeat case_bool_decide; try congruence; cbn [length]; lia.
Qed.

Lemma in_items_for key item l :
  In item (items_for key l) <-> In item l /\ bucket_of item = key.
Proof.
  unfold items_for. rewrite filter_In, bool_decide_eq_true. reflexivity.
Qed.

Lemma in_bucket_ids key details i :
  In i (bucket_ids key (categorize_items details)) ->
  exists item, In item (line_items details) /\ bucket_of item = key
               /\ fulfillment_order_line_item_id item = i.
Proof.
  unfold bucket_ids. rewrite categorize_items_bucket, map_map. cbn [details_of item_id].
  intros (item & Hid & Hin)%in_map_iff. apply in_items_for in Hin as [Hin Hb]. eauto.
Qed.

(** Items of a list without repeated ids are told apart by their id. *)
Lemma same_id_same_item (l : list line_item) a b :
  List.NoDup (map fulfillment_order_line_item_id l) ->
  In a l -> In b l ->
  fulfillment_order_line_item_id a = fulfillment_order_line_item_id b -> a = b.
Proof.
  induction l as [|x l IH]; cbn [map In]; [tauto|].
  intros Hnd [<-|Ha] [<-|Hb] Heq; inversion_clear Hnd as [|? ? Hnotin Hnd'].
  - reflexivity.
  - exfalso. apply Hnotin. rewrite Heq. apply in_map. assumption.
  - exfalso. apply Hnotin. rewrite <- Heq. apply in_map. assumption.
  - apply IH; assumption.
Qed.

(** An entry is filed under the key the cascade gives it. *)
Lemma in_bucket_details key details d :
  In d (get_bucket key (categorize_items details)) -> details_bucket d = key.
Proof.
  rewrite categorize_items_bucket.
  intros (item & <- & Hin)%in_map_iff. apply in_items_for in Hin as [_ Hb]. exact Hb.
Qed.

(** No id is filed under two keys when the line ids are pairwise
    distinct. *)
Lemma bucket_ids_disjoint details key key' i :
  List.NoDup (map fulfillment_order_line_item_id (line_items details)) ->
  In i (bucket_ids key (categorize_items details)) ->
  In i (bucket_ids key' (categorize_items details)) -> key = key'.
Proof.
  intros Hnd (a & Ha & <- & Hida)%in_bucket_ids (b & Hb & <- & Hidb)%in_bucket_ids.
  rewrite (same_id_same_item _ a b Hnd Ha Hb); congruence.
Qed.

(** C1. For every list of [N] line items the five buckets hold [N]
    entries in all, each bucket holding the details of exactly the input
    items the cascade sends to it, and no entry is filed under two keys. A
    coupling piece that is also a length item and is at home is filed
    under the coupling-piece key and not among the length items at home.
    Line ids identify the line items of an order, so they are pairwise
    distinct; then no id is filed under two keys, and the id of such a
    coupling piece is not among the ids of the length items at home. *)
Theorem categorize_items_partition (details : order_details) :
  let c := categorize_items details in
  (length (length_rooftopshop c) + length (non_length_rooftopshop c)
   + length (length_external c) + length (non_length_external c)
   + length (daktrim_koppelstukje_rooftopshop c) = length (line_items details))%nat
  /\ (forall key, get_bucket key c = map details_of (items_for key (line_items details)))
  /\ (forall key key' d, In d (get_bucket key c) -> In d (get_bucket key' c) -> key = key')
  /\ (forall item, In item (line_items details) ->
        is_daktrim_koppelstukje item = true -> is_length_transport item = true ->
        In home (available_locations item) ->
        In (details_of item) (daktrim_koppelstukje_rooftopshop c)
        /\ ~ In (details_of item) (length_rooftopshop c))
  /\ (List.NoDup (map fulfillment_order_line_item_id (line_items details)) ->
        (forall key key' i, In i (bucket_ids key c) -> In i (bucket_ids key' c) -> key = key')
        /\ (forall item, In item (line_items details) ->
              is_daktrim_koppelstukje item = true -> is_length_transport item = true ->
              In home (available_locations item) ->
              ~ In (fulfillment_order_line_item_id item) (bucket_ids LengthRooftopshop c))).
Proof.
  intros c. subst c.
  assert (Hkey : forall key, get_bucket key (categorize_items details)
                   = map details_of (items_for key (line_items details)))
    by (intros; apply categorize_items_bucket).
  assert (Hprec : forall item, is_daktrim_koppelstukje item = true ->
                    In home (available_locations item) ->
                    bucket_of item = DaktrimKoppelstukjeRooftopshop).
  { intros item Hdk Hhome. unfold bucket_of. rewrite Hdk. cbn [andb].
    replace (is_in home (available_locations item)) with true; [reflexivity|].
    symmetry. apply existsb_exists. exists home. split; [assumption|apply String.eqb_refl]. }
  split; [|split; [exact Hkey|split; [|split]]].
  - pose proof (items_for_lengths (line_items details)) as Hlen.
    rewrite <- (length_map details_of (items_for LengthRooftopshop _)),
            <- (length_map details_of (items_for NonLengthRooftopshop _)),
            <- (length_map details_of (items_for LengthExternal _)),
            <- (length_map details_of (items_for NonLengthExternal _)),
            <- (length_map details_of (items_for DaktrimKoppelstukjeRooftopshop _)),
            <- !Hkey in Hlen.
    exact Hlen.
  - intros key key' d H1%in_bucket_details H2%in_bucket_details. congruence.
  - intros item Hin Hdk Hlt Hhome. split.
    + change (daktrim_koppelstukje_rooftopshop (categorize_items details))
        with (get_bucket DaktrimKoppelstukjeRooftopshop (categorize_items details)).
      rewrite Hkey. apply in_map, in_items_for. split; [assumption|apply Hprec; assumption].
    + change (length_rooftopshop (categorize_items details))
        with (get_bucket LengthRooftopshop (categorize_items details)).
      intros H%in_bucket_details.
      change (details_bucket (details_of item)) with (bucket_of item) in H.
      rewrite (Hprec item Hdk Hhome) in H. discriminate.
  - intros Hnd. split.
    + intros key key' i. apply bucket_ids_disjoint, Hnd.
    + intros item Hin Hdk Hlt Hhome (b & Hinb & Hbb & Hidb)%in_bucket_ids.
      rewrite (same_id_same_item _ b item Hnd Hinb Hin Hidb) in Hbb.
      rewrite (Hprec item Hdk Hhome) in Hbb. discriminate.
Qed.

Ltac distinct_ids :=
  apply NoDup_ListNoDup, (bool_decide_unpack _); vm_compute; exact I.

(** The three-item order: three entries in all, and the coupling piece
    that is also a length item at home is a coupling piece for the
    classifier. *)
Lemma categorize_items_partition_witness :
  List.NoDup (map fulfillment_order_line_item_id (line_items three_items))
  /\ bucket_ids DaktrimKoppelstukjeRooftopshop (categorize_items three_items)
     = ["gid://shopify/FulfillmentOrderLineItem/1"]
  /\ ~ In "gid://shopify/FulfillmentOrderLineItem/1"
         (bucket_ids LengthRooftopshop (categorize_items three_items)).
Proof.
  assert (Hnd : List.NoDup (map fulfillment_order_line_item_id (line_items three_items)))
    by distinct_ids.
  split; [exact Hnd|]. split; [reflexivity|].
  destruct (categorize_items_partition three_items) as (_ & _ & _ & _ & Hids).
  destruct (Hids Hnd) as [_ Hprec].
  apply (Hprec (item_of "gid://shopify/FulfillmentOrderLineItem/1" 2 [home] true true)).
  - left. reflexivity.
  - reflexivity.
  - reflexivity.
  - left. reflexivity.
Defined.

(* ===================================================================== *)
(** * Properties of the grouping by location                              *)
(* ===================================================================== *)

Lemma group_at_append loc loc' x g :
  group_at loc (groups_append loc' x g)
  = if String.eqb loc loc' then group_at loc g ++ [x] else group_at loc g.
Proof.
  induction g as [|[l xs] g IH]; cbn [groups_append group_at].
  - destruct (String.eqb_spec loc loc'); reflexivity.
  - destruct (String.eqb_spec loc' l) as [->|Hne]; cbn [group_at].
    + destruct (String.eqb_spec loc l); reflexivity.
    + destruct (String.eqb_spec loc l) as [->|Hne'].
      * destruct (String.eqb_spec l loc'); [congruence|reflexivity].
      * exact IH.
Qed.

Lemma total_entries_append loc x g :
  total_entries (groups_append loc x g) = S (total_entries g).
Proof.
  unfold total_entries.
  induction g as [|[l xs] g IH]; cbn [groups_append flat_map snd]; [reflexivity|].
  destruct (String.eqb loc l); cbn [flat_map snd].
  - rewrite !length_app. cbn. lia.
  - rewrite !length_app, IH. lia.
Qed.

Lemma in_group_at_append loc loc' x y g :
  In y (group_at loc g) -> In y (group_at loc (groups_append loc' x g)).
Proof.
  rewrite group_at_append. destruct (String.eqb loc loc'); [|tauto].
  intros H. apply in_or_app. left. exact H.
Qed.

Lemma in_group_at_appended loc x g : In x (group_at loc (groups_append loc x g)).
Proof.
  rewrite group_at_append, String.eqb_refl. apply in_or_app. right. left. reflexivity.
Qed.

(** The loop with its [break] finds the first external location. *)
Lemma assign_first_external_spec x locs g :
  assign_first_external x locs g
  = match first_external locs with
    | Some l => (groups_append l x g, true)
    | None => (g, false)
    end.
Proof.
  induction locs as [|l locs IH]; cbn [assign_first_external first_external]; [reflexivity|].
  destruct (is_external l); [reflexivity|exact IH].
Qed.

Lemma group_step_spec g item :
  group_step g item = groups_append (group_name (locations item)) (to_split item) g.
Proof.
  unfold group_step, group_name. rewrite assign_first_external_spec.
  destruct (locations item) as [|l locs]; [reflexivity|].
  cbn [nonempty]. destruct (first_external (l :: locs)); reflexivity.
Qed.

Lemma group_remaining_step_spec remaining g item :
  group_remaining_step remaining g item
  = match remaining !! item_id item with
    | Some r =>
        if nonempty (available_locations r)
        then groups_append (group_name (available_locations r)) (to_split item) g
        else g
    | None => g
    end.
Proof.
  unfold group_remaining_step, group_name.
  destruct (remaining !! item_id item) as [r|]; [|reflexivity].
  rewrite assign_first_external_spec.
  destruct (available_locations r) as [|l locs]; [reflexivity|].
  cbn [nonempty]. destruct (first_external (l :: locs)); reflexivity.
Qed.

Lemma group_steps_keep y loc l g :
  In y (group_at loc g) -> In y (group_at loc (fold_left group_step l g)).
Proof.
  revert g. induction l as [|item l IH]; intros g H; cbn [fold_left]; [exact H|].
  apply IH. rewrite group_step_spec. apply in_group_at_append, H.
Qed.

Lemma group_steps_file l g item :
  In item l ->
  In (to_split item) (group_at (group_name (locations item)) (fold_left group_step l g)).
Proof.
  revert g. induction l as [|a l IH]; intros g; cbn [In fold_left]; [tauto|].
  intros [->|Hin]; [|apply IH, Hin].
  apply group_steps_keep. rewrite group_step_spec. apply in_group_at_appended.
Qed.

Lemma group_steps_total l g :
  total_entries (fold_left group_step l g) = (total_entries g + length l)%nat.
Proof.
  revert g. induction l as [|a l IH]; intros g; cbn [fold_left length]; [lia|].
  rewrite IH, group_step_spec, total_entries_append. lia.
Qed.

Lemma group_remaining_keep remaining y loc l g :
  In y (group_at loc g) -> In y (group_at loc (group_remaining remaining l g)).
Proof.
  unfold group_remaining. revert g.
  induction l as [|item l IH]; intros g H; cbn [fold_left]; [exact H|].
  apply IH. rewrite group_remaining_step_spec.
  destruct (remaining !! item_id item) as [r|]; [|exact H].
  destruct (nonempty (available_locations r)); [|exact H].
  apply in_group_at_append, H.
Qed.

Lemma group_remaining_file remaining l g item r :
  In item l -> remaining !! item_id item = Some r -> available_locations r <> [] ->
  In (to_split item)
     (group_at (group_name (available_locations r)) (group_remaining remaining l g)).
Proof.
  unfold group_remaining. revert g.
  induction l as [|a l IH]; intros g; cbn [In fold_left]; [tauto|].
  intros [->|Hin] Hr Hne; [|apply IH; assumption].
  apply (group_remaining_keep remaining). rewrite group_remaining_step_spec, Hr.
  destruct (available_locations r); [congruence|]. apply in_group_at_appended.
Qed.

Lemma group_remaining_total remaining l g :
  total_entries (group_remaining remaining l g)
  = (total_entries g + length (located_in remaining l))%nat.
Proof.
  unfold group_remaining, located_in. revert g.
  induction l as [|a l IH]; intros g; cbn [fold_left List.filter]; [cbn; lia|].
  rewrite IH, group_remaining_step_spec.
  destruct (remaining !! item_id a) as [r|]; [|lia].
  destruct (nonempty (available_locations r)); [|lia].
  rewrite total_entries_append. cbn [length]. lia.
Qed.

(** C2, as the code has it. [group_by_external_location] files every item
    once, under the first of its locations that is not the home warehouse
    and under [unknown] when the list has no such location, the empty list
    included. The grouping of the decision tree does the same for the
    candidates still in the snapshot, with the snapshot's locations,
    except that a candidate whose list is empty is filed nowhere: the
    groups hold one entry per candidate still in the snapshot with a
    non-empty list. *)
Theorem grouping_by_first_external_location :
  (forall items : list item_details,
     let g := group_by_external_location items in
     (forall item, In item items ->
        In (to_split item) (group_at (group_name (locations item)) g))
     /\ total_entries g = length items)
  /\ (forall (remaining : gmap string line_item) (items : list item_details),
        let g := group_remaining remaining items [] in
        (forall item r, In item items -> remaining !! item_id item = Some r ->
           available_locations r <> [] ->
           In (to_split item) (group_at (group_name (available_locations r)) g))
        /\ total_entries g = length (located_in remaining items))
  /\ group_name [] = "unknown"
  /\ group_name [home] = "unknown"
  /\ (forall l rest, l <> home -> group_name (l :: rest) = l)
  /\ (forall rest, group_name (home :: rest) = group_name rest).
Proof.
  split; [|split; [|split; [|split; [|split]]]].
  - intros items g. subst g. unfold group_by_external_location. split.
    + intros item Hin. apply group_steps_file, Hin.
    + rewrite group_steps_total. reflexivity.
  - intros remaining items g. subst g. split.
    + intros item r Hin Hr Hne. apply group_remaining_file; assumption.
    + rewrite group_remaining_total. reflexivity.
  - reflexivity.
  - reflexivity.
  - intros l rest Hne. unfold group_name. cbn [first_external]. unfold is_external.
    destruct (String.eqb_spec l home); [congruence|reflexivity].
  - intros rest. reflexivity.
Qed.

(** C2 as stated fails for the grouping of the decision tree: an item
    that is in the snapshot with an empty location list is not filed under
    [unknown]; no group is made at all. *)
Lemma tree_grouping_skips_item_without_location :
  let remaining := remaining_line_items (order_of [nowhere_item]) in
  let g := group_remaining remaining [details_of nowhere_item] [] in
  remaining !! item_id (details_of nowhere_item) = Some nowhere_item
  /\ available_locations nowhere_item = []
  /\ g = []
  /\ ~ In (to_split (details_of nowhere_item)) (group_at "unknown" g)
  /\ In (to_split (details_of nowhere_item))
        (group_at "unknown" (group_by_external_location [details_of nowhere_item])).
Proof.
  cbv zeta.
  assert (Hg : group_remaining (remaining_line_items (order_of [nowhere_item]))
                 [details_of nowhere_item] [] = []) by (vm_compute; reflexivity).
  rewrite Hg. split; [|split; [|split; [|split]]].
  - vm_compute. reflexivity.
  - reflexivity.
  - reflexivity.
  - intros [].
  - vm_compute. left. reflexivity.
Qed.

(* ===================================================================== *)
(** * Reasoning about computations of the decision tree                   *)
(* ===================================================================== *)

Lemma spec_ret {A} (a : A) (Q : post A) : Q (Ok a) [] -> spec (ret a) Q.
Proof. intros H log. exists (Ok a), []. rewrite app_nil_r. split; [reflexivity|exact H]. Qed.

Lemma spec_bind {A B} (m : M A) (k : A -> M B) (P : post A) (Q : post B) :
  spec m P ->
  (forall e ev, P (Raise e) ev -> Q (Raise e) ev) ->
  (forall a ev1, P (Ok a) ev1 -> spec (k a) (fun out ev2 => Q out (ev1 ++ ev2))) ->
  spec (bind m k) Q.
Proof.
  intros Hm Hraise Hk log. unfold bind.
  destruct (Hm log) as (out & ev1 & -> & HP).
  destruct out as [a|e].
  - destruct (Hk a ev1 HP (log ++ ev1)) as (out & ev2 & -> & HQ).
    exists out, (ev1 ++ ev2). rewrite app_assoc. split; [reflexivity|exact HQ].
  - exists (Raise e), ev1. split; [reflexivity|apply Hraise, HP].
Qed.

Lemma spec_weaken {A} (m : M A) (P Q : post A) :
  spec m P -> (forall out ev, P out ev -> Q out ev) -> spec m Q.
Proof.
  intros Hm HPQ log. destruct (Hm log) as (out & ev & Heq & HP).
  exists out, ev. split; [exact Heq|apply HPQ, HP].
Qed.

Lemma spec_to_at {A} (m : M A) (Q : post A) log : spec m Q -> spec_at log m Q.
Proof. intros H. apply H. Qed.

Lemma spec_at_ret {A} log (a : A) (Q : post A) : Q (Ok a) [] -> spec_at log (ret a) Q.
Proof. intros H. exists (Ok a), []. rewrite app_nil_r. split; [reflexivity|exact H]. Qed.

Lemma spec_at_bind {A B} log (m : M A) (k : A -> M B) (P : post A) (Q : post B) :
  spec_at log m P ->
  (forall e ev, P (Raise e) ev -> Q (Raise e) ev) ->
  (forall a ev1, P (Ok a) ev1 -> spec_at (log ++ ev1) (k a) (fun out ev2 => Q out (ev1 ++ ev2))) ->
  spec_at log (bind m k) Q.
Proof.
  intros (out & ev1 & Hm & HP) Hraise Hk. unfold spec_at, bind. rewrite Hm.
  destruct out as [a|e].
  - destruct (Hk a ev1 HP) as (out & ev2 & -> & HQ).
    exists out, (ev1 ++ ev2). rewrite app_assoc. split; [reflexivity|exact HQ].
  - exists (Raise e), ev1. split; [reflexivity|apply Hraise, HP].
Qed.

Lemma spec_at_weaken {A} log (m : M A) (P Q : post A) :
  spec_at log m P -> (forall out ev, P out ev -> Q out ev) -> spec_at log m Q.
Proof.
  intros (out & ev & Heq & HP) HPQ. exists out, ev. split; [exact Heq|apply HPQ, HP].
Qed.

Section Specs.
Variable rm : remote.

Lemma at_sleep log ms :
  spec_at log (sleep ms) (fun out ev => out = Ok tt /\ ev = [SleepCall ms]).
Proof. exists (Ok tt), [SleepCall ms]. repeat split. Qed.

Lemma at_split log fo sent :
  spec_at log (split_fulfillment_order rm fo sent)
    (fun out ev => out = split_reply rm (count is_split log) /\ ev = [SplitCall fo sent out]).
Proof. eexists _, _. repeat split. Qed.

Lemma at_fetch log fo :
  spec_at log (get_fulfillment_order_details rm fo)
    (fun out ev => out = fetch_reply rm (count is_fetch log) /\ ev = [FetchCall fo out]).
Proof. eexists _, _. repeat split. Qed.
End Specs.

Lemma py_index_raises v k e : py_index v k = Raise e -> e = KeyError \/ e = TypeError.
Proof.
  destruct v; cbn; try (intros [= <-]; tauto).
  destruct (dict_lookup k d); [discriminate|intros [= <-]; tauto].
Qed.

Lemma tag_user_errors_raises d e :
  tag_user_errors (PDict d) = Raise e -> e = KeyError \/ e = TypeError.
Proof.
  unfold tag_user_errors. cbn [py_contains res_bind].
  repeat match goal with
         | |- context [if ?b then _ else _] => destruct b
         | |- context [res_bind (py_index ?v ?k) _] =>
             let H := fresh in
             destruct (py_index v k) eqn:H; cbn [res_bind];
             [|apply py_index_raises in H; intros [= <-]; exact H]
         | |- Ok _ = Raise _ -> _ => discriminate
         end.
  all: try apply py_index_raises.
Qed.

(** [add_tag_to_order] never raises on what the executor returns. *)
Lemma tag_result_ok_total reply : tag_result_ok (result_value reply) = Ok (tag_ok reply).
Proof.
  unfold tag_ok. destruct reply as [d|]; [|reflexivity].
  unfold tag_result_ok. cbn [result_value py_contains res_bind].
  destruct (negb (truthy (PDict d))); [reflexivity|].
  destruct (dict_has "errors" d); [reflexivity|].
  destruct (tag_user_errors (PDict d)) as [v|e] eqn:Hu; cbn [res_bind].
  - destruct (truthy v); reflexivity.
  - destruct (tag_user_errors_raises d e Hu) as [-> | ->]; cbn [res_bind];
      match goal with |- context [truthy ?v] => destruct (truthy v) end; reflexivity.
Qed.

Lemma string_app_assoc (a b c : string) : (a +:+ b) +:+ c = a +:+ b +:+ c.
Proof.
  induction a as [|x a IH]; [reflexivity|].
  change (String x ((a +:+ b) +:+ c) = String x (a +:+ b +:+ c)). rewrite IH. reflexivity.
Qed.

Lemma committed_tags_app ev1 ev2 :
  committed_tags (ev1 ++ ev2) = committed_tags ev1 ++ committed_tags ev2.
Proof. apply flat_map_app. Qed.

Lemma committed_splits_app ev1 ev2 :
  committed_splits (ev1 ++ ev2) = committed_splits ev1 ++ committed_splits ev2.
Proof. apply flat_map_app. Qed.

Lemma clean_app ev1 ev2 : clean ev1 -> clean ev2 -> clean (ev1 ++ ev2).
Proof. unfold clean. rewrite Forall_app. tauto. Qed.

Lemma clean_cons e ev : split_refused e = false -> clean ev -> clean (e :: ev).
Proof. intros. constructor; assumption. Qed.

Lemma clean_nil : clean [].
Proof. constructor. Qed.

Lemma extends_refl r : extends r [] r.
Proof. split; cbn; rewrite app_nil_r; reflexivity. Qed.

Lemma extends_app r ev1 r1 ev2 r2 :
  extends r ev1 r1 -> extends r1 ev2 r2 -> extends r (ev1 ++ ev2) r2.
Proof.
  intros [Ht1 Hs1] [Ht2 Hs2]. split.
  - rewrite Ht2, Ht1, committed_tags_app, app_assoc. reflexivity.
  - rewrite Hs2, Hs1, committed_splits_app, app_assoc. reflexivity.
Qed.

(** An event that commits nothing leaves the account as it is. *)
Lemma extends_quiet r e ev r' :
  committed_tags [e] = [] -> committed_splits [e] = [] ->
  extends r ev r' -> extends r (e :: ev) r'.
Proof.
  intros Ht Hs H. apply (extends_app r [e] r ev r'); [|exact H].
  split; rewrite ?Ht, ?Hs, app_nil_r; reflexivity.
Qed.

Lemma extends_failed r ev r' msg : extends r ev r' -> extends r ev (failed r' msg).
Proof. intros H. exact H. Qed.

Lemma stopped_app ev1 ev2 r' : clean ev1 -> stopped ev2 r' -> stopped (ev1 ++ ev2) r'.
Proof.
  intros Hc (before & fo & sent & new_id & st & prefix & sleeps & -> & Hid & Hb & Hs & Hsucc & Herr).
  exists (ev1 ++ before), fo, sent, new_id, st, prefix, sleeps.
  rewrite <- app_assoc. repeat split; try assumption. apply clean_app; assumption.
Qed.

Lemma tracked_after r ev1 r1 out ev2 :
  extends r ev1 r1 -> clean ev1 -> tracked r1 out ev2 -> tracked r out (ev1 ++ ev2).
Proof.
  intros He Hc. destruct out as [r'|e]; cbn [tracked].
  - intros [He' [Hc' | Hst]]; (split; [eapply extends_app; eassumption|]).
    + left. apply clean_app; assumption.
    + right. apply stopped_app; assumption.
  - intros Hc'. apply clean_app; assumption.
Qed.

Section TreeSpecs.
Variable rm : remote.

Lemma at_tag_order log oid tag r :
  oid <> "" ->
  spec_at log (tag_order rm (Some oid) tag r)
    (fun out ev =>
       let reply := tag_reply rm (count is_tag log) in
       out = Ok (if tag_ok reply then append_tag r tag else r)
       /\ ev = [TagCall (order_gid oid) tag reply]).
Proof.
  intros Hoid%String.eqb_neq. unfold spec_at, tag_order, add_tag_to_order, id_truthy.
  rewrite Hoid. cbn [negb]. unfold bind. rewrite tag_result_ok_total.
  eexists _, _. repeat split.
Qed.

Lemma spec_sleep ms : spec (sleep ms) (fun out ev => out = Ok tt /\ ev = [SleepCall ms]).
Proof. intros log. exists (Ok tt), [SleepCall ms]. repeat split. Qed.

Lemma spec_split fo sent :
  spec (split_fulfillment_order rm fo sent) (fun out ev => ev = [SplitCall fo sent out]).
Proof. intros log. eexists _, _. split; reflexivity. Qed.

Lemma spec_fetch fo :
  spec (get_fulfillment_order_details rm fo) (fun out ev => ev = [FetchCall fo out]).
Proof. intros log. eexists _, _. split; reflexivity. Qed.

(** A tag attempt adds at most one tag call, never fails the run and
    changes nothing but [tags_added]. *)
Lemma spec_tag_order order_id tag r :
  spec (tag_order rm order_id tag r)
    (fun out ev =>
       exists r', out = Ok r'
         /\ extends r ev r' /\ clean ev
         /\ splits r' = splits r /\ success r' = success r /\ error r' = error r
         /\ Forall (fun e => is_tag e = true) ev).
Proof.
  intros log. unfold tag_order, add_tag_to_order, id_truthy.
  destruct order_id as [oid|].
  - destruct (String.eqb oid "") eqn:Hoid; cbn [negb].
    + exists (Ok r), []. rewrite app_nil_r. split; [reflexivity|].
      exists r. repeat split; try apply extends_refl; constructor.
    + unfold bind. rewrite tag_result_ok_total. cbn [ret].
      eexists _, [_]. split; [reflexivity|].
      eexists. split; [reflexivity|].
      split; [|split; [repeat constructor|]].
      * split; cbn [committed_tags committed_splits flat_map];
          destruct (tag_ok _); cbn; rewrite ?app_nil_r; reflexivity.
      * destruct (tag_ok _); repeat split; repeat constructor.
  - exists (Ok r), []. rewrite app_nil_r. split; [reflexivity|].
    exists r. repeat split; try apply extends_refl; constructor.
Qed.

Lemma spec_tag_order_tracked {B} order_id tag r (k : results -> M B) (Q : post B) :
  (forall r1 ev1, extends r ev1 r1 -> clean ev1 ->
     splits r1 = splits r -> success r1 = success r -> error r1 = error r ->
     spec (k r1) (fun out ev2 => Q out (ev1 ++ ev2))) ->
  spec (bind (tag_order rm order_id tag r) k) Q.
Proof.
  intros Hk. eapply spec_bind; [apply spec_tag_order| |].
  - intros e ev (r' & [=] & _).
  - intros r1 ev1 (r' & [= <-] & He & Hc & Hs & Hsu & Her & _). apply Hk; assumption.
Qed.

(** The loop over the location groups keeps the account of committed
    splits and tags, and stops at the first refused split. *)
Lemma split_groups_tracked msgs order_id fo groups r :
  spec (split_groups rm msgs order_id fo groups r) (tracked r).
Proof.
  revert r. induction groups as [|[loc its] rest IH]; intros r; cbn [split_groups].
  - apply spec_ret. split; [apply extends_refl|left; apply clean_nil].
  - destruct (negb (nonempty its)); [apply IH|].
    eapply spec_bind; [apply spec_split| |].
    + intros e ev ->. repeat constructor.
    + intros [new_id st] ev1 ->.
      eapply spec_bind; [apply spec_sleep| |]; [intros ? ? [[=] _]|].
      intros [] ev2 [_ ->].
      destruct (id_truthy new_id) eqn:Hid.
      * apply spec_tag_order_tracked. intros r2 ev3 He3 Hc3 _ _ _.
        eapply spec_bind; [apply spec_sleep| |]; [intros ? ? [[=] _]|].
        intros [] ev4 [_ ->].
        eapply spec_bind; [apply spec_fetch| |].
        -- intros e ev ->. cbn [tracked app].
           repeat apply clean_cons; try reflexivity; [cbn; rewrite Hid; reflexivity|].
           apply clean_app; [assumption|repeat constructor].
        -- intros details ev5 ->.
           assert (Hpre : extends r ([SplitCall fo its (Ok (new_id, st))] ++ [SleepCall 3000]
                                      ++ ev3 ++ [SleepCall 1000] ++ [FetchCall fo (Ok details)]) r2
                          /\ clean ([SplitCall fo its (Ok (new_id, st))] ++ [SleepCall 3000]
                                      ++ ev3 ++ [SleepCall 1000] ++ [FetchCall fo (Ok details)])).
           { split.
             - match type of He3 with extends ?r1 _ _ =>
                 apply (extends_app r [SplitCall fo its (Ok (new_id, st)); SleepCall 3000] r1)
               end.
               { destruct new_id as [i|]; [|discriminate].
                 split; cbn [committed_tags committed_splits flat_map app];
                   rewrite ?Hid, ?app_nil_r; cbn; rewrite ?map_app; reflexivity. }
               apply (extends_app _ ev3 r2 _ r2 He3).
               apply extends_quiet; [reflexivity..|].
               apply extends_quiet; [reflexivity..|]. apply extends_refl.
             - cbn [app]. apply clean_cons; [cbn; rewrite Hid; reflexivity|].
               apply clean_cons; [reflexivity|].
               apply clean_app; [assumption|repeat constructor]. }
           destruct Hpre as [Hext Hclean].
           destruct details as [d|].
           ++ eapply spec_weaken; [apply IH|].
              intros out ev Htr.
              pose proof (tracked_after r _ r2 out ev Hext Hclean Htr) as H.
              rewrite <- ?app_assoc in H. exact H.
           ++ apply spec_ret. rewrite !app_nil_r. cbn [tracked].
              split; [apply extends_failed; rewrite <- ?app_assoc in Hext; exact Hext|].
              left. rewrite <- ?app_assoc in Hclean. exact Hclean.
      * apply spec_ret. cbn [tracked app]. split.
        -- apply extends_failed.
           apply extends_quiet; [reflexivity| |].
           ++ cbn [committed_splits flat_map app].
              destruct new_id; [rewrite Hid|]; reflexivity.
           ++ apply extends_quiet; [reflexivity..|]. apply extends_refl.
        -- right. exists [], fo, its, new_id, st, (split_failed msgs +:+ loc +:+ ": "), [SleepCall 3000].
           repeat split; try assumption; try constructor; try reflexivity; try constructor.
           cbn [failed error]. f_equal.
           rewrite !string_app_assoc. reflexivity.
Qed.

Lemma pre_step_tracked order_id c r :
  spec (pre_step rm order_id c r)
    (fun out ev =>
       exists r', out = Ok r'
         /\ extends r ev r' /\ clean ev
         /\ splits r' = splits r /\ success r' = success r /\ error r' = error r
         /\ Forall (fun e => is_tag e = true) ev).
Proof.
  unfold pre_step.
  assert (Hret : forall r0, spec (ret (A := results) r0)
            (fun out ev => exists r', out = Ok r' /\ extends r0 ev r' /\ clean ev
               /\ splits r' = splits r0 /\ success r' = success r0 /\ error r' = error r0
               /\ Forall (fun e => is_tag e = true) ev)).
  { intros r0. apply spec_ret. exists r0. repeat split; try apply extends_refl; constructor. }
  eapply spec_bind.
  - destruct (has_length_items (summary c) && (length (length_external c) =? 0)%nat);
      [apply spec_tag_order|apply Hret].
  - intros e ev (r' & [=] & _).
  - intros r1 ev1 (r' & [= <-] & He1 & Hc1 & Hs1 & Hsu1 & Her1 & Ht1).
    assert (Hthen : forall m, spec m (fun out ev => exists r', out = Ok r'
               /\ extends r1 ev r' /\ clean ev
               /\ splits r' = splits r1 /\ success r' = success r1 /\ error r' = error r1
               /\ Forall (fun e => is_tag e = true) ev) ->
             spec m (fun out ev2 => exists r', out = Ok r'
               /\ extends r (ev1 ++ ev2) r' /\ clean (ev1 ++ ev2)
               /\ splits r' = splits r /\ success r' = success r /\ error r' = error r
               /\ Forall (fun e => is_tag e = true) (ev1 ++ ev2))).
    { intros m Hm. eapply spec_weaken; [exact Hm|].
      intros out ev2 (r' & -> & He2 & Hc2 & Hs2 & Hsu2 & Her2 & Ht2).
      exists r'. split; [reflexivity|].
      split; [eapply extends_app; eassumption|].
      split; [apply clean_app; assumption|].
      repeat split; try congruence. apply Forall_app. split; assumption. }
    apply Hthen.
    destruct ((0 <? length (length_external c))%nat || (0 <? length (non_length_external c))%nat);
      [|apply Hret].
    match goal with |- context [if ?b then _ else _] => destruct b end; [|apply Hret].
    destruct (elements _); [apply Hret|apply spec_tag_order].
Qed.

Lemma split_length_rooftopshop_tracked order_id fo c r :
  spec (split_length_rooftopshop rm order_id fo c r) (tracked_step r).
Proof.
  unfold split_length_rooftopshop.
  destruct (nonempty (length_rooftopshop c));
    [|apply spec_ret; split; [apply extends_refl|apply clean_nil]].
  set (combined := map to_split (length_rooftopshop c) ++ _).
  eapply spec_bind; [apply spec_split| |].
  - intros e ev ->. repeat constructor.
  - intros [new_id st] ev1 ->.
    destruct (id_truthy new_id) eqn:Hid.
    + apply spec_tag_order_tracked. intros r2 ev3 He3 Hc3 _ _ _.
      eapply spec_bind; [apply spec_sleep| |]; [intros ? ? [[=] _]|].
      intros [] ev4 [_ ->].
      eapply spec_bind; [apply spec_fetch| |].
      * intros e ev ->. cbn [tracked_step app].
        apply clean_cons; [cbn; rewrite Hid; reflexivity|].
        apply clean_app; [assumption|repeat constructor].
      * intros details ev5 ->.
        assert (Hpre : extends r ([SplitCall fo combined (Ok (new_id, st))] ++ ev3
                                    ++ [SleepCall 2000] ++ [FetchCall fo (Ok details)] ++ []) r2
                       /\ clean ([SplitCall fo combined (Ok (new_id, st))] ++ ev3
                                    ++ [SleepCall 2000] ++ [FetchCall fo (Ok details)] ++ [])).
        { split.
          - match type of He3 with extends ?r1 _ _ =>
              apply (extends_app r [SplitCall fo combined (Ok (new_id, st))] r1)
            end.
            { destruct new_id as [i|]; [|discriminate].
              split; cbn [committed_tags committed_splits flat_map app];
                rewrite ?Hid, ?app_nil_r; cbn; rewrite ?map_app; reflexivity. }
            apply (extends_app _ ev3 r2 _ r2 He3).
            apply extends_quiet; [reflexivity..|].
            apply extends_quiet; [reflexivity..|]. apply extends_refl.
          - cbn [app]. apply clean_cons; [cbn; rewrite Hid; reflexivity|].
            apply clean_app; [assumption|repeat constructor]. }
        destruct Hpre as [Hext Hclean].
        destruct details as [d|]; apply spec_ret; cbn [tracked_step].
        -- split; assumption.
        -- split; [apply extends_failed; assumption|left; assumption].
    + apply spec_ret. cbn [tracked_step app]. split.
      * apply extends_failed. apply extends_quiet; [reflexivity| |apply extends_refl].
        cbn [committed_splits flat_map app].
        destruct new_id; [rewrite Hid|]; reflexivity.
      * right.
        exists [], fo, combined, new_id, st, "Failed to split length items at Rooftopshop: ", [].
        repeat split; try assumption; constructor.
Qed.

Lemma length_branch_tracked order_id fo c r :
  spec (length_branch rm order_id fo c r) (tracked r).
Proof.
  unfold length_branch.
  eapply spec_bind; [apply split_length_rooftopshop_tracked| |].
  - intros e ev H. exact H.
  - intros [r'|[r' fd]] ev1; cbn [tracked_step].
    + intros [He Hst]. apply spec_ret. rewrite app_nil_r. split; assumption.
    + intros [He Hc].
      destruct (negb (all_items_at_rooftopshop (summary c)));
        [|apply spec_ret; rewrite app_nil_r; split; [assumption|left; assumption]].
      eapply spec_bind with
        (P := fun out ev => clean ev /\ committed_tags ev = [] /\ committed_splits ev = []).
      * destruct fd as [d|].
        -- apply spec_ret. repeat split. constructor.
        -- eapply spec_weaken; [apply spec_fetch|].
           intros out ev ->. repeat split. repeat constructor.
      * intros e ev2 (Hc2 & _). apply clean_app; assumption.
      * intros fetched ev2 (Hc2 & Ht2 & Hs2).
        assert (He' : extends r (ev1 ++ ev2) r').
        { apply (extends_app r ev1 r' ev2 r' He).
          split; rewrite ?Ht2, ?Hs2, app_nil_r; reflexivity. }
        assert (Hc' : clean (ev1 ++ ev2)) by (apply clean_app; assumption).
        destruct fetched as [d|].
        -- eapply spec_weaken; [apply split_groups_tracked|].
           intros out ev Htr.
           pose proof (tracked_after r _ r' out ev He' Hc' Htr) as H.
           rewrite <- app_assoc in H. exact H.
        -- apply spec_ret. rewrite app_nil_r. cbn [tracked].
           split; [apply extends_failed; assumption|left; assumption].
Qed.

Lemma no_length_branch_tracked order_id fo c r :
  spec (no_length_branch rm order_id fo c r) (tracked r).
Proof.
  unfold no_length_branch.
  destruct (all_non_length_at_rooftopshop (summary c));
    [apply spec_ret; split; [apply extends_refl|left; apply clean_nil]|].
  eapply spec_bind; [apply spec_fetch| |].
  - intros e ev ->. repeat constructor.
  - intros details ev1 ->.
    assert (He : extends r [FetchCall fo (Ok details)] r)
      by (apply extends_quiet; [reflexivity..|apply extends_refl]).
    assert (Hc : clean [FetchCall fo (Ok details)]) by repeat constructor.
    destruct details as [d|].
    + eapply spec_weaken; [apply split_groups_tracked|].
      intros out ev Htr. exact (tracked_after r _ r out ev He Hc Htr).
    + apply spec_ret. cbn [tracked]. split; [apply extends_failed; assumption|left; assumption].
Qed.

(** The whole tree keeps the account and stops at the first refused
    split. *)
Lemma process_tracked order_id fo c :
  spec (process_fulfillment_according_to_decision_tree rm order_id fo c)
    (fun out ev =>
       match out with
       | Ok (r, _) => extends initial_results ev r /\ (clean ev \/ stopped ev r)
       | Raise _ => clean ev
       end).
Proof.
  unfold process_fulfillment_according_to_decision_tree.
  eapply spec_bind; [apply pre_step_tracked| |].
  - intros e ev (r' & [=] & _).
  - intros r1 ev1 (r' & [= <-] & He1 & Hc1 & _).
    assert (Hbranch : forall (m : M results) (c' : categories),
              spec m (tracked r1) ->
              spec (bind m (fun r' => ret (r', c')))
                (fun out ev2 =>
                   match out with
                   | Ok (r, _) => extends initial_results (ev1 ++ ev2) r
                                  /\ (clean (ev1 ++ ev2) \/ stopped (ev1 ++ ev2) r)
                   | Raise _ => clean (ev1 ++ ev2)
                   end)).
    { intros m c' Hm. eapply spec_bind; [exact Hm| |].
      - intros e ev2 H. exact (tracked_after initial_results ev1 r1 (Raise e) ev2 He1 Hc1 H).
      - intros r2 ev2 H. apply spec_ret. rewrite app_nil_r.
        exact (tracked_after initial_results ev1 r1 (Ok r2) ev2 He1 Hc1 H). }
    destruct (has_length_items (summary c)); apply Hbranch;
      [apply length_branch_tracked|apply no_length_branch_tracked].
Qed.
End TreeSpecs.

(* ===================================================================== *)
(** * Properties of the decision tree                                     *)
(* ===================================================================== *)

Lemma sleeps_commit_nothing ev :
  Forall (fun e => is_sleep e = true) ev ->
  committed_tags ev = [] /\ committed_splits ev = [].
Proof.
  induction 1 as [|e ev He _ [IHt IHs]]; [split; reflexivity|].
  destruct e; try discriminate. split; assumption.
Qed.

(** A log has one place only for a refused split that has clean calls
    before it and sleeps after it. *)
Lemma refused_split_unique b1 e1 a1 b2 e2 a2 :
  b1 ++ e1 :: a1 = b2 ++ e2 :: a2 ->
  split_refused e1 = true -> split_refused e2 = true ->
  clean b2 -> Forall (fun e => is_sleep e = true) a2 ->
  b1 = b2 /\ e1 = e2 /\ a1 = a2.
Proof.
  revert b2. induction b1 as [|x b1 IH]; intros [|y b2] Heq H1 H2 Hc Hs; cbn [app] in Heq.
  - injection Heq as -> ->. repeat split.
  - injection Heq as -> ->. inversion_clear Hc as [|? ? Hy _]. congruence.
  - injection Heq as -> <-. exfalso.
    apply Forall_app in Hs as [_ Hs]. inversion_clear Hs as [|? ? He1 _].
    destruct e1; discriminate.
  - injection Heq as -> Heq. inversion_clear Hc as [|? ? _ Hc'].
    destruct (IH b2 Heq H1 H2 Hc' Hs) as (-> & -> & ->). repeat split.
Qed.

(** C5. When a split call of a run comes back without a new order id, the
    run makes no further remote call (only sleeps follow in the log) and
    returns results with [success] false and an [error] that ends with the
    message of the refused split; every split before it had given a new
    order, and [splits] and [tags_added] list exactly the splits and tags
    that went through before it. This holds for every [categories], so for
    the branch with length items and the one without. *)
Theorem split_failure_stops_run (rm : remote) (order_id : option string) (fo : string)
    (c : categories) (before after : list event) (fo' : string) (sent : list split_item)
    (new_id : option string) (st : string) :
  snd (run rm order_id fo c) = before ++ SplitCall fo' sent (Ok (new_id, st)) :: after ->
  id_truthy new_id = false ->
  exists r c' prefix,
    fst (run rm order_id fo c) = Ok (r, c')
    /\ success r = false
    /\ error r = Some (prefix +:+ st)
    /\ Forall (fun e => is_sleep e = true) after
    /\ clean before
    /\ tags_added r = committed_tags before
    /\ map split_summary (splits r) = committed_splits before.
Proof.
  unfold run. intros Hlog Hid.
  destruct (process_tracked rm order_id fo c []) as (out & ev & Hrun & Hpost).
  rewrite Hrun in Hlog |- *. cbn [fst snd app] in *. subst ev.
  assert (Href : split_refused (SplitCall fo' sent (Ok (new_id, st))) = true)
    by (cbn; rewrite Hid; reflexivity).
  assert (Hdirty : ~ clean (before ++ SplitCall fo' sent (Ok (new_id, st)) :: after)).
  { intros Hc. apply Forall_app in Hc as [_ Hc]. inversion_clear Hc as [|? ? He _]. congruence. }
  destruct out as [[r c']|e]; [|contradiction].
  destruct Hpost as [[Htags Hsplits] [Hc | Hst]]; [contradiction|].
  destruct Hst as (b' & fo2 & sent2 & id2 & st2 & prefix & sleeps & Heq & Hid2 & Hcb & Hsl & Hsucc & Herr).
  assert (Href2 : split_refused (SplitCall fo2 sent2 (Ok (id2, st2))) = true)
    by (cbn; rewrite Hid2; reflexivity).
  destruct (refused_split_unique _ _ _ _ _ _ Heq Href Href2 Hcb Hsl) as (-> & [= -> -> -> ->] & ->).
  destruct (sleeps_commit_nothing sleeps Hsl) as [Hst Hss].
  exists r, c', prefix. repeat split; try assumption.
  - rewrite Htags, committed_tags_app. cbn [committed_tags flat_map app initial_results tags_added].
    fold (committed_tags sleeps). rewrite Hst, app_nil_r. reflexivity.
  - rewrite Hsplits, committed_splits_app.
    cbn [committed_splits flat_map app initial_results splits map].
    fold (committed_splits sleeps). rewrite Hss.
    destruct id2 as [i|]; [rewrite Hid2|]; rewrite app_nil_r; reflexivity.
Qed.

(** Both branches. A length item at home and a plain item at Redfox
    EPDM, the second split refused: the run reports the failure and keeps
    the first split and both tags. Two plain items at Compri Aluminium, an
    order without length items, the one split refused: the run reports
    the failure, keeps the tag of the pre-step and lists no split. *)
Lemma split_failure_stops_run_witness :
  (exists r c' prefix,
     fst (run refusing_second_split (Some "9") "gid://shopify/FulfillmentOrder/1"
            (categorize_items length_home_and_redfox)) = Ok (r, c')
     /\ success r = false
     /\ error r = Some (prefix +:+ "No splits returned from API")
     /\ tags_added r = ["daktrimFulfillment"; "daktrimFulfillment"]
     /\ map split_summary (splits r)
        = [([{| split_id := "gid://shopify/FulfillmentOrderLineItem/1"; split_quantity := 1 |}],
            "gid://shopify/FulfillmentOrder/2", "OPEN")])
  /\ has_length_items (summary (categorize_items two_compri_items)) = false
  /\ (exists r c' prefix,
        fst (run (refusing_unchanged two_compri_items) (Some "9")
               "gid://shopify/FulfillmentOrder/1" (categorize_items two_compri_items))
        = Ok (r, c')
        /\ success r = false
        /\ error r = Some (prefix +:+ "No splits returned from API")
        /\ tags_added r = ["compriFulfillment"]
        /\ map split_summary (splits r) = []).
Proof.
  split; [|split; [reflexivity|]].
  - destruct (split_failure_stops_run refusing_second_split (Some "9")
                "gid://shopify/FulfillmentOrder/1" (categorize_items length_home_and_redfox)
                [TagCall "gid://shopify/Order/9" "daktrimFulfillment" tag_accepted;
                 SplitCall "gid://shopify/FulfillmentOrder/1"
                   [{| split_id := "gid://shopify/FulfillmentOrderLineItem/1";
                       split_quantity := 1 |}]
                   (Ok (Some "gid://shopify/FulfillmentOrder/2", "OPEN"));
                 TagCall "gid://shopify/Order/9" "daktrimFulfillment" tag_accepted;
                 SleepCall 2000;
                 FetchCall "gid://shopify/FulfillmentOrder/1" (Ok (Some (order_of [redfox_item])))]
                [SleepCall 3000]
                "gid://shopify/FulfillmentOrder/1"
                [{| split_id := "gid://shopify/FulfillmentOrderLineItem/2"; split_quantity := 3 |}]
                None "No splits returned from API")
      as (r & c' & prefix & Hrun & Hsucc & Herr & _ & _ & Htags & Hsplits).
    + vm_compute. reflexivity.
    + reflexivity.
    + exists r, c', prefix. repeat split; assumption.
  - destruct (split_failure_stops_run (refusing_unchanged two_compri_items) (Some "9")
                "gid://shopify/FulfillmentOrder/1" (categorize_items two_compri_items)
                [TagCall "gid://shopify/Order/9" "compriFulfillment" tag_accepted;
                 FetchCall "gid://shopify/FulfillmentOrder/1" (Ok (Some two_compri_items))]
                [SleepCall 3000]
                "gid://shopify/FulfillmentOrder/1"
                [{| split_id := "gid://shopify/FulfillmentOrderLineItem/1"; split_quantity := 1 |};
                 {| split_id := "gid://shopify/FulfillmentOrderLineItem/2"; split_quantity := 5 |}]
                None "No splits returned from API")
      as (r & c' & prefix & Hrun & Hsucc & Herr & _ & _ & Htags & Hsplits).
    + vm_compute. reflexivity.
    + reflexivity.
    + exists r, c', prefix. repeat split; assumption.
Defined.

Lemma sim_ret {A} (R : A -> A -> Prop) a1 a2 : R a1 a2 -> sim R (ret a1) (ret a2).
Proof. intros H log1 log2 Hl. cbn. split; assumption. Qed.

Lemma sim_bind {A B} (R : A -> A -> Prop) (S : B -> B -> Prop) m1 m2 k1 k2 :
  sim R m1 m2 ->
  (forall a1 a2, R a1 a2 -> sim S (k1 a1) (k2 a2)) ->
  sim S (bind m1 k1) (bind m2 k2).
Proof.
  intros Hm Hk log1 log2 Hl. unfold bind. specialize (Hm log1 log2 Hl).
  destruct (m1 log1) as [[a1|e1] l1], (m2 log2) as [[a2|e2] l2]; try contradiction.
  - destruct Hm as [HR Hl']. apply (Hk a1 a2 HR l1 l2 Hl').
  - exact Hm.
Qed.

Lemma same_calls_count p l1 l2 :
  (forall e, p (forget_tag_reply e) = p e) ->
  same_calls l1 l2 -> count p l1 = count p l2.
Proof.
  intros Hp. unfold same_calls, count. revert l2.
  induction l1 as [|a l1 IH]; intros [|b l2]; cbn [map List.filter]; try discriminate;
    [reflexivity|].
  intros [= Hab Hrest]. rewrite <- (Hp a), <- (Hp b), Hab.
  destruct (p (forget_tag_reply b)); cbn [length]; rewrite (IH l2 Hrest); reflexivity.
Qed.

Lemma same_calls_snoc l1 l2 e1 e2 :
  same_calls l1 l2 -> forget_tag_reply e1 = forget_tag_reply e2 ->
  same_calls (l1 ++ [e1]) (l2 ++ [e2]).
Proof. unfold same_calls. intros H He. rewrite !map_app, H. cbn. rewrite He. reflexivity. Qed.

Section TagReplies.
Variable rm : remote.
Variable tags : nat -> option pydict.
Let rm' := with_tag_replies rm tags.

Lemma sim_sleep ms : sim eq (sleep ms) (sleep ms).
Proof.
  intros log1 log2 Hl. cbn. split; [reflexivity|]. apply same_calls_snoc; [assumption|reflexivity].
Qed.

Lemma sim_split fo sent :
  sim eq (split_fulfillment_order rm fo sent) (split_fulfillment_order rm' fo sent).
Proof.
  intros log1 log2 Hl. unfold split_fulfillment_order. cbn [rm' with_tag_replies split_reply].
  rewrite (same_calls_count is_split log1 log2) by (assumption || intros []; reflexivity).
  destruct (split_reply rm (count is_split log2)) as [a|e];
    (split; [reflexivity|apply same_calls_snoc; [assumption|reflexivity]]).
Qed.

Lemma sim_fetch fo :
  sim eq (get_fulfillment_order_details rm fo) (get_fulfillment_order_details rm' fo).
Proof.
  intros log1 log2 Hl. unfold get_fulfillment_order_details.
  cbn [rm' with_tag_replies fetch_reply].
  rewrite (same_calls_count is_fetch log1 log2) by (assumption || intros []; reflexivity).
  destruct (fetch_reply rm (count is_fetch log2)) as [a|e];
    (split; [reflexivity|apply same_calls_snoc; [assumption|reflexivity]]).
Qed.

Lemma sim_tag_order order_id tag r1 r2 :
  same_but_tags r1 r2 ->
  sim same_but_tags (tag_order rm order_id tag r1) (tag_order rm' order_id tag r2).
Proof.
  intros Hr log1 log2 Hl. unfold tag_order, add_tag_to_order, id_truthy.
  destruct order_id as [oid|]; [|split; assumption].
  destruct (String.eqb oid ""); cbn [negb]; [split; assumption|].
  unfold bind. rewrite !tag_result_ok_total. cbn [ret].
  split; [|apply same_calls_snoc; [assumption|reflexivity]].
  destruct Hr as (Hs & Hsp & He).
  destruct (tag_ok _), (tag_ok _); repeat split; assumption.
Qed.

Lemma sim_pre_step order_id c r1 r2 :
  same_but_tags r1 r2 ->
  sim same_but_tags (pre_step rm order_id c r1) (pre_step rm' order_id c r2).
Proof.
  intros Hr. unfold pre_step.
  eapply sim_bind with (R := same_but_tags).
  - destruct (has_length_items (summary c) && (length (length_external c) =? 0)%nat);
      [apply sim_tag_order|apply sim_ret]; assumption.
  - intros a1 a2 Ha.
    repeat match goal with
           | |- context [if ?b then _ else _] => destruct b
           | |- context [match elements ?s with _ => _ end] => destruct (elements s)
           end; first [apply sim_tag_order | apply sim_ret]; assumption.
Qed.

Lemma same_but_tags_failed r1 r2 msg :
  same_but_tags r1 r2 -> same_but_tags (failed r1 msg) (failed r2 msg).
Proof. intros (Hs & Hsp & He). repeat split; assumption. Qed.

Lemma same_but_tags_split r1 r2 s :
  same_but_tags r1 r2 -> same_but_tags (append_split r1 s) (append_split r2 s).
Proof. intros (Hs & Hsp & He). repeat split; cbn; congruence. Qed.

Lemma sim_split_groups msgs order_id fo groups r1 r2 :
  same_but_tags r1 r2 ->
  sim same_but_tags (split_groups rm msgs order_id fo groups r1)
                    (split_groups rm' msgs order_id fo groups r2).
Proof.
  revert r1 r2. induction groups as [|[loc its] rest IH]; intros r1 r2 Hr; cbn [split_groups].
  - apply sim_ret, Hr.
  - destruct (negb (nonempty its)); [apply IH, Hr|].
    eapply sim_bind; [apply sim_split|]. intros reply reply' <-. destruct reply as [new_id st].
    eapply sim_bind; [apply sim_sleep|]. intros [] [] _.
    destruct (id_truthy new_id); [|apply sim_ret, same_but_tags_failed, Hr].
    eapply sim_bind; [apply sim_tag_order, same_but_tags_split, Hr|]. intros a1 a2 Ha.
    eapply sim_bind; [apply sim_sleep|]. intros [] [] _.
    eapply sim_bind; [apply sim_fetch|]. intros fd fd' <-. destruct fd as [d|].
    + apply IH, Ha.
    + apply sim_ret, same_but_tags_failed, Ha.
Qed.

Lemma sim_split_length_rooftopshop order_id fo c r1 r2 :
  same_but_tags r1 r2 ->
  sim same_step (split_length_rooftopshop rm order_id fo c r1)
                (split_length_rooftopshop rm' order_id fo c r2).
Proof.
  intros Hr. unfold split_length_rooftopshop.
  destruct (nonempty (length_rooftopshop c)); [|apply sim_ret; split; [assumption|reflexivity]].
  eapply sim_bind; [apply sim_split|]. intros reply reply' <-. destruct reply as [new_id st].
  destruct (id_truthy new_id); [|apply sim_ret, same_but_tags_failed, Hr].
  eapply sim_bind; [apply sim_tag_order, same_but_tags_split, Hr|]. intros a1 a2 Ha.
  eapply sim_bind; [apply sim_sleep|]. intros [] [] _.
  eapply sim_bind; [apply sim_fetch|]. intros fd fd' <-; destruct fd as [d|]; apply sim_ret.
  - split; [assumption|reflexivity].
  - apply same_but_tags_failed, Ha.
Qed.

Lemma sim_length_branch order_id fo c r1 r2 :
  same_but_tags r1 r2 ->
  sim same_but_tags (length_branch rm order_id fo c r1) (length_branch rm' order_id fo c r2).
Proof.
  intros Hr. unfold length_branch.
  eapply sim_bind; [apply sim_split_length_rooftopshop, Hr|].
  intros [a1|[a1 d1]] [a2|[a2 d2]]; cbn [same_step]; try contradiction.
  - intros Ha. apply sim_ret, Ha.
  - intros [Ha <-].
    destruct (negb (all_items_at_rooftopshop (summary c))); [|apply sim_ret, Ha].
    eapply sim_bind with (R := eq).
    + destruct d1; [apply sim_ret; reflexivity|apply sim_fetch].
    + intros fd fd' <-; destruct fd as [d|];
        [apply sim_split_groups, Ha|apply sim_ret, same_but_tags_failed, Ha].
Qed.

Lemma sim_no_length_branch order_id fo c r1 r2 :
  same_but_tags r1 r2 ->
  sim same_but_tags (no_length_branch rm order_id fo c r1)
                    (no_length_branch rm' order_id fo c r2).
Proof.
  intros Hr. unfold no_length_branch.
  destruct (all_non_length_at_rooftopshop (summary c)); [apply sim_ret, Hr|].
  eapply sim_bind; [apply sim_fetch|].
  intros fd fd' <-; destruct fd as [d|];
    [apply sim_split_groups, Hr|apply sim_ret, same_but_tags_failed, Hr].
Qed.

Lemma sim_process order_id fo c :
  sim (fun a1 a2 => same_but_tags (fst a1) (fst a2) /\ snd a1 = snd a2)
    (process_fulfillment_according_to_decision_tree rm order_id fo c)
    (process_fulfillment_according_to_decision_tree rm' order_id fo c).
Proof.
  unfold process_fulfillment_according_to_decision_tree.
  eapply sim_bind; [apply sim_pre_step; repeat split|]. intros a1 a2 Ha.
  destruct (has_length_items (summary c)).
  - eapply sim_bind; [apply sim_length_branch, Ha|].
    intros b1 b2 Hb. apply sim_ret. split; [exact Hb|reflexivity].
  - eapply sim_bind; [apply sim_no_length_branch, Ha|].
    intros b1 b2 Hb. apply sim_ret. split; [exact Hb|reflexivity].
Qed.
End TagReplies.

(** C8. Whatever the executor answers to the tag mutations of a run, the
    run makes the same calls in the same order (the same tag attempts, the
    same splits and fetches with the same answers, the same sleeps), and
    it ends the same way: with the same exception, or with results that
    have the same [success], [splits] and [error]. In each run
    [tags_added] lists exactly the tags whose call succeeded. *)
Theorem tag_failures_change_tags_added_only (rm : remote) (tags : nat -> option pydict)
    (order_id : option string) (fo : string) (c : categories) :
  let '(out1, log1) := run rm order_id fo c in
  let '(out2, log2) := run (with_tag_replies rm tags) order_id fo c in
  same_calls log1 log2
  /\ match out1, out2 with
     | Ok (r1, c1), Ok (r2, c2) =>
         success r1 = success r2 /\ splits r1 = splits r2 /\ error r1 = error r2
         /\ c1 = c2
         /\ tags_added r1 = committed_tags log1
         /\ tags_added r2 = committed_tags log2
     | Raise e1, Raise e2 => e1 = e2
     | _, _ => False
     end.
Proof.
  unfold run.
  pose proof (sim_process rm tags order_id fo c [] [] eq_refl) as Hsim.
  destruct (process_tracked rm order_id fo c []) as (o1 & ev1 & Hrun1 & Hpost1).
  destruct (process_tracked (with_tag_replies rm tags) order_id fo c [])
    as (o2 & ev2 & Hrun2 & Hpost2).
  rewrite Hrun1, Hrun2 in Hsim |- *. cbn [app] in *.
  destruct o1 as [[r1 c1]|e1], o2 as [[r2 c2]|e2]; try contradiction.
  - destruct Hsim as [[(Hs & Hsp & He) Hc] Hl]. cbn [fst snd] in *.
    destruct Hpost1 as [[Ht1 _] _], Hpost2 as [[Ht2 _] _]. cbn in Ht1, Ht2.
    repeat split; assumption.
  - destruct Hsim as [He Hl]. split; assumption.
Qed.

(** The run of an order with length items at home and no external length
    item, when the order id is given, the first two tag calls go through
    and the first split gives a new order. *)
Section DaktrimTwice.
Variable rm : remote.
Variables (oid fo : string) (c : categories) (new_id st : string).
Hypothesis Hoid : oid <> "".
Hypothesis Hlen : has_length_items (summary c) = true.
Hypothesis Hhome : length_rooftopshop c <> [].
Hypothesis Hext : length_external c = [].
Hypothesis Ht0 : tag_ok (tag_reply rm 0) = true.
Hypothesis Ht1 : tag_ok (tag_reply rm 1) = true.
Hypothesis Hs0 : split_reply rm 0 = Ok (Some new_id, st).
Hypothesis Hnew : new_id <> "".

Let d := "daktrimFulfillment".

Lemma pre_step_daktrim :
  spec_at [] (pre_step rm (Some oid) c initial_results)
    (fun out ev => out = Ok (append_tag initial_results d)
                   /\ ev = [TagCall (order_gid oid) d (tag_reply rm 0)]).
Proof.
  unfold pre_step. rewrite Hlen, Hext. cbn [length Nat.eqb andb].
  eapply spec_at_bind; [apply at_tag_order, Hoid| |].
  - intros e ev [[=] _].
  - cbn [count List.filter length]. rewrite Ht0. intros a ev1 [[= ->] ->].
    assert (Hsum : (length (length_rooftopshop c) + length (non_length_rooftopshop c)
                    + length (daktrim_koppelstukje_rooftopshop c) =? 0)%nat = false).
    { destruct (length_rooftopshop c); [congruence|reflexivity]. }
    rewrite Hsum, andb_false_r.
    destruct (_ || _); apply spec_at_ret; rewrite app_nil_r; split; reflexivity.
Qed.

Lemma split_length_rooftopshop_daktrim r :
  tags_added r = [d] ->
  spec_at [TagCall (order_gid oid) d (tag_reply rm 0)]
    (split_length_rooftopshop rm (Some oid) fo c r)
    (fun out ev =>
       match out with
       | Ok (inl r') | Ok (inr (r', _)) => tags_added r' = [d; d]
       | Raise _ => True
       end).
Proof.
  intros Hr. unfold split_length_rooftopshop.
  destruct (length_rooftopshop c) as [|x l] eqn:Hl; [congruence|]. cbn [nonempty].
  eapply spec_at_bind; [apply at_split| |]; [intros; exact I|].
  cbn [count List.filter length is_split]. rewrite Hs0. intros a ev1 [[= ->] ->].
  assert (Hid : id_truthy (Some new_id) = true).
  { cbn. apply String.eqb_neq in Hnew. rewrite Hnew. reflexivity. }
  rewrite Hid.
  eapply spec_at_bind; [apply at_tag_order, Hoid| |]; [intros; exact I|].
  cbn [app count List.filter length is_tag]. rewrite Ht1. intros a ev2 [[= ->] ->].
  eapply spec_at_bind; [apply at_sleep| |]; [intros; exact I|]. intros [] ev3 _.
  eapply spec_at_bind; [apply at_fetch| |]; [intros; exact I|]. intros fd ev4 _.
  destruct fd; apply spec_at_ret; cbn; rewrite Hr; reflexivity.
Qed.

Lemma length_branch_daktrim r :
  tags_added r = [d] ->
  spec_at [TagCall (order_gid oid) d (tag_reply rm 0)]
    (length_branch rm (Some oid) fo c r)
    (fun out ev => forall r', out = Ok r' -> exists rest, tags_added r' = d :: d :: rest).
Proof.
  intros Hr. unfold length_branch.
  eapply spec_at_bind; [apply split_length_rooftopshop_daktrim, Hr| |]; [discriminate|].
  intros [r1|[r1 fd]] ev1 Htags.
  - apply spec_at_ret. intros r' [= <-]. exists []. exact Htags.
  - destruct (negb (all_items_at_rooftopshop (summary c)));
      [|apply spec_at_ret; intros r' [= <-]; exists []; exact Htags].
    eapply spec_at_bind with (P := fun _ _ => True); [| |]; [|discriminate|].
    + destruct fd; [apply spec_at_ret; exact I|].
      eapply spec_at_weaken; [apply at_fetch|]. intros; exact I.
    + intros fetched ev2 _. destruct fetched as [det|].
      * eapply spec_at_weaken; [apply spec_to_at, split_groups_tracked|].
        intros out ev3 Htr r' ->. destruct Htr as [[Ht _] _].
        rewrite Ht, Htags. eexists. reflexivity.
      * apply spec_at_ret. intros r' [= <-]. exists []. exact Htags.
Qed.

Lemma process_daktrim :
  spec_at [] (process_fulfillment_according_to_decision_tree rm (Some oid) fo c)
    (fun out ev => forall r c', out = Ok (r, c') ->
                     exists rest, tags_added r = d :: d :: rest).
Proof.
  unfold process_fulfillment_according_to_decision_tree.
  eapply spec_at_bind; [apply pre_step_daktrim| |]; [discriminate|].
  intros r1 ev1 [[= ->] ->]. rewrite Hlen. cbn [app].
  eapply spec_at_bind; [apply length_branch_daktrim; reflexivity| |]; [discriminate|].
  intros r2 ev2 Hr2. apply spec_at_ret. intros r c' [= <- <-]. apply Hr2. reflexivity.
Qed.
End DaktrimTwice.

(** C10. [tags_added] can hold the same tag twice. For an order with
    length items at home and no external length item, when an order id is
    given, the first two tag calls go through and the first split gives a
    new order, every result the tree returns has [daktrimFulfillment] as
    its first two tags: once from the tagging before the tree, once from
    the step after the split of the length items at home. *)
Theorem daktrim_tag_added_twice (rm : remote) (oid fo : string) (c : categories)
    (new_id st : string) (r : results) (c' : categories) :
  oid <> "" ->
  has_length_items (summary c) = true ->
  length_rooftopshop c <> [] ->
  length_external c = [] ->
  tag_ok (tag_reply rm 0) = true ->
  tag_ok (tag_reply rm 1) = true ->
  split_reply rm 0 = Ok (Some new_id, st) ->
  new_id <> "" ->
  fst (run rm (Some oid) fo c) = Ok (r, c') ->
  (exists rest, tags_added r = "daktrimFulfillment" :: "daktrimFulfillment" :: rest)
  /\ ~ List.NoDup (tags_added r).
Proof.
  intros Hoid Hlen Hhome Hext Ht0 Ht1 Hs0 Hnew Hrun.
  destruct (process_daktrim rm oid fo c new_id st Hoid Hlen Hhome Hext Ht0 Ht1 Hs0 Hnew)
    as (out & ev & Heq & Hpost).
  unfold run in Hrun. rewrite Heq in Hrun. cbn [fst] in Hrun.
  destruct (Hpost r c' Hrun) as [rest Hrest].
  split; [exists rest; exact Hrest|].
  rewrite Hrest. intros Hnd. inversion_clear Hnd as [|? ? Hnotin _].
  apply Hnotin. left. reflexivity.
Qed.

(** The order with a length item at home and a plain item at Redfox EPDM,
    on a remote side where everything goes through: the run succeeds and
    [tags_added] holds [daktrimFulfillment] twice. *)
Lemma daktrim_tag_added_twice_witness :
  exists r c',
    fst (run accepting (Some "9") "gid://shopify/FulfillmentOrder/1"
           (categorize_items length_home_and_redfox)) = Ok (r, c')
    /\ success r = true
    /\ tags_added r = ["daktrimFulfillment"; "daktrimFulfillment"; "redfoxFulfillment"]
    /\ ~ List.NoDup (tags_added r).
Proof.
  eexists _, _. split; [vm_compute; reflexivity|]. split; [reflexivity|]. split; [reflexivity|].
  eapply (daktrim_tag_added_twice accepting "9" "gid://shopify/FulfillmentOrder/1"
            (categorize_items length_home_and_redfox)
            "gid://shopify/FulfillmentOrder/2" "OPEN").
  - discriminate.
  - reflexivity.
  - discriminate.
  - reflexivity.
  - reflexivity.
  - reflexivity.
  - reflexivity.
  - discriminate.
  - vm_compute. reflexivity.
Defined.

(* ===================================================================== *)
(** * What the splits of a run send                                       *)
(* ===================================================================== *)

Lemma sent_within_app allowed ev1 ev2 :
  sent_within allowed ev1 -> sent_within allowed ev2 -> sent_within allowed (ev1 ++ ev2).
Proof. unfold sent_within. rewrite Forall_app. tauto. Qed.

Lemma sent_within_tags allowed ev :
  Forall (fun e => is_tag e = true) ev -> sent_within allowed ev.
Proof.
  unfold sent_within. apply List.Forall_impl. intros [] H; try exact I. discriminate.
Qed.

Lemma groups_within_append allowed loc x g :
  In x allowed -> groups_within allowed g -> groups_within allowed (groups_append loc x g).
Proof.
  intros Hx. unfold groups_within.
  induction g as [|[l xs] g IH]; cbn [groups_append]; intros Hg.
  - repeat constructor. intros y [<-|[]]. exact Hx.
  - inversion_clear Hg as [|? ? Hxs Hg'].
    destruct (String.eqb loc l); constructor; cbn [snd] in *; auto.
    intros y [Hy|[<-|[]]]%in_app_or; auto.
Qed.

Lemma group_remaining_within allowed remaining l g :
  incl (map to_split l) allowed -> groups_within allowed g ->
  groups_within allowed (group_remaining remaining l g).
Proof.
  unfold group_remaining. revert g.
  induction l as [|item l IH]; intros g Hl Hg; cbn [fold_left]; [exact Hg|].
  apply IH; [intros y Hy; apply Hl; right; exact Hy|].
  rewrite group_remaining_step_spec.
  destruct (remaining !! item_id item) as [r|]; [|exact Hg].
  destruct (nonempty (available_locations r)); [|exact Hg].
  apply groups_within_append; [apply Hl; left; reflexivity|exact Hg].
Qed.

Section SentItems.
Variable rm : remote.
Variable allowed : list split_item.

Lemma split_groups_sent msgs order_id fo groups r :
  groups_within allowed groups ->
  spec (split_groups rm msgs order_id fo groups r) (fun _ ev => sent_within allowed ev).
Proof.
  revert r. induction groups as [|[loc its] rest IH]; intros r Hg; cbn [split_groups].
  - apply spec_ret. constructor.
  - inversion_clear Hg as [|? ? Hits Hrest]. cbn [snd] in Hits.
    destruct (negb (nonempty its)); [apply IH, Hrest|].
    eapply spec_bind; [apply spec_split| |].
    + intros e ev ->. repeat constructor. exact Hits.
    + intros [new_id st] ev1 ->.
      eapply spec_bind; [apply spec_sleep| |]; [intros ? ? [[=] _]|].
      intros [] ev2 [_ ->].
      destruct (id_truthy new_id);
        [|apply spec_ret; repeat constructor; exact Hits].
      eapply spec_bind; [apply spec_tag_order| |]; [intros ? ? (? & [=] & _)|].
      intros r2 ev3 (? & _ & _ & _ & _ & _ & _ & Htags).
      eapply spec_bind; [apply spec_sleep| |]; [intros ? ? [[=] _]|].
      intros [] ev4 [_ ->].
      eapply spec_bind; [apply spec_fetch| |].
      * intros e ev ->. cbn [app]. constructor; [exact Hits|]. constructor; [exact I|].
        apply sent_within_app; [apply sent_within_tags, Htags|repeat constructor].
      * intros fd ev5 ->.
        assert (Hpre : forall ev, sent_within allowed ev ->
                  sent_within allowed ([SplitCall fo its (Ok (new_id, st))] ++ [SleepCall 3000]
                     ++ ev3 ++ [SleepCall 1000] ++ [FetchCall fo (Ok fd)] ++ ev)).
        { intros ev Hev. cbn [app]. constructor; [exact Hits|]. constructor; [exact I|].
          apply sent_within_app; [apply sent_within_tags, Htags|].
          constructor; [exact I|]. constructor; [exact I|exact Hev]. }
        destruct fd as [det|].
        -- eapply spec_weaken; [apply IH, Hrest|]. intros out ev Hev. apply Hpre, Hev.
        -- apply spec_ret. apply Hpre. constructor.
Qed.

Lemma pre_step_sent order_id c r :
  spec (pre_step rm order_id c r) (fun out ev => sent_within allowed ev /\ exists r', out = Ok r').
Proof.
  eapply spec_weaken; [apply pre_step_tracked|].
  intros out ev (r' & -> & _ & _ & _ & _ & _ & Htags).
  split; [apply sent_within_tags, Htags|eauto].
Qed.
End SentItems.


(** With no length item at home, the branch for length items sends
    external items only. *)
Lemma length_branch_sent rm order_id fo (c : categories) r :
  length_rooftopshop c = [] ->
  spec (length_branch rm order_id fo c r)
    (fun _ ev => sent_within (external_candidates c) ev).
Proof.
  intros Hhome. unfold length_branch, split_length_rooftopshop. rewrite Hhome. cbn [nonempty].
  eapply spec_bind; [apply spec_ret with (Q := fun out ev => ev = [] /\ out = Ok (inr (r, None)));
                     split; reflexivity| |].
  - intros e ev [_ [=]].
  - intros step ev1 [-> [= ->]]. cbn [app].
    destruct (negb (all_items_at_rooftopshop (summary c))); [|apply spec_ret; constructor].
    eapply spec_bind; [apply spec_fetch| |].
    + intros e ev ->. repeat constructor.
    + intros fd ev2 ->. destruct fd as [det|]; [|apply spec_ret; repeat constructor].
      eapply spec_weaken.
      * apply (split_groups_sent rm (external_candidates c)). unfold external_candidates.
        apply group_remaining_within;
          [intros y Hy; rewrite map_app; apply in_or_app; right; exact Hy|].
        apply group_remaining_within;
          [intros y Hy; rewrite map_app; apply in_or_app; left; exact Hy|constructor].
      * intros out ev Hev. cbn [app]. constructor; [exact I|exact Hev].
Qed.

(** C9. When the order has length items but none at home, every split
    call of the run sends items of the two external buckets only (length
    or not); so, the line ids of an order being pairwise distinct, no
    split carries the line id of a coupling piece at home. *)
Theorem koppelstukje_not_split_without_length_at_home (rm : remote)
    (order_id : option string) (fo : string) (details : order_details) :
  let c := categorize_items details in
  has_length_items (summary c) = true ->
  length_rooftopshop c = [] ->
  forall fo' sent reply,
    In (SplitCall fo' sent reply) (snd (run rm order_id fo c)) ->
    incl sent (external_candidates c)
    /\ (List.NoDup (map fulfillment_order_line_item_id (line_items details)) ->
        forall x, In x sent ->
          ~ In (split_id x) (bucket_ids DaktrimKoppelstukjeRooftopshop c)).
Proof.
  intros c Hlen Hhome fo' sent reply Hin.
  assert (Hsent : sent_within (external_candidates c) (snd (run rm order_id fo c))).
  { unfold run, process_fulfillment_according_to_decision_tree. rewrite Hlen.
    assert (Hspec : spec (r <~ pre_step rm order_id c initial_results;;
                          r' <~ length_branch rm order_id fo c r;; ret (r', c))%tree
                      (fun _ ev => sent_within (external_candidates c) ev)).
    { eapply spec_bind; [apply pre_step_sent| |].
      - intros e ev [H _]. exact H.
      - intros r ev1 [H1 _].
        eapply spec_bind; [apply length_branch_sent; exact Hhome| |].
        + intros e ev2 H2. apply sent_within_app; assumption.
        + intros r' ev2 H2. apply spec_ret. rewrite app_nil_r.
          apply sent_within_app; assumption. }
    destruct (Hspec []) as (out & ev & -> & Hev). exact Hev. }
  unfold sent_within in Hsent. rewrite List.Forall_forall in Hsent.
  specialize (Hsent _ Hin). cbn in Hsent.
  split; [exact Hsent|].
  intros Hnd x Hx Hdk. apply Hsent in Hx.
  unfold external_candidates in Hx. apply in_map_iff in Hx as (d & <- & Hd).
  cbn [to_split split_id] in Hdk.
  apply in_app_or in Hd as [Hd|Hd].
  - assert (Hi : In (item_id d) (bucket_ids LengthExternal c))
      by (apply in_map; exact Hd).
    pose proof (bucket_ids_disjoint details _ _ _ Hnd Hi Hdk). discriminate.
  - assert (Hi : In (item_id d) (bucket_ids NonLengthExternal c))
      by (apply in_map; exact Hd).
    pose proof (bucket_ids_disjoint details _ _ _ Hnd Hi Hdk). discriminate.
Qed.

(** A coupling piece at home and a length item at Compri Aluminium: the
    one split of the run sends the length item, not the coupling piece. *)
Lemma koppelstukje_not_split_without_length_at_home_witness :
  List.NoDup (map fulfillment_order_line_item_id (line_items koppelstukje_and_external_length))
  /\ In (SplitCall "gid://shopify/FulfillmentOrder/1"
           [{| split_id := "gid://shopify/FulfillmentOrderLineItem/2"; split_quantity := 1 |}]
           (Ok (Some "gid://shopify/FulfillmentOrder/2", "OPEN")))
        (snd (run (accepting_unchanged koppelstukje_and_external_length) (Some "9")
                "gid://shopify/FulfillmentOrder/1"
                (categorize_items koppelstukje_and_external_length)))
  /\ ~ In "gid://shopify/FulfillmentOrderLineItem/2"
         (bucket_ids DaktrimKoppelstukjeRooftopshop
            (categorize_items koppelstukje_and_external_length)).
Proof.
  assert (Hnd : List.NoDup (map fulfillment_order_line_item_id
                              (line_items koppelstukje_and_external_length)))
    by distinct_ids.
  assert (Hin : In (SplitCall "gid://shopify/FulfillmentOrder/1"
           [{| split_id := "gid://shopify/FulfillmentOrderLineItem/2"; split_quantity := 1 |}]
           (Ok (Some "gid://shopify/FulfillmentOrder/2", "OPEN")))
        (snd (run (accepting_unchanged koppelstukje_and_external_length) (Some "9")
                "gid://shopify/FulfillmentOrder/1"
                (categorize_items koppelstukje_and_external_length))))
    by (vm_compute; right; left; reflexivity).
  split; [exact Hnd|]. split; [exact Hin|].
  destruct (koppelstukje_not_split_without_length_at_home
              (accepting_unchanged koppelstukje_and_external_length) (Some "9")
              "gid://shopify/FulfillmentOrder/1" koppelstukje_and_external_length
              eq_refl eq_refl _ _ _ Hin) as [_ Hnot].
  apply (Hnot Hnd {| split_id := "gid://shopify/FulfillmentOrderLineItem/2"; split_quantity := 1 |}).
  left. reflexivity.
Defined.

Lemma summary_of_categorize details :
  exists ext, summary (categorize_items details) = make_summary (categorize_items details) ext.
Proof.
  unfold categorize_items.
  destruct (fold_left categorize_step (line_items details) (empty_buckets, ∅)) as [c ext].
  exists ext. reflexivity.
Qed.

Lemma groups_nonempty_append loc x g :
  groups_nonempty g -> groups_nonempty (groups_append loc x g).
Proof.
  unfold groups_nonempty. induction g as [|[l xs] g IH]; cbn [groups_append]; intros Hg.
  - repeat constructor. discriminate.
  - inversion_clear Hg as [|? ? Hxs Hg'].
    destruct (String.eqb loc l); constructor; cbn [snd] in *; auto.
    destruct xs; discriminate.
Qed.

Lemma group_remaining_nonempty remaining l g :
  groups_nonempty g -> groups_nonempty (group_remaining remaining l g).
Proof.
  unfold group_remaining. revert g.
  induction l as [|item l IH]; intros g Hg; cbn [fold_left]; [exact Hg|].
  apply IH. rewrite group_remaining_step_spec.
  destruct (remaining !! item_id item) as [r|]; [|exact Hg].
  destruct (nonempty (available_locations r)); [|exact Hg].
  apply groups_nonempty_append, Hg.
Qed.

Lemma located_in_app remaining l1 l2 :
  located_in remaining (l1 ++ l2) = located_in remaining l1 ++ located_in remaining l2.
Proof. apply List.filter_app. Qed.

Section FirstSplit.
Variable rm : remote.

(** Whatever the group loop does, it is some run. *)
Lemma split_groups_runs msgs order_id fo groups r :
  spec (split_groups rm msgs order_id fo groups r) (fun _ _ => True).
Proof. eapply spec_weaken; [apply split_groups_tracked|]. intros; exact I. Qed.

(** With a first group that is not empty, the loop starts with the split
    of that group. *)
Lemma split_groups_first msgs order_id fo loc its rest r :
  its <> [] ->
  spec (split_groups rm msgs order_id fo ((loc, its) :: rest) r)
    (fun _ ev => exists reply tail, ev = SplitCall fo its reply :: tail).
Proof.
  intros Hits. cbn [split_groups].
  destruct its as [|x its]; [congruence|]. cbn [nonempty negb].
  eapply spec_bind; [apply spec_split| |].
  - intros e ev ->. eauto.
  - intros [new_id st] ev1 ->.
    assert (Hany : forall (m : M results), spec m (fun _ _ => True) ->
              spec m (fun _ ev2 => exists reply tail,
                        [SplitCall fo (x :: its) (Ok (new_id, st))] ++ ev2
                        = SplitCall fo (x :: its) reply :: tail)).
    { intros m Hm. eapply spec_weaken; [exact Hm|]. intros; cbn [app]; eauto. }
    apply Hany.
    eapply spec_bind with (P := fun _ _ => True); [| |]; [|intros; exact I|].
    { eapply spec_weaken; [apply spec_sleep|]. intros; exact I. }
    intros [] ev2 _. destruct (id_truthy new_id); [|apply spec_ret; exact I].
    eapply spec_bind with (P := fun _ _ => True); [| |]; [|intros; exact I|].
    { eapply spec_weaken; [apply spec_tag_order|]. intros; exact I. }
    intros r2 ev3 _.
    eapply spec_bind with (P := fun _ _ => True); [| |]; [|intros; exact I|].
    { eapply spec_weaken; [apply spec_sleep|]. intros; exact I. }
    intros [] ev4 _.
    eapply spec_bind with (P := fun _ _ => True); [| |]; [|intros; exact I|].
    { eapply spec_weaken; [apply spec_fetch|]. intros; exact I. }
    intros fd ev5 _. destruct fd; [|apply spec_ret; exact I].
    eapply spec_weaken; [apply split_groups_runs|]. intros; exact I.
Qed.

(** The loop over groups that are not empty and hold an entry starts
    with a split. *)
Lemma split_groups_starts msgs order_id fo groups r :
  groups_nonempty groups -> total_entries groups <> 0%nat ->
  spec (split_groups rm msgs order_id fo groups r)
    (fun _ ev => exists sent reply tail, sent <> [] /\ ev = SplitCall fo sent reply :: tail).
Proof.
  intros Hne Htotal. destruct groups as [|[loc its] rest]; [contradiction|].
  inversion_clear Hne as [|? ? Hits _]. cbn [snd] in Hits.
  eapply spec_weaken; [apply split_groups_first, Hits|].
  intros out ev (reply & tail & ->). eauto.
Qed.
End FirstSplit.
(** The run of an order whose items are all external, at one location. *)
Section SingleExternalLocation.
Variable rm : remote.
Variables (oid fo : string) (details : order_details) (loc : string).
Let c := categorize_items details.
Let candidates := length_external c ++ non_length_external c.
Hypothesis Hoid : oid <> "".
Hypothesis Hext : external_location_set candidates = {[ loc ]}.
Hypothesis Hlr : length_rooftopshop c = [].
Hypothesis Hnlr : non_length_rooftopshop c = [].
Hypothesis Hdk : daktrim_koppelstukje_rooftopshop c = [].

Let tag := get_location_tag loc.
Let tagged := if tag_ok (tag_reply rm 0) then append_tag initial_results tag
              else initial_results.

Lemma candidates_exist : candidates <> [].
Proof.
  intros Hnil. rewrite Hnil in Hext. cbn in Hext.
  assert (H : loc ∈ (∅ : gset string)) by (rewrite Hext; set_solver).
  set_solver.
Qed.

Lemma summary_flags :
  has_length_items (summary c) = nonempty (length_external c)
  /\ all_items_at_rooftopshop (summary c) = false
  /\ (length_external c = [] -> all_non_length_at_rooftopshop (summary c) = false).
Proof.
  destruct (summary_of_categorize details) as [ext Hs]. fold c in Hs. rewrite Hs.
  pose proof candidates_exist as Hc. unfold candidates in Hc.
  cbn [make_summary has_length_items all_items_at_rooftopshop all_non_length_at_rooftopshop].
  rewrite Hlr. cbn [length Nat.add].
  destruct (length_external c) as [|x le], (non_length_external c) as [|y nle];
    try (exfalso; apply Hc; reflexivity); repeat split; try reflexivity; discriminate.
Qed.

Lemma pre_step_location_tag :
  spec_at [] (pre_step rm (Some oid) c initial_results)
    (fun out ev => out = Ok tagged
                   /\ ev = [TagCall (order_gid oid) tag (tag_reply rm 0)]).
Proof.
  unfold pre_step. destruct summary_flags as (Hlen & _ & _). rewrite Hlen.
  pose proof candidates_exist as Hc. unfold candidates in Hc.
  assert (Hfirst : nonempty (length_external c) && (length (length_external c) =? 0)%nat = false)
    by (destruct (length_external c); reflexivity).
  rewrite Hfirst.
  eapply spec_at_bind; [apply spec_at_ret with (Q := fun out ev => out = Ok initial_results /\ ev = []);
                        split; reflexivity| |]; [intros e ev [[=] _]|].
  intros r ev1 [[= ->] ->]. cbn [app].
  assert (Hsome : (0 <? length (length_external c))%nat
                  || (0 <? length (non_length_external c))%nat = true).
  { destruct (length_external c), (non_length_external c); try reflexivity.
    exfalso. apply Hc. reflexivity. }
  rewrite Hsome. fold candidates. rewrite Hext, size_singleton, elements_singleton.
  rewrite Hlr, Hnlr, Hdk. cbn [length Nat.add Nat.eqb andb].
  eapply spec_at_weaken; [apply at_tag_order, Hoid|].
  intros out ev [-> ->]. split; reflexivity.
Qed.

Lemma fetch_and_group (groups : order_details -> location_groups) msgs msg r :
  (forall d, groups_nonempty (groups d)) ->
  (forall d, total_entries (groups d) = length (located_in (remaining_line_items d) candidates)) ->
  spec_at [TagCall (order_gid oid) tag (tag_reply rm 0)]
    (fetched <~ get_fulfillment_order_details rm fo ;;
     match fetched with
     | None => ret (failed r msg)
     | Some d => split_groups rm msgs (Some oid) fo (groups d) r
     end)%tree
    (fetch_then_split rm fo candidates).
Proof.
  intros Hne Htotal.
  eapply spec_at_bind; [apply at_fetch| |].
  - intros e ev [He ->]. cbn [count List.filter is_fetch length] in He.
    exists []. rewrite <- He. split; [reflexivity|]. intros d [=].
  - cbn [count List.filter is_fetch length]. intros fd ev1 [Hfd ->].
    destruct fd as [d|].
    + destruct (Nat.eq_dec (length (located_in (remaining_line_items d) candidates)) 0)
        as [Hzero|Hpos].
      * eapply spec_at_weaken; [apply spec_to_at, split_groups_runs|].
        intros out ev _. exists ev. rewrite <- Hfd. split; [reflexivity|].
        intros d' [= <-] Hloc. destruct (located_in _ _); [congruence|discriminate].
      * eapply spec_at_weaken;
          [apply spec_to_at, split_groups_starts; [apply Hne|rewrite Htotal; exact Hpos]|].
        intros out ev (sent & reply & tail & Hsent & ->).
        eexists. rewrite <- Hfd. split; [reflexivity|]. intros d' _ _. eauto.
    + apply spec_at_ret. exists []. rewrite <- Hfd. split; [reflexivity|]. intros d [=].
Qed.

Lemma process_single_location :
  spec_at [] (process_fulfillment_according_to_decision_tree rm (Some oid) fo c)
    (fun _ ev => exists ev',
       ev = TagCall (order_gid oid) tag (tag_reply rm 0) :: ev'
       /\ fetch_then_split rm fo candidates (Ok tagged) ev').
Proof.
  unfold process_fulfillment_according_to_decision_tree.
  destruct summary_flags as (Hlen & Hall & Hnl).
  eapply spec_at_bind; [apply pre_step_location_tag| |]; [intros e ev [[=] _]|].
  intros r ev1 [[= ->] ->]. cbn [app].
  assert (Hwrap : forall (m : M results) (c' : categories),
            spec_at [TagCall (order_gid oid) tag (tag_reply rm 0)] m
              (fetch_then_split rm fo candidates) ->
            spec_at [TagCall (order_gid oid) tag (tag_reply rm 0)]
              (r' <~ m ;; ret (r', c'))%tree
              (fun _ ev2 => exists ev',
                 [TagCall (order_gid oid) tag (tag_reply rm 0)] ++ ev2
                 = TagCall (order_gid oid) tag (tag_reply rm 0) :: ev'
                 /\ fetch_then_split rm fo candidates (Ok tagged) ev')).
  { intros m c' Hm. eapply spec_at_bind; [exact Hm| |].
    - intros e ev H. exists ev. split; [reflexivity|exact H].
    - intros r' ev H. apply spec_at_ret. rewrite app_nil_r. exists ev.
      split; [reflexivity|exact H]. }
  rewrite Hlen. destruct (nonempty (length_external c)) eqn:Hne; apply Hwrap.
  2: assert (Hle : length_external c = [])
       by (destruct (length_external c); [reflexivity|discriminate]).
  - (* length items, none at home *)
    unfold length_branch, split_length_rooftopshop. rewrite Hlr. cbn [nonempty].
    eapply spec_at_bind;
      [apply spec_at_ret with (Q := fun out ev => out = Ok (inr (tagged, None)) /\ ev = []);
       split; reflexivity| |]; [intros e ev [[=] _]|].
    intros step ev1 [[= ->] ->]. rewrite Hall. cbn [negb app]. rewrite ?app_nil_r.
    eapply spec_at_weaken.
    + apply (fetch_and_group
               (fun d => group_remaining (remaining_line_items d) (non_length_external c)
                           (group_remaining (remaining_line_items d) (length_external c) []))
               length_branch_messages
               "Failed to get fulfillment order details before splitting external items"
               tagged).
      * intros d. do 2 apply group_remaining_nonempty. constructor.
      * intros d. rewrite !group_remaining_total. unfold candidates.
        rewrite located_in_app, length_app. reflexivity.
    + intros out ev H. exact H.
  - (* no length item: the branch without length items *)
    unfold no_length_branch. cbn [fold_koppelstukje summary lists non_length_external].
    rewrite (Hnl Hle).
    apply (fetch_and_group
             (fun d => group_remaining (remaining_line_items d) (non_length_external c) [])).
    + intros d. apply group_remaining_nonempty. constructor.
    + intros d. rewrite group_remaining_total. unfold candidates. rewrite Hle. reflexivity.
Qed.
End SingleExternalLocation.

Lemma singleton_of_elements (s : gset string) (x : string) : elements s = [x] -> s = {[ x ]}.
Proof.
  intros H. apply set_eq. intros y.
  rewrite <- elem_of_elements, H, list_elem_of_singleton, elem_of_singleton. reflexivity.
Qed.

(** C3, as the code has it. When the classified items are all external
    and have one external location between them, and an order id is
    given, the run starts by tagging the order with the tag of that
    location and then goes on with the tree all the same: its next call
    is the fetch of the order, and when the fetch gives a snapshot in
    which one of the items still has a location, the call after that is a
    split. The tag is the first entry of [tags_added] when its call went
    through. *)
Theorem single_external_location_tagged_then_split (rm : remote) (oid fo : string)
    (details : order_details) (loc : string) :
  oid <> "" ->
  let c := categorize_items details in
  let candidates := length_external c ++ non_length_external c in
  elements (external_location_set candidates) = [loc] ->
  length_rooftopshop c = [] ->
  non_length_rooftopshop c = [] ->
  daktrim_koppelstukje_rooftopshop c = [] ->
  exists rest,
    snd (run rm (Some oid) fo c)
    = TagCall (order_gid oid) (get_location_tag loc) (tag_reply rm 0)
        :: FetchCall fo (fetch_reply rm 0) :: rest
    /\ (forall d, fetch_reply rm 0 = Ok (Some d) ->
          located_in (remaining_line_items d) candidates <> [] ->
          exists sent reply rest', sent <> [] /\ rest = SplitCall fo sent reply :: rest')
    /\ (forall r c', fst (run rm (Some oid) fo c) = Ok (r, c') ->
          exists more,
            tags_added r
            = (if tag_ok (tag_reply rm 0) then [get_location_tag loc] else []) ++ more).
Proof.
  intros Hoid c candidates Hext%singleton_of_elements Hlr Hnlr Hdk.
  destruct (process_single_location rm oid fo details loc Hoid Hext Hlr Hnlr Hdk)
    as (out & ev & Hrun & ev' & -> & rest & -> & Hsplit).
  fold c in Hrun. unfold run. rewrite Hrun. cbn [fst snd app].
  exists rest. split; [reflexivity|]. split; [exact Hsplit|].
  intros r c' ->.
  destruct (process_tracked rm (Some oid) fo c []) as (out' & ev2 & Hrun' & Hpost).
  rewrite Hrun in Hrun'. injection Hrun' as <- <-.
  destruct Hpost as [[Htags _] _]. rewrite Htags.
  cbn [initial_results tags_added app committed_tags flat_map].
  eexists. reflexivity.
Qed.

(** Two plain items at Compri Aluminium, everything going through, the
    order found unchanged: a tag, the fetch, and then the split. *)
Lemma single_external_location_tagged_then_split_witness :
  exists rest,
    snd (run (accepting_unchanged two_compri_items) (Some "9")
           "gid://shopify/FulfillmentOrder/1" (categorize_items two_compri_items))
    = TagCall "gid://shopify/Order/9" "compriFulfillment" tag_accepted
        :: FetchCall "gid://shopify/FulfillmentOrder/1" (Ok (Some two_compri_items))
        :: rest
    /\ exists sent reply rest', sent <> [] /\
         rest = SplitCall "gid://shopify/FulfillmentOrder/1" sent reply :: rest'.
Proof.
  destruct (single_external_location_tagged_then_split
              (accepting_unchanged two_compri_items) "9" "gid://shopify/FulfillmentOrder/1"
              two_compri_items "Compri Aluminium")
    as (rest & Hlog & Hsplit & _).
  - discriminate.
  - vm_compute. reflexivity.
  - reflexivity.
  - reflexivity.
  - reflexivity.
  - exists rest. split; [exact Hlog|].
    apply (Hsplit two_compri_items); [reflexivity|]. vm_compute. discriminate.
Defined.

(** C3 as stated fails on the order of its own example, two plain items
    both at Compri Aluminium only (one external location, nothing at
    home): after the tag the tree splits. When the split goes through it
    is recorded in [splits]; when it is refused the result has [success]
    false. *)
Lemma single_external_location_is_still_split :
  let c := categorize_items two_compri_items in
  let both :=
    [{| split_id := "gid://shopify/FulfillmentOrderLineItem/1"; split_quantity := 1 |};
     {| split_id := "gid://shopify/FulfillmentOrderLineItem/2"; split_quantity := 5 |}] in
  size (external_location_set (length_external c ++ non_length_external c)) = 1%nat
  /\ length_rooftopshop c = [] /\ non_length_rooftopshop c = []
  /\ daktrim_koppelstukje_rooftopshop c = []
  /\ (exists r c',
        fst (run (accepting_unchanged two_compri_items) (Some "9")
               "gid://shopify/FulfillmentOrder/1" c) = Ok (r, c')
        /\ map split_summary (splits r) = [(both, "gid://shopify/FulfillmentOrder/2", "OPEN")]
        /\ In (SplitCall "gid://shopify/FulfillmentOrder/1" both
                 (Ok (Some "gid://shopify/FulfillmentOrder/2", "OPEN")))
              (snd (run (accepting_unchanged two_compri_items) (Some "9")
                      "gid://shopify/FulfillmentOrder/1" c)))
  /\ (exists r c',
        fst (run (refusing_unchanged two_compri_items) (Some "9")
               "gid://shopify/FulfillmentOrder/1" c) = Ok (r, c')
        /\ success r = false
        /\ In (SplitCall "gid://shopify/FulfillmentOrder/1" both
                 (Ok (None, "No splits returned from API")))
              (snd (run (refusing_unchanged two_compri_items) (Some "9")
                      "gid://shopify/FulfillmentOrder/1" c))).
Proof.
  cbv zeta. split; [vm_compute; reflexivity|]. do 3 (split; [reflexivity|]). split.
  - eexists _, _. split; [vm_compute; reflexivity|]. split; [reflexivity|].
    vm_compute. right. right. left. reflexivity.
  - eexists _, _. split; [vm_compute; reflexivity|]. split; [reflexivity|].
    vm_compute. right. right. left. reflexivity.
Qed.

(** The same order on a remote side that accepts every tag and on one
    that rejects every tag: the same calls and the same outcome, three
    tags reported in the first run and none in the second. *)
Lemma tag_failures_change_tags_added_only_witness :
  (let '(out1, log1) :=
     run accepting (Some "9") "gid://shopify/FulfillmentOrder/1"
       (categorize_items length_home_and_redfox) in
   let '(out2, log2) :=
     run (with_tag_replies accepting (fun _ => tag_rejected)) (Some "9")
       "gid://shopify/FulfillmentOrder/1" (categorize_items length_home_and_redfox) in
   same_calls log1 log2
   /\ match out1, out2 with
      | Ok (r1, c1), Ok (r2, c2) =>
          success r1 = success r2 /\ splits r1 = splits r2 /\ error r1 = error r2
          /\ c1 = c2
          /\ tags_added r1 = committed_tags log1
          /\ tags_added r2 = committed_tags log2
      | Raise e1, Raise e2 => e1 = e2
      | _, _ => False
      end)
  /\ tags_of (run accepting (Some "9") "gid://shopify/FulfillmentOrder/1"
               (categorize_items length_home_and_redfox))
     = ["daktrimFulfillment"; "daktrimFulfillment"; "redfoxFulfillment"]
  /\ tags_of (run (with_tag_replies accepting (fun _ => tag_rejected)) (Some "9")
               "gid://shopify/FulfillmentOrder/1" (categorize_items length_home_and_redfox))
     = [].
Proof.
  split; [|split; vm_compute; reflexivity].
  apply (tag_failures_change_tags_added_only accepting (fun _ => tag_rejected) (Some "9")
           "gid://shopify/FulfillmentOrder/1" (categorize_items length_home_and_redfox)).
Defined.

(** An item at home and at Compri Aluminium is filed under Compri
    Aluminium; an item without location is filed under [unknown] by
    [group_by_external_location]. *)
Lemma grouping_by_first_external_location_witness :
  In (to_split home_then_compri)
     (group_at "Compri Aluminium"
        (group_by_external_location [home_then_compri; details_of nowhere_item]))
  /\ In (to_split (details_of nowhere_item))
        (group_at "unknown"
           (group_by_external_location [home_then_compri; details_of nowhere_item])).
Proof.
  destruct grouping_by_first_external_location as (Hstandalone & _).
  destruct (Hstandalone [home_then_compri; details_of nowhere_item]) as [Hfile _].
  split.
  - apply (Hfile home_then_compri). left. reflexivity.
  - apply (Hfile (details_of nowhere_item)). right. left. reflexivity.
Defined.

(* ===================================================================== *)
(** * Further properties of send_request_with_retry                       *)
(* ===================================================================== *)

Lemma posts_app tr1 tr2 : posts (tr1 ++ tr2) = (posts tr1 + posts tr2)%nat.
Proof. unfold posts. rewrite List.filter_app, length_app. reflexivity. Qed.

Lemma waited_app tr1 tr2 : waited (tr1 ++ tr2) = (waited tr1 + waited tr2)%Z.
Proof.
  induction tr1 as [|e tr1 IH]; cbn [app waited]; [reflexivity|].
  destruct e; lia.
Qed.

Lemma posts_failed_attempts max_retries delay from n :
  posts (failed_attempts max_retries delay from n) = n.
Proof.
  revert from. induction n as [|n IH]; intros from; cbn [failed_attempts]; [reflexivity|].
  rewrite posts_app, IH. destruct (_ <? _)%Z; reflexivity.
Qed.

(** The time slept by failed attempts none of which is the last one
    allowed: the base delay times the sum of their numbers. *)
Lemma waited_failed_attempts max_retries delay from n :
  (Z.of_nat (from + n) < max_retries)%Z ->
  (2 * waited (failed_attempts max_retries delay from n)
   = 1000 * delay * (Z.of_nat n * (2 * Z.of_nat from + Z.of_nat n + 1)))%Z.
Proof.
  revert from. induction n as [|n IH]; intros from Hlt; cbn [failed_attempts]; [cbn; lia|].
  rewrite waited_app.
  destruct (Z.ltb_spec (Z.of_nat from + 1) max_retries) as [_|Hge]; [|lia].
  specialize (IH (S from) ltac:(lia)).
  cbn [waited]. nia.
Qed.

Lemma failed_attempts_app max_retries delay from n m :
  failed_attempts max_retries delay from (n + m)
  = failed_attempts max_retries delay from n
    ++ failed_attempts max_retries delay (from + n) m.
Proof.
  revert from. induction n as [|n IH]; intros from; cbn [Nat.add failed_attempts app].
  - rewrite Nat.add_0_r. reflexivity.
  - rewrite IH, <- app_assoc, Nat.add_succ_r. reflexivity.
Qed.

(** All the attempts allowed, failed: the last one is not followed by a
    wait. *)
Lemma waited_all_failed max_retries delay :
  let n := Z.to_nat max_retries in
  (2 * waited (failed_attempts max_retries delay 0 n)
   = 1000 * delay * (Z.of_nat n * (Z.of_nat n - 1)))%Z.
Proof.
  cbv zeta. destruct (Z.to_nat max_retries) as [|m] eqn:Hn; [cbn; lia|].
  assert (Hmr : max_retries = (Z.of_nat m + 1)%Z) by lia.
  replace (S m) with (m + 1)%nat by lia.
  rewrite failed_attempts_app, waited_app.
  pose proof (waited_failed_attempts max_retries delay 0 m ltac:(lia)) as Hw.
  cbn [failed_attempts Nat.add app].
  destruct (Z.ltb_spec (Z.of_nat m + 1) max_retries) as [Hlt|Hge]; [exfalso; lia|].
  cbn [waited app]. replace (Z.of_nat (m + 1)) with (Z.of_nat m + 1)%Z by lia.
  replace (Z.of_nat 0) with 0%Z in Hw by reflexivity. nia.
Qed.

(** X1. What a call costs. The executor never makes more requests than
    [max_retries], and none at all when [max_retries] is zero or negative
    (it then returns [None] at once). When it returns [None] it has made
    exactly [max_retries] requests and slept [delay * (1 + ... +
    (max_retries - 1))] seconds; when it returns the body of attempt [k]
    (from 0) it has made [k + 1] requests and slept [delay * (1 + ... + k)]
    seconds and the half second after the answer. *)
Theorem send_request_with_retry_cost (http : nat -> attempt_outcome) (max_retries delay : Z) :
  let n := Z.to_nat max_retries in
  let '(result, trace) := send_request_with_retry http max_retries delay in
  (posts trace <= n)%nat
  /\ ((max_retries <= 0)%Z -> result = None /\ trace = [])
  /\ (result = None ->
        posts trace = n
        /\ (2 * waited trace = 1000 * delay * (Z.of_nat n * (Z.of_nat n - 1)))%Z)
  /\ (forall body, result = Some body ->
        exists k, (k < n)%nat /\ http k = Response 200 body
          /\ posts trace = S k
          /\ (2 * waited trace = 1000 * delay * (Z.of_nat k * (Z.of_nat k + 1)) + 1000)%Z).
Proof.
  intros n. unfold send_request_with_retry. fold n.
  destruct (first_answer http n 0) as [Hall | (k & body & Hk & Hbefore & Hat)].
  - rewrite (attempts_from_failed http max_retries delay n 0 Hall).
    rewrite posts_failed_attempts.
    split; [lia|]. split; [|split].
    + intros Hle. split; [reflexivity|].
      replace n with 0%nat by (subst n; lia). reflexivity.
    + intros _. split; [reflexivity|apply waited_all_failed].
    + discriminate.
  - rewrite (attempts_from_answered http max_retries delay n 0 k body Hk Hbefore Hat).
    rewrite Nat.sub_0_r, posts_app, posts_failed_attempts, waited_app.
    split; [cbn; lia|]. split; [|split].
    + intros Hle. exfalso. subst n. lia.
    + discriminate.
    + intros body' [= <-]. exists k. split; [lia|]. split; [exact Hat|].
      split; [cbn; lia|].
      pose proof (waited_failed_attempts max_retries delay 0 k ltac:(subst n; cbn; lia)) as Hw.
      cbn [waited]. lia.
Qed.

(** Three refused requests with the defaults: three posts, six seconds
    slept. *)
Lemma send_request_with_retry_cost_witness :
  fst (send_request_with_retry (fun _ => RequestException) 3 2) = None
  /\ posts (snd (send_request_with_retry (fun _ => RequestException) 3 2)) = 3%nat
  /\ waited (snd (send_request_with_retry (fun _ => RequestException) 3 2)) = 6000%Z.
Proof.
  pose proof (send_request_with_retry_cost (fun _ => RequestException) 3 2) as H.
  cbv zeta in H.
  destruct (send_request_with_retry (fun _ => RequestException) 3 2) as [result trace] eqn:E.
  destruct H as (_ & _ & Hnone & _).
  assert (Hr : result = None) by (vm_compute in E; injection E as <- _; reflexivity).
  destruct (Hnone Hr) as [Hp Hw].
  split; [exact Hr|]. split; [exact Hp|].
  change (Z.of_nat (Z.to_nat 3)) with 3%Z in Hw. cbn [snd]. lia.
Defined.

(* ===================================================================== *)
(** * Further properties of the fetcher                                   *)
(* ===================================================================== *)

(** X2. An order without line items is a result, not a failure: when the
    response has no [errors] key and holds an order whose [edges] value is
    falsy (an empty list, [null]), the fetcher returns details with the
    order's status and no line item. *)
Theorem get_fulfillment_order_details_no_line_items
    (json_loads : pyval -> res pyval) (fo_id : string) (d data order lis : pydict)
    (st edges : pyval) :
  dict_has "errors" d = false ->
  dict_lookup "data" d = Some (PDict data) ->
  dict_lookup "fulfillmentOrder" data = Some (PDict order) ->
  order <> [] ->
  dict_lookup "status" order = Some st ->
  dict_lookup "lineItems" order = Some (PDict lis) ->
  dict_lookup "edges" lis = Some edges ->
  truthy edges = false ->
  Fetcher.get_fulfillment_order_details json_loads fo_id (Some d)
  = Ok (Some {| Fetcher.fulfillment_order_id := fo_id;
                Fetcher.status := st;
                Fetcher.line_items := [] |}).
Proof.
  intros Herr Hdata Horder Hne Hst Hlis Hedges Hfalsy.
  unfold Fetcher.get_fulfillment_order_details, Fetcher.fetch_failed, Fetcher.parse_details.
  destruct d as [|kv d']; [discriminate|].
  cbn [result_value truthy negb py_contains res_bind py_get py_index].
  rewrite Herr, Hdata. cbn [res_bind py_get py_index]. rewrite Horder.
  destruct order as [|kv' order']; [congruence|].
  cbn [truthy negb res_bind py_index]. rewrite Hst, Hlis. cbn [res_bind py_index].
  rewrite Hedges. cbn [res_bind]. rewrite Hfalsy. reflexivity.
Qed.

(** An open order with an empty list of edges. *)
Lemma get_fulfillment_order_details_no_line_items_witness :
  Fetcher.get_fulfillment_order_details Json.loads "gid://shopify/FulfillmentOrder/1"
    (Some (response_of (PStr "OPEN") []))
  = Ok (Some {| Fetcher.fulfillment_order_id := "gid://shopify/FulfillmentOrder/1";
                Fetcher.status := PStr "OPEN";
                Fetcher.line_items := [] |}).
Proof.
  eapply (get_fulfillment_order_details_no_line_items Json.loads
            "gid://shopify/FulfillmentOrder/1" (response_of (PStr "OPEN") []));
    try reflexivity.
  discriminate.
Defined.

(** X3. A response whose [data] is not an object (for instance [null])
    and that has no [errors] key makes the fetcher raise [AttributeError]:
    the failure check calls [get] on it. *)
Theorem get_fulfillment_order_details_data_not_a_dict
    (json_loads : pyval -> res pyval) (fo_id : string) (d : pydict) (data : pyval) :
  dict_has "errors" d = false ->
  dict_lookup "data" d = Some data ->
  (forall x, data <> PDict x) ->
  Fetcher.get_fulfillment_order_details json_loads fo_id (Some d) = Raise AttributeError.
Proof.
  intros Herr Hdata Hnd.
  unfold Fetcher.get_fulfillment_order_details, Fetcher.fetch_failed.
  destruct d as [|kv d']; [discriminate|].
  cbn [result_value truthy negb py_contains res_bind py_get].
  rewrite Herr, Hdata. cbn [res_bind].
  destruct data; try reflexivity. exfalso. eapply Hnd. reflexivity.
Qed.

Lemma get_fulfillment_order_details_data_not_a_dict_witness :
  Fetcher.get_fulfillment_order_details Json.loads "gid://shopify/FulfillmentOrder/1"
    (Some [("data", PNone)]) = Raise AttributeError.
Proof.
  apply (get_fulfillment_order_details_data_not_a_dict Json.loads _ _ PNone);
    [reflexivity|reflexivity|discriminate].
Defined.

Lemma py_eq_str_true v s : py_eq_str v s = true -> v = PStr s.
Proof.
  destruct v; try discriminate. cbn. intros H%String.eqb_eq. congruence.
Qed.

(** One metafield changes the field of its key, if it has one of the three
    keys, and nothing else. *)
Lemma metafield_step_dict_value json_loads locs lt dk (m : pydict) :
  Fetcher.metafield_step json_loads (locs, lt, dk) (PDict m)
  = Ok (if py_eq_str (metafield_key m) "availability_location"
        then Fetcher.parse_availability_location json_loads (metafield_value m) else locs,
        if py_eq_str (metafield_key m) "length_transport"
        then Fetcher.parse_flag (metafield_value m) else lt,
        if py_eq_str (metafield_key m) "daktrim_koppelstukje"
        then Fetcher.parse_flag (metafield_value m) else dk).
Proof.
  unfold Fetcher.metafield_step, metafield_key, metafield_value. cbn [py_get res_bind].
  set (k := match dict_lookup "key" m with Some x => x | None => PStr "" end).
  destruct (py_eq_str k "availability_location") eqn:H1.
  - apply py_eq_str_true in H1. rewrite H1. reflexivity.
  - destruct (py_eq_str k "length_transport") eqn:H2.
    + apply py_eq_str_true in H2. rewrite H2. reflexivity.
    + destruct (py_eq_str k "daktrim_koppelstukje"); reflexivity.
Qed.

Lemma fold_metafields_last json_loads (ms : list pydict) locs lt dk :
  Fetcher.fold_res (Fetcher.metafield_step json_loads) (map PDict ms) (locs, lt, dk)
  = Ok (match last_value "availability_location" ms with
        | Some v => Fetcher.parse_availability_location json_loads v
        | None => locs
        end,
        match last_value "length_transport" ms with
        | Some v => Fetcher.parse_flag v
        | None => lt
        end,
        match last_value "daktrim_koppelstukje" ms with
        | Some v => Fetcher.parse_flag v
        | None => dk
        end).
Proof.
  revert locs lt dk. induction ms as [|m ms IH]; intros locs lt dk; [reflexivity|].
  cbn [map Fetcher.fold_res last_value]. rewrite metafield_step_dict_value. cbn [res_bind].
  rewrite IH.
  destruct (last_value "availability_location" ms), (last_value "length_transport" ms),
    (last_value "daktrim_koppelstukje" ms);
    repeat match goal with |- context [if ?b then _ else _] => destruct b end; reflexivity.
Qed.

(** X4. The metafields of a line item are read in order and, for each of
    the three keys, the last metafield with that key decides: the location
    list is the normalised value of the last [availability_location], each
    flag the normalised value of the last metafield of its key. Metafields
    with other keys change nothing, and a key that does not occur leaves
    the default (no location, flag false). *)
Theorem line_item_metafields_last_wins (json_loads : pyval -> res pyval)
    (folid lid nm sk qty : pyval) (ms : list pydict) :
  Fetcher.parse_edge json_loads (edge_of folid lid nm sk qty ms)
  = Ok {| Fetcher.fulfillment_order_line_item_id := folid;
          Fetcher.line_item_id := lid;
          Fetcher.name := nm;
          Fetcher.sku := sk;
          Fetcher.quantity := qty;
          Fetcher.available_locations :=
            match last_value "availability_location" ms with
            | Some v => Fetcher.parse_availability_location json_loads v
            | None => []
            end;
          Fetcher.is_length_transport :=
            match last_value "length_transport" ms with
            | Some v => Fetcher.parse_flag v
            | None => false
            end;
          Fetcher.is_daktrim_koppelstukje :=
            match last_value "daktrim_koppelstukje" ms with
            | Some v => Fetcher.parse_flag v
            | None => false
            end |}.
Proof.
  unfold Fetcher.parse_edge, edge_of.
  cbn [py_index py_get dict_lookup String.eqb Ascii.eqb Bool.eqb res_bind].
  destruct ms as [|m ms]; [reflexivity|].
  cbn [map truthy py_iter res_bind].
  change (PDict m :: map PDict ms) with (map PDict (m :: ms)).
  rewrite fold_metafields_last. reflexivity.
Qed.

Lemma lower_ascii_letter (c l : ascii) :
  (97 <= nat_of_ascii l <= 122)%nat ->
  lower_ascii c = l <-> letter l (ascii_of_nat (nat_of_ascii l - 32)) c.
Proof.
  intros Hl. unfold letter, lower_ascii.
  pose proof (nat_ascii_bounded c) as Hc.
  destruct ((65 <=? nat_of_ascii c)%nat && (nat_of_ascii c <=? 90)%nat) eqn:Hup.
  - apply andb_true_iff in Hup as [H1%Nat.leb_le H2%Nat.leb_le]. split.
    + intros <-. right. rewrite nat_ascii_embedding by lia.
      replace (nat_of_ascii c + 32 - 32)%nat with (nat_of_ascii c) by lia.
      symmetry. apply ascii_nat_embedding.
    + intros [->| ->]; [lia|].
      rewrite nat_ascii_embedding by lia.
      replace (nat_of_ascii l - 32 + 32)%nat with (nat_of_ascii l) by lia.
      apply ascii_nat_embedding.
  - split; [intros ->; left; reflexivity|].
    intros [->| ->]; [reflexivity|]. exfalso.
    rewrite nat_ascii_embedding in Hup by lia.
    apply andb_false_iff in Hup as [H%Nat.leb_gt|H%Nat.leb_gt]; lia.
Qed.

(** X5. A flag metafield is true exactly when its value is a string that
    spells [true] in any mix of cases; every other value, text or not,
    gives false. *)
Theorem parse_flag_true_iff (value : pyval) :
  Fetcher.parse_flag value = true
  <-> exists c1 c2 c3 c4,
        value = PStr (String c1 (String c2 (String c3 (String c4 EmptyString))))
        /\ letter "t" "T" c1 /\ letter "r" "R" c2 /\ letter "u" "U" c3 /\ letter "e" "E" c4.
Proof.
  assert (Ht := fun c => lower_ascii_letter c "t" ltac:(vm_compute; lia)).
  assert (Hr := fun c => lower_ascii_letter c "r" ltac:(vm_compute; lia)).
  assert (Hu := fun c => lower_ascii_letter c "u" ltac:(vm_compute; lia)).
  assert (He := fun c => lower_ascii_letter c "e" ltac:(vm_compute; lia)).
  cbn in Ht, Hr, Hu, He.
  unfold Fetcher.parse_flag. split.
  - destruct value as [| | | |s| |]; try discriminate. cbn [py_lower].
    intros H%String.eqb_eq.
    destruct s as [|c1 [|c2 [|c3 [|c4 [|c5 s]]]]]; try discriminate.
    cbn [str_lower] in H. injection H as H1 H2 H3 H4.
    exists c1, c2, c3, c4. split; [reflexivity|].
    rewrite <- Ht, <- Hr, <- Hu, <- He. repeat split; assumption.
  - intros (c1 & c2 & c3 & c4 & -> & H1 & H2 & H3 & H4).
    cbn [py_lower str_lower]. apply String.eqb_eq.
    apply Ht in H1. apply Hr in H2. apply Hu in H3. apply He in H4.
    rewrite H1, H2, H3, H4. reflexivity.
Qed.

Lemma parse_flag_true_iff_witness : Fetcher.parse_flag (PStr "True") = true.
Proof.
  apply (proj2 (parse_flag_true_iff (PStr "True"))).
  exists "T"%char, "r"%char, "u"%char, "e"%char. unfold letter. tauto.
Defined.

Lemma map_res_raise {A B} (f : A -> res B) l1 x l2 ys e :
  Fetcher.map_res f l1 = Ok ys -> f x = Raise e ->
  Fetcher.map_res f (l1 ++ x :: l2) = Raise e.
Proof.
  revert ys. induction l1 as [|a l1 IH]; intros ys Hl1 Hx; cbn [app Fetcher.map_res].
  - rewrite Hx. reflexivity.
  - cbn [Fetcher.map_res] in Hl1. destruct (f a) as [b|e']; cbn [res_bind] in *; [|discriminate].
    destruct (Fetcher.map_res f l1) as [bs|e']; cbn [res_bind] in *; [|discriminate].
    rewrite (IH bs eq_refl Hx). reflexivity.
Qed.

(** The fetch of a response that holds an order with at least one edge
    is the loop over the edges. *)
Lemma fetch_of_edges json_loads fo_id st edge edges :
  Fetcher.get_fulfillment_order_details json_loads fo_id (Some (response_of st (edge :: edges)))
  = match Fetcher.map_res (Fetcher.parse_edge json_loads) (edge :: edges) with
    | Ok items =>
        Ok (Some {| Fetcher.fulfillment_order_id := fo_id;
                    Fetcher.status := st;
                    Fetcher.line_items := items |})
    | Raise e => Raise e
    end.
Proof.
  unfold Fetcher.get_fulfillment_order_details, Fetcher.fetch_failed,
    Fetcher.parse_details, response_of.
  cbn [result_value truthy negb py_contains dict_has dict_lookup String.eqb Ascii.eqb
       Bool.eqb res_bind py_get py_index py_iter].
  destruct (Fetcher.map_res _ _); reflexivity.
Qed.

(** X6. A line item whose [variant] is null makes the whole fetch raise
    [AttributeError]: the default of [get('variant', {})] is for a missing
    key only. The line items before it are read, the ones after it are
    not looked at, and no details come back, not even [None]. *)
Theorem get_fulfillment_order_details_null_variant (json_loads : pyval -> res pyval)
    (fo_id : string) (st folid : pyval) (item : pydict)
    (before : list (pyval * pyval * pyval * pyval * pyval * list pydict))
    (after : list pyval) :
  dict_lookup "variant" item = Some PNone ->
  Fetcher.get_fulfillment_order_details json_loads fo_id
    (Some (response_of st
       (map (fun '(folid, lid, nm, sk, qty, ms) => edge_of folid lid nm sk qty ms) before
        ++ edge_with folid item :: after)))
  = Raise AttributeError.
Proof.
  intros Hvariant.
  destruct (map_parse_edges json_loads before) as (its & Hits & _).
  assert (Hbad : Fetcher.parse_edge json_loads (edge_with folid item) = Raise AttributeError).
  { unfold Fetcher.parse_edge, edge_with.
    cbn [py_index py_get dict_lookup String.eqb Ascii.eqb Bool.eqb res_bind].
    rewrite Hvariant. reflexivity. }
  pose proof (map_res_raise _ _ _ after _ _ Hits Hbad) as Hall.
  destruct (map _ before ++ edge_with folid item :: after) as [|edge edges] eqn:Hedges.
  { destruct (map _ before); discriminate. }
  rewrite fetch_of_edges, Hall. reflexivity.
Qed.

Lemma get_fulfillment_order_details_null_variant_witness :
  Fetcher.get_fulfillment_order_details Json.loads "gid://shopify/FulfillmentOrder/1"
    (Some (response_of (PStr "OPEN")
       [edge_of (PStr "gid://shopify/FulfillmentOrderLineItem/1")
                (PStr "gid://shopify/LineItem/1") (PStr "Daktrim") (PStr "DT-1") (PInt 2) [];
        edge_with (PStr "gid://shopify/FulfillmentOrderLineItem/2")
          [("quantity", PInt 1); ("id", PStr "gid://shopify/LineItem/2");
           ("name", PStr "Custom item"); ("sku", PNone); ("variant", PNone)]]))
  = Raise AttributeError.
Proof.
  apply (get_fulfillment_order_details_null_variant Json.loads
           "gid://shopify/FulfillmentOrder/1" (PStr "OPEN")
           (PStr "gid://shopify/FulfillmentOrderLineItem/2")
           [("quantity", PInt 1); ("id", PStr "gid://shopify/LineItem/2");
            ("name", PStr "Custom item"); ("sku", PNone); ("variant", PNone)]
           [(PStr "gid://shopify/FulfillmentOrderLineItem/1",
             PStr "gid://shopify/LineItem/1", PStr "Daktrim", PStr "DT-1", PInt 2, [])]
           []).
  reflexivity.
Defined.

(** X7. A line item without a [variant] key is read with the defaults: no
    location, both flags false, and the empty string for a missing [sku].
    Its [id], [name] and [quantity] have no default: when one of them is
    missing the loop raises [KeyError]. *)
Theorem line_item_without_variant (json_loads : pyval -> res pyval)
    (folid : pyval) (item : pydict) :
  dict_lookup "variant" item = None ->
  Fetcher.parse_edge json_loads (edge_with folid item)
  = match dict_lookup "id" item, dict_lookup "name" item, dict_lookup "quantity" item with
    | Some lid, Some nm, Some qty =>
        Ok {| Fetcher.fulfillment_order_line_item_id := folid;
              Fetcher.line_item_id := lid;
              Fetcher.name := nm;
              Fetcher.sku := match dict_lookup "sku" item with
                             | Some sk => sk
                             | None => PStr ""
                             end;
              Fetcher.quantity := qty;
              Fetcher.available_locations := [];
              Fetcher.is_length_transport := false;
              Fetcher.is_daktrim_koppelstukje := false |}
    | _, _, _ => Raise KeyError
    end.
Proof.
  intros Hvariant. unfold Fetcher.parse_edge, edge_with.
  cbn [py_index py_get dict_lookup String.eqb Ascii.eqb Bool.eqb res_bind].
  rewrite Hvariant. cbn [py_get dict_lookup truthy res_bind].
  destruct (dict_lookup "id" item); [|reflexivity].
  destruct (dict_lookup "name" item); [|reflexivity].
  cbn [res_bind].
  destruct (dict_lookup "quantity" item); reflexivity.
Qed.

Lemma line_item_without_variant_witness :
  Fetcher.parse_edge Json.loads
    (edge_with (PStr "gid://shopify/FulfillmentOrderLineItem/1")
       [("quantity", PInt 1); ("id", PStr "gid://shopify/LineItem/1")])
  = Raise KeyError.
Proof.
  apply (line_item_without_variant Json.loads (PStr "gid://shopify/FulfillmentOrderLineItem/1")
           [("quantity", PInt 1); ("id", PStr "gid://shopify/LineItem/1")]).
  reflexivity.
Defined.

(* ===================================================================== *)
(** * The summary of the classifier                                       *)
(* ===================================================================== *)

Lemma existsb_pointwise {A} (p q : A -> bool) l :
  (forall x, p x = q x) -> existsb p l = existsb q l.
Proof. intros H. induction l as [|x l IH]; cbn; [reflexivity|]. rewrite H, IH. reflexivity. Qed.

Lemma forallb_pointwise {A} (p q : A -> bool) l :
  (forall x, p x = q x) -> forallb p l = forallb q l.
Proof. intros H. induction l as [|x l IH]; cbn; [reflexivity|]. rewrite H, IH. reflexivity. Qed.

Lemma some_item_for k1 k2 l :
  (0 <? length (items_for k1 l) + length (items_for k2 l))%nat
  = existsb (fun item => bool_decide (bucket_of item = k1) || bool_decide (bucket_of item = k2)) l.
Proof.
  unfold items_for. induction l as [|item l IH]; [reflexivity|].
  cbn [List.filter existsb]. rewrite <- IH.
  destruct (bool_decide (bucket_of item = k1)), (bool_decide (bucket_of item = k2));
    cbn [length orb]; try reflexivity.
  all: rewrite ?Nat.add_succ_r; reflexivity.
Qed.

Lemma no_item_for k1 k2 l :
  (length (items_for k1 l) + length (items_for k2 l) =? 0)%nat
  = forallb (fun item => negb (bool_decide (bucket_of item = k1))
                         && negb (bool_decide (bucket_of item = k2))) l.
Proof.
  unfold items_for. induction l as [|item l IH]; [reflexivity|].
  cbn [List.filter forallb]. rewrite <- IH.
  destruct (bool_decide (bucket_of item = k1)), (bool_decide (bucket_of item = k2));
    cbn [length negb andb]; try reflexivity.
  all: rewrite ?Nat.add_succ_r; reflexivity.
Qed.

Lemma bucket_length key details :
  length (get_bucket key (categorize_items details))
  = length (items_for key (line_items details)).
Proof. rewrite categorize_items_bucket. apply length_map. Qed.

Lemma some_item_for_one k l :
  (0 <? length (items_for k l))%nat
  = existsb (fun item => bool_decide (bucket_of item = k)) l.
Proof.
  unfold items_for. induction l as [|item l IH]; [reflexivity|].
  cbn [List.filter existsb]. rewrite <- IH.
  destruct (bool_decide (bucket_of item = k)); reflexivity.
Qed.

Lemma no_item_for_one k l :
  (length (items_for k l) =? 0)%nat
  = forallb (fun item => negb (bool_decide (bucket_of item = k))) l.
Proof.
  unfold items_for. induction l as [|item l IH]; [reflexivity|].
  cbn [List.filter forallb]. rewrite <- IH.
  destruct (bool_decide (bucket_of item = k)); reflexivity.
Qed.

Ltac by_cascade :=
  let item := fresh "item" in
  intros item; unfold bucket_of, koppelstukje_at_home, at_home;
  destruct (is_daktrim_koppelstukje item), (is_length_transport item),
    (is_in home (available_locations item)); reflexivity.

(** Two flags of the summary, read off the line items. *)
Lemma has_length_items_of_items (details : order_details) :
  has_length_items (summary (categorize_items details))
  = existsb (fun item => is_length_transport item && negb (koppelstukje_at_home item))
      (line_items details).
Proof.
  destruct (summary_of_categorize details) as [ext ->].
  cbn [make_summary has_length_items].
  pose proof (bucket_length LengthRooftopshop details) as H1.
  pose proof (bucket_length LengthExternal details) as H2.
  cbn [get_bucket] in H1, H2. rewrite H1, H2, some_item_for.
  apply existsb_pointwise. by_cascade.
Qed.

Lemma all_items_at_rooftopshop_of_items (details : order_details) :
  all_items_at_rooftopshop (summary (categorize_items details))
  = forallb at_home (line_items details).
Proof.
  destruct (summary_of_categorize details) as [ext ->].
  cbn [make_summary all_items_at_rooftopshop].
  pose proof (bucket_length LengthExternal details) as H2.
  pose proof (bucket_length NonLengthExternal details) as H3.
  cbn [get_bucket] in H2, H3. rewrite H2, H3, no_item_for.
  apply forallb_pointwise. by_cascade.
Qed.

(** X8. The four flags of the summary, read off the line items. An order
    has length items when some length item is not a coupling piece at
    home: a length item that is a coupling piece at home does not count.
    All items are at home when every item lists the home warehouse, so an
    item without any location counts as external; all non-length items are
    at home when every item is a length item or lists the home
    warehouse. *)
Theorem categorize_items_summary_flags (details : order_details) :
  let s := summary (categorize_items details) in
  let l := line_items details in
  has_length_items s
  = existsb (fun item => is_length_transport item && negb (koppelstukje_at_home item)) l
  /\ has_daktrim_koppelstukje_items s = existsb koppelstukje_at_home l
  /\ all_items_at_rooftopshop s = forallb at_home l
  /\ all_non_length_at_rooftopshop s
     = forallb (fun item => is_length_transport item || at_home item) l.
Proof.
  cbv zeta.
  split; [apply has_length_items_of_items|].
  split; [|split; [apply all_items_at_rooftopshop_of_items|]].
  - destruct (summary_of_categorize details) as [ext ->].
    cbn [make_summary has_daktrim_koppelstukje_items].
    pose proof (bucket_length DaktrimKoppelstukjeRooftopshop details) as H4.
    cbn [get_bucket] in H4. rewrite H4, some_item_for_one.
    apply existsb_pointwise. by_cascade.
  - destruct (summary_of_categorize details) as [ext ->].
    cbn [make_summary all_non_length_at_rooftopshop].
    pose proof (bucket_length NonLengthExternal details) as H3.
    cbn [get_bucket] in H3. rewrite H3, no_item_for_one.
    apply forallb_pointwise. by_cascade.
Qed.

Lemma is_in_In x l : is_in x l = true <-> In x l.
Proof.
  unfold is_in. rewrite existsb_exists. split.
  - intros (y & Hy & ->%String.eqb_eq). exact Hy.
  - intros H. exists x. split; [exact H|apply String.eqb_refl].
Qed.

Lemma is_external_spec x : is_external x = true <-> x <> home.
Proof.
  unfold is_external. destruct (String.eqb_spec x home) as [->|Hne]; cbn; split;
    congruence.
Qed.

Lemma elem_of_add_external x s l :
  x ∈ add_external s l <-> x ∈ s \/ (In x l /\ x <> home).
Proof.
  unfold add_external. revert s. induction l as [|y l IH]; intros s; cbn [fold_left In].
  - tauto.
  - rewrite IH. destruct (is_external y) eqn:Hy.
    + apply is_external_spec in Hy. rewrite elem_of_union, elem_of_singleton.
      split; [intros [[?| ->]|[? ?]]|intros [?|[[->|?] ?]]]; tauto.
    + assert (y = home) as ->.
      { destruct (String.eqb_spec y home); [assumption|].
        unfold is_external in Hy. destruct (String.eqb_spec y home); [contradiction|discriminate]. }
      split; [intros [?|[? ?]]|intros [?|[[<-|?] ?]]]; tauto.
Qed.

Lemma categorize_loop_external x l c ext :
  x ∈ snd (fold_left categorize_step l (c, ext))
  <-> x ∈ ext
      \/ exists item, In item l /\ ~ In home (available_locations item)
                      /\ In x (available_locations item).
Proof.
  revert c ext. induction l as [|item l IH]; intros c ext; cbn [fold_left].
  - cbn. split; [tauto|]. intros [?|(? & [] & _)]. assumption.
  - unfold categorize_step at 2. rewrite IH. clear IH.
    destruct (is_in home (available_locations item)) eqn:Hhome; cbn [negb andb].
    + apply is_in_In in Hhome. split.
      * intros [?|(it & ? & ? & ?)]; [tauto|]. right. exists it. cbn. tauto.
      * intros [?|(it & [<-|?] & ? & ?)]; [tauto|tauto|]. right. exists it. tauto.
    + assert (Hnot : ~ In home (available_locations item)).
      { rewrite <- is_in_In. congruence. }
      assert (Hadd : x ∈ (if nonempty (available_locations item)
                          then add_external ext (available_locations item) else ext)
                     <-> x ∈ ext \/ In x (available_locations item)).
      { destruct (available_locations item) as [|y locs] eqn:Hlocs; cbn [nonempty].
        - cbn. tauto.
        - rewrite elem_of_add_external. split; [tauto|].
          intros [?|Hx]; [tauto|]. right. split; [exact Hx|]. intros ->. tauto. }
      rewrite Hadd. split.
      * intros [[?|?]|(it & ? & ? & ?)]; [tauto| |].
        -- right. exists item. cbn. tauto.
        -- right. exists it. cbn. tauto.
      * intros [?|(it & [<-|?] & ? & ?)]; [tauto|tauto|]. right. exists it. tauto.
Qed.

(** X9. The external locations of the summary are exactly the locations
    of the items that do not list the home warehouse, each once. The home
    warehouse is never among them, and the other locations of an item that
    is also at home are not counted. *)
Theorem categorize_items_external_locations (details : order_details) :
  let ext := external_locations (summary (categorize_items details)) in
  List.NoDup ext
  /\ ~ In home ext
  /\ forall x, In x ext
       <-> exists item, In item (line_items details)
                        /\ ~ In home (available_locations item)
                        /\ In x (available_locations item).
Proof.
  cbv zeta.
  assert (Hin : forall x,
    In x (external_locations (summary (categorize_items details)))
    <-> exists item, In item (line_items details)
                     /\ ~ In home (available_locations item)
                     /\ In x (available_locations item)).
  { intros x. unfold categorize_items.
    pose proof (categorize_loop_external x (line_items details) empty_buckets ∅) as H.
    destruct (fold_left categorize_step (line_items details) (empty_buckets, ∅)) as [c ext].
    cbn [summary make_summary external_locations snd] in *.
    rewrite <- list_elem_of_In, elem_of_elements, H.
    split; [intros [Hx|?]; [|assumption]|tauto].
    exfalso. revert Hx. apply not_elem_of_empty. }
  split; [|split; [|exact Hin]].
  - unfold categorize_items.
    destruct (fold_left categorize_step (line_items details) (empty_buckets, ∅)) as [c ext].
    cbn [summary make_summary external_locations].
    apply NoDup_ListNoDup, NoDup_elements.
  - rewrite Hin. intros (item & _ & Hnot & Hhome). contradiction.
Qed.

Lemma categorize_items_external_locations_witness :
  In "Compri Aluminium" (external_locations (summary (categorize_items three_items))).
Proof.
  apply (proj2 (proj2 (proj2 (categorize_items_external_locations three_items))
                 "Compri Aluminium")).
  exists (item_of "gid://shopify/FulfillmentOrderLineItem/3" 4 ["Compri Aluminium"] false false).
  split; [right; right; left; reflexivity|].
  split; [intros [H|[]]; discriminate H|left; reflexivity].
Defined.

(* ===================================================================== *)
(** * The groups as a whole                                               *)
(* ===================================================================== *)

Lemma group_keys_append loc x g :
  group_keys (groups_append loc x g)
  = if is_in loc (group_keys g) then group_keys g else group_keys g ++ [loc].
Proof.
  unfold group_keys, is_in. induction g as [|[l xs] g IH]; cbn [groups_append map fst existsb].
  - reflexivity.
  - destruct (String.eqb loc l); cbn [map fst orb]; [reflexivity|].
    rewrite IH. destruct (existsb (String.eqb loc) (map fst g)); reflexivity.
Qed.

Lemma group_keys_append_nodup loc x g :
  List.NoDup (group_keys g) -> List.NoDup (group_keys (groups_append loc x g)).
Proof.
  intros Hg. rewrite group_keys_append.
  destruct (is_in loc (group_keys g)) eqn:Hin; [exact Hg|].
  apply NoDup_ListNoDup. rewrite NoDup_app.
  split; [apply NoDup_ListNoDup; exact Hg|]. split; [|apply NoDup_singleton].
  intros y Hy Hy'. apply list_elem_of_In in Hy. apply list_elem_of_singleton in Hy' as ->.
  apply is_in_In in Hy. congruence.
Qed.

Lemma in_group_keys_append loc loc' x g :
  In loc (group_keys (groups_append loc' x g)) <-> In loc (group_keys g) \/ loc = loc'.
Proof.
  rewrite group_keys_append. destruct (is_in loc' (group_keys g)) eqn:Hin.
  - apply is_in_In in Hin. split; [tauto|]. intros [?| ->]; assumption.
  - rewrite in_app_iff. cbn. split; [intros [?|[<-|[]]]|intros [?| ->]]; tauto.
Qed.

Lemma group_at_entry loc xs g :
  List.NoDup (group_keys g) -> In (loc, xs) g -> group_at loc g = xs.
Proof.
  unfold group_keys. induction g as [|[l ys] g IH]; cbn [map fst group_at]; intros Hnd Hin.
  - destruct Hin.
  - inversion_clear Hnd as [|? ? Hl Hg]. destruct Hin as [[= -> ->]|Hin].
    + rewrite String.eqb_refl. reflexivity.
    + destruct (String.eqb_spec loc l) as [->|Hne]; [|apply IH; assumption].
      exfalso. apply Hl. change l with (fst (l, xs)). apply in_map, Hin.
Qed.

Section FileItems.
Variable name : item_details -> option string.

Lemma file_items_group_at loc l g :
  group_at loc (file_items name l g)
  = group_at loc g
    ++ map to_split
         (List.filter (fun item => match name item with
                                   | Some loc' => String.eqb loc loc'
                                   | None => false
                                   end) l).
Proof.
  unfold file_items. revert g.
  induction l as [|item l IH]; intros g; cbn [fold_left List.filter map].
  - rewrite app_nil_r. reflexivity.
  - rewrite IH. destruct (name item) as [loc'|]; [|reflexivity].
    rewrite group_at_append. destruct (String.eqb loc loc'); [|reflexivity].
    cbn [map]. rewrite <- app_assoc. reflexivity.
Qed.

Lemma file_items_nodup l g :
  List.NoDup (group_keys g) -> List.NoDup (group_keys (file_items name l g)).
Proof.
  unfold file_items. revert g. induction l as [|item l IH]; intros g Hg; cbn [fold_left];
    [exact Hg|].
  apply IH. destruct (name item); [apply group_keys_append_nodup|]; exact Hg.
Qed.

Lemma file_items_keys loc l g :
  In loc (group_keys (file_items name l g))
  <-> In loc (group_keys g) \/ exists item, In item l /\ name item = Some loc.
Proof.
  unfold file_items. revert g. induction l as [|item l IH]; intros g; cbn [fold_left].
  - split; [tauto|]. intros [?|(? & [] & _)]. assumption.
  - rewrite IH. destruct (name item) as [loc'|] eqn:Hname.
    + rewrite in_group_keys_append. split.
      * intros [[?| ->]|(it & ? & ?)]; [tauto| |].
        -- right. exists item. cbn. tauto.
        -- right. exists it. cbn. tauto.
      * intros [?|(it & [<-|?] & Hit)]; [tauto| |].
        -- left. right. congruence.
        -- right. exists it. tauto.
    + split.
      * intros [?|(it & ? & ?)]; [tauto|]. right. exists it. cbn. tauto.
      * intros [?|(it & [<-|?] & Hit)]; [tauto|congruence|]. right. exists it. tauto.
Qed.

Lemma file_items_nonempty l g :
  groups_nonempty g -> groups_nonempty (file_items name l g).
Proof.
  unfold file_items. revert g. induction l as [|item l IH]; intros g Hg; cbn [fold_left];
    [exact Hg|].
  apply IH. destruct (name item); [apply groups_nonempty_append|]; exact Hg.
Qed.
End FileItems.

Lemma group_by_external_location_files items :
  group_by_external_location items
  = file_items (fun item => Some (group_name (locations item))) items [].
Proof.
  unfold group_by_external_location, file_items. generalize (@nil (string * list split_item)).
  induction items as [|item items IH]; intros g; cbn [fold_left]; [reflexivity|].
  rewrite group_step_spec. apply IH.
Qed.

Lemma group_remaining_files remaining items g :
  group_remaining remaining items g = file_items (snapshot_name remaining) items g.
Proof.
  unfold group_remaining, file_items. revert g.
  induction items as [|item items IH]; intros g; cbn [fold_left]; [reflexivity|].
  rewrite group_remaining_step_spec, IH. unfold snapshot_name.
  destruct (remaining !! item_id item) as [r|]; [|reflexivity].
  destruct (nonempty (available_locations r)); reflexivity.
Qed.

Lemma first_external_is_external locs l : first_external locs = Some l -> l <> home.
Proof.
  induction locs as [|x locs IH]; cbn [first_external]; [discriminate|].
  destruct (is_external x) eqn:Hx; [|exact IH].
  intros [= <-]. apply is_external_spec, Hx.
Qed.

Lemma group_name_not_home locs : group_name locs <> home.
Proof.
  unfold group_name. destruct (first_external locs) as [l|] eqn:Hl.
  - eapply first_external_is_external, Hl.
  - discriminate.
Qed.

(** X10. The groups [group_by_external_location] returns, as a whole.
    Every key occurs once and is never the home warehouse; the group under
    a key is not empty and holds, in input order, the id and quantity of
    exactly the items whose first location other than the home warehouse
    is that key ([unknown] for an item that has none); and every item has
    its key among the groups. *)
Theorem group_by_external_location_groups (items : list item_details) :
  let g := group_by_external_location items in
  List.NoDup (group_keys g)
  /\ (forall loc xs, In (loc, xs) g ->
        loc <> home /\ xs <> [] /\ xs = map to_split (grouped_at loc items))
  /\ (forall item, In item items -> In (group_name (locations item)) (group_keys g)).
Proof.
  cbv zeta. rewrite group_by_external_location_files.
  set (name := fun item : item_details => Some (group_name (locations item))).
  assert (Hnd : List.NoDup (group_keys (file_items name items []))).
  { apply file_items_nodup. constructor. }
  split; [exact Hnd|]. split.
  - intros loc xs Hin. split; [|split].
    + assert (Hkey : In loc (group_keys (file_items name items []))).
      { change loc with (fst (loc, xs)). apply in_map, Hin. }
      apply file_items_keys in Hkey as [[]|(item & _ & [= <-])].
      apply group_name_not_home.
    + pose proof (file_items_nonempty name items [] ltac:(constructor)) as Hne.
      unfold groups_nonempty in Hne. rewrite List.Forall_forall in Hne.
      apply (Hne (loc, xs) Hin).
    + rewrite <- (group_at_entry loc xs _ Hnd Hin), file_items_group_at. reflexivity.
  - intros item Hitem. apply file_items_keys. right. exists item. split; [exact Hitem|reflexivity].
Qed.

Lemma group_by_external_location_groups_witness :
  In "Compri Aluminium" (group_keys (group_by_external_location [home_then_compri])).
Proof.
  apply (proj2 (proj2 (group_by_external_location_groups [home_then_compri])) home_then_compri).
  left. reflexivity.
Defined.

(** X11. The groups the decision tree builds from a refetched snapshot,
    first from one bucket and then from a second one into the same dict.
    Every key occurs once and is never the home warehouse; the group under
    a key is not empty and holds, in order, the items of the first bucket
    and then those of the second whose id is still in the snapshot with a
    location, and whose first location other than the home warehouse there
    is that key. The locations recorded when the items were classified
    play no part. *)
Theorem tree_groups_follow_snapshot (remaining : gmap string line_item)
    (first second : list item_details) :
  let g := group_remaining remaining second (group_remaining remaining first []) in
  List.NoDup (group_keys g)
  /\ (forall loc xs, In (loc, xs) g ->
        loc <> home /\ xs <> []
        /\ xs = map to_split (regrouped_at remaining loc (first ++ second)))
  /\ (forall item r, In item (first ++ second) -> remaining !! item_id item = Some r ->
        available_locations r <> [] ->
        In (group_name (available_locations r)) (group_keys g)).
Proof.
  cbv zeta. rewrite !group_remaining_files.
  set (name := snapshot_name remaining).
  assert (Hcat : file_items name second (file_items name first [])
                 = file_items name (first ++ second) []).
  { unfold file_items. rewrite fold_left_app. reflexivity. }
  rewrite Hcat.
  assert (Hnd : List.NoDup (group_keys (file_items name (first ++ second) []))).
  { apply file_items_nodup. constructor. }
  split; [exact Hnd|]. split.
  - intros loc xs Hin. split; [|split].
    + assert (Hkey : In loc (group_keys (file_items name (first ++ second) []))).
      { change loc with (fst (loc, xs)). apply in_map, Hin. }
      apply file_items_keys in Hkey as [[]|(item & _ & Hname)].
      unfold name, snapshot_name in Hname.
      destruct (remaining !! item_id item) as [r|]; [|discriminate].
      destruct (nonempty (available_locations r)); [|discriminate].
      injection Hname as <-. apply group_name_not_home.
    + pose proof (file_items_nonempty name (first ++ second) [] ltac:(constructor)) as Hne.
      unfold groups_nonempty in Hne. rewrite List.Forall_forall in Hne.
      apply (Hne (loc, xs) Hin).
    + rewrite <- (group_at_entry loc xs _ Hnd Hin), file_items_group_at.
      cbn [group_at app]. f_equal. unfold regrouped_at.
      apply List.filter_ext. intros item. unfold name, snapshot_name.
      destruct (remaining !! item_id item) as [r|]; [|reflexivity].
      destruct (nonempty (available_locations r)); reflexivity.
  - intros item r Hitem Hr Hlocs. apply file_items_keys. right. exists item.
    split; [exact Hitem|]. unfold name, snapshot_name. rewrite Hr.
    destruct (available_locations r); [contradiction|reflexivity].
Qed.

Lemma tree_groups_follow_snapshot_witness :
  In "Compri Aluminium"
    (group_keys
       (group_remaining (remaining_line_items two_compri_items) []
          (group_remaining (remaining_line_items two_compri_items)
             [details_of (item_of "gid://shopify/FulfillmentOrderLineItem/1" 1 [] false false)]
             []))).
Proof.
  apply (proj2 (proj2 (tree_groups_follow_snapshot (remaining_line_items two_compri_items)
           [details_of (item_of "gid://shopify/FulfillmentOrderLineItem/1" 1 [] false false)] []))
         (details_of (item_of "gid://shopify/FulfillmentOrderLineItem/1" 1 [] false false))
         (item_of "gid://shopify/FulfillmentOrderLineItem/1" 1 ["Compri Aluminium"] false false)).
  - left. reflexivity.
  - vm_compute. reflexivity.
  - discriminate.
Defined.

(* ===================================================================== *)
(** * Tags                                                                *)
(* ===================================================================== *)

Lemma string_length_app (a b : string) :
  String.length (a +:+ b) = (String.length a + String.length b)%nat.
Proof.
  induction a as [|c a IH]; [reflexivity|].
  change (String c a +:+ b) with (String c (a +:+ b)). cbn [String.length]. rewrite IH.
  reflexivity.
Qed.

Lemma string_app_inj_l (a b s : string) : a +:+ s = b +:+ s -> a = b.
Proof.
  revert b. induction a as [|c a IH]; intros [|c' b] H.
  - reflexivity.
  - apply (f_equal String.length) in H. rewrite !string_length_app in H.
    cbn [String.length] in H. lia.
  - apply (f_equal String.length) in H. rewrite !string_length_app in H.
    cbn [String.length] in H. lia.
  - change (String c (a +:+ s) = String c' (b +:+ s)) in H. injection H as -> H.
    f_equal. apply IH, H.
Qed.

(** X12. The tag of a location always ends in [Fulfillment], and two
    different locations get the same tag in two cases only: [Compri
    Aluminium] and a location called [compri], and [Redfox EPDM] and a
    location called [redfox]. *)
Theorem get_location_tag_collisions :
  (forall loc, exists stem, get_location_tag loc = stem +:+ "Fulfillment")
  /\ (forall a b,
        get_location_tag a = get_location_tag b
        <-> a = b
            \/ pair_of "Compri Aluminium" "compri" a b
            \/ pair_of "Redfox EPDM" "redfox" a b).
Proof.
  split.
  - intros loc. unfold get_location_tag.
    destruct (String.eqb loc "Compri Aluminium"); [exists "compri"; reflexivity|].
    destruct (String.eqb loc "Redfox EPDM"); [exists "redfox"; reflexivity|].
    exists loc. reflexivity.
  - intros a b. unfold pair_of. split.
    + unfold get_location_tag.
      destruct (String.eqb_spec a "Compri Aluminium") as [->|Ha1];
        [|destruct (String.eqb_spec a "Redfox EPDM") as [->|Ha2]];
        (destruct (String.eqb_spec b "Compri Aluminium") as [->|Hb1];
         [|destruct (String.eqb_spec b "Redfox EPDM") as [->|Hb2]]);
        intros H; try tauto; try discriminate H.
      * change "compriFulfillment" with ("compri" +:+ "Fulfillment") in H.
        apply string_app_inj_l in H. subst b. tauto.
      * change "redfoxFulfillment" with ("redfox" +:+ "Fulfillment") in H.
        apply string_app_inj_l in H. subst b. tauto.
      * change "compriFulfillment" with ("compri" +:+ "Fulfillment") in H.
        apply string_app_inj_l in H. subst a. tauto.
      * change "redfoxFulfillment" with ("redfox" +:+ "Fulfillment") in H.
        apply string_app_inj_l in H. subst a. tauto.
      * apply string_app_inj_l in H. tauto.
    + intros [->|[[[-> ->]|[-> ->]]|[[-> ->]|[-> ->]]]]; reflexivity.
Qed.

Lemma get_location_tag_collisions_witness :
  get_location_tag "compri" = get_location_tag "Compri Aluminium".
Proof.
  apply (proj2 (proj2 get_location_tag_collisions "compri" "Compri Aluminium")).
  right. left. right. split; reflexivity.
Defined.

Lemma tag_ok_false (d : pydict) :
  tag_ok (Some d) = false
  <-> d = [] \/ dict_has "errors" d = true \/ reports_user_errors d.
Proof.
  unfold tag_ok, tag_result_ok, reports_user_errors. cbn [result_value py_contains res_bind].
  destruct d as [|kv d']; [cbn; tauto|].
  cbn [truthy negb]. set (d := kv :: d').
  assert (Hd : d <> []) by discriminate.
  destruct (dict_has "errors" d) eqn:Herr; [tauto|].
  unfold tag_user_errors. cbn [py_contains res_bind py_index]. unfold dict_has.
  destruct (dict_lookup "data" d) as [data|] eqn:Hdata; cbn [negb res_bind truthy].
  2: { split; [discriminate|]. intros [?|[?|(? & ? & ? & ? & _)]]; congruence. }
  destruct data as [| | | | | |data];
    try (cbn; split; [discriminate|]; intros [?|[?|(? & ? & ? & ? & _)]]; congruence).
  cbn [py_index].
  destruct (dict_lookup "tagsAdd" data) as [ta|] eqn:Hta; cbn [res_bind truthy].
  2: { split; [discriminate|]. intros [?|[?|(? & ? & ? & ? & ? & _)]]; congruence. }
  destruct (truthy ta) eqn:Htruthy; cbn [negb truthy].
  2: { split; [discriminate|]. intros [?|[?|(? & ? & ? & ? & ? & ? & _)]]; try congruence.
       assert (ta = PDict x0) by congruence. subst ta.
       destruct x0; [discriminate|]. cbn in Htruthy. discriminate. }
  destruct ta as [| | | | | |ta];
    try (cbn; split; [discriminate|]; intros [?|[?|(? & ? & ? & ? & ? & _)]]; congruence).
  cbn [py_index].
  destruct (dict_lookup "userErrors" ta) as [errs|] eqn:Herrs; cbn [res_bind truthy].
  2: { split; [discriminate|]. intros [?|[?|(? & ? & ? & ? & ? & ? & _)]]; congruence. }
  destruct (truthy errs) eqn:Hte; cbn [negb truthy res_bind].
  - rewrite Hte. split; [|reflexivity]. intros _. right. right.
    exists data, ta, errs. tauto.
  - split; [discriminate|]. intros [?|[?|(? & ? & ? & ? & ? & ? & ?)]]; congruence.
Qed.

Lemma add_tag_to_order_any_text rm oid tag log :
  AnyId.add_tag_to_order rm (AnyId.id_value oid) tag log = add_tag_to_order rm oid tag log.
Proof.
  destruct oid as [s|]; [|reflexivity].
  unfold AnyId.add_tag_to_order, add_tag_to_order. cbn [AnyId.id_value truthy].
  destruct (String.eqb s ""); reflexivity.
Qed.

Lemma add_tag_to_order_not_text rm order_id tag log :
  AnyId.not_text order_id ->
  AnyId.add_tag_to_order rm order_id tag log = (Raise AttributeError, log).
Proof.
  intros [Ht Hs]. unfold AnyId.add_tag_to_order. rewrite Ht. cbn [negb].
  destruct order_id as [| | | |s| |]; try reflexivity.
  exfalso. apply (Hs s). reflexivity.
Qed.

(** X13. What [add_tag_to_order] does, for whatever value it is given as
    order id. With a falsy id ([None], empty text, zero) it makes no
    request and returns false. With a truthy id that is not text, a number
    for instance, [order_id.startswith] raises [AttributeError] before any
    request is made. With a text that is not empty it makes one [tagsAdd]
    request for the order's gid and does not raise; it returns false
    exactly when the executor gave nothing back, or an empty object, or an
    object with an [errors] key, or one whose [data.tagsAdd.userErrors] is
    not empty. Every other answer counts as success, a [data] of null
    included. On [None] and on text it is the function the decision tree
    above calls. *)
Theorem add_tag_to_order_verdict (rm : remote) (order_id : pyval) (tag : string)
    (log : list event) :
  let reply := tag_reply rm (count is_tag log) in
  (truthy order_id = false ->
     AnyId.add_tag_to_order rm order_id tag log = (Ok false, log))
  /\ (AnyId.not_text order_id ->
      AnyId.add_tag_to_order rm order_id tag log = (Raise AttributeError, log))
  /\ (forall oid, order_id = PStr oid -> oid <> "" ->
      exists ok,
        AnyId.add_tag_to_order rm order_id tag log
        = (Ok ok, log ++ [TagCall (order_gid oid) tag reply])
        /\ (ok = false
            <-> reply = None
                \/ exists d, reply = Some d
                     /\ (d = [] \/ dict_has "errors" d = true \/ reports_user_errors d))
        /\ (reply = Some [("data", PNone)] -> ok = true))
  /\ (forall oid, order_id = AnyId.id_value oid ->
      AnyId.add_tag_to_order rm order_id tag log = add_tag_to_order rm oid tag log).
Proof.
  cbv zeta. split; [|split; [|split]].
  - intros Ht. unfold AnyId.add_tag_to_order. rewrite Ht. reflexivity.
  - apply add_tag_to_order_not_text.
  - intros oid -> Hoid. exists (tag_ok (tag_reply rm (count is_tag log))).
    split; [|split].
    + unfold AnyId.add_tag_to_order. cbn [truthy].
      destruct (String.eqb_spec oid ""); [contradiction|]. cbn [negb].
      rewrite tag_result_ok_total. reflexivity.
    + destruct (tag_reply rm (count is_tag log)) as [d|].
      * rewrite tag_ok_false. split.
        -- intros H. right. exists d. tauto.
        -- intros [?|(d' & [= <-] & H)]; [discriminate|exact H].
      * split; [tauto|reflexivity].
    + intros ->. reflexivity.
  - intros oid ->. apply add_tag_to_order_any_text.
Qed.

(** A numeric order id: the call raises before any request. *)
Lemma add_tag_to_order_verdict_witness :
  AnyId.not_text (PInt 9)
  /\ AnyId.add_tag_to_order accepting (PInt 9) "daktrimFulfillment" []
     = (Raise AttributeError, []).
Proof.
  assert (Hnt : AnyId.not_text (PInt 9)) by (split; [reflexivity|discriminate]).
  split; [exact Hnt|].
  exact (proj1 (proj2 (add_tag_to_order_verdict accepting (PInt 9) "daktrimFulfillment" []))
           Hnt).
Defined.

(* ===================================================================== *)
(** * split_fulfillment_order                                             *)
(* ===================================================================== *)

Lemma py_get_raises v k dflt e : py_get v k dflt = Raise e -> e = AttributeError.
Proof. destruct v; cbn; congruence. Qed.

Lemma first_split_raises v e :
  Splitter.first_split v = Raise e -> e = KeyError \/ e = TypeError.
Proof.
  destruct v as [| | | |s|l|d]; cbn; try (intros [= <-]; tauto).
  - destruct s; [intros [= <-]; tauto|discriminate].
  - destruct l; [intros [= <-]; tauto|discriminate].
Qed.

(** The exceptions the pieces of the function can raise. *)
Ltac raised :=
  repeat match goal with
         | |- context [if ?b then _ else _] => destruct b
         | |- context [match ?o with Some _ => _ | None => _ end] => destruct o
         | |- context [let '(_, _) := ?p in _] => destruct p
         | |- context [res_bind (py_index ?v ?k) _] =>
             let H := fresh in
             destruct (py_index v k) eqn:H; cbn [res_bind];
             [|apply py_index_raises in H; intros [= <-]; tauto]
         | |- context [res_bind (py_get ?v ?k ?d) _] =>
             let H := fresh in
             destruct (py_get v k d) eqn:H; cbn [res_bind];
             [|apply py_get_raises in H; intros [= <-]; tauto]
         | |- context [res_bind (Splitter.first_split ?v) _] =>
             let H := fresh in
             destruct (Splitter.first_split v) eqn:H; cbn [res_bind];
             [|apply first_split_raises in H; intros [= <-]; tauto]
         | |- Ok _ = Raise _ -> _ => discriminate
         end.

Lemma split_user_errors_raises d e :
  Splitter.split_user_errors (PDict d) = Raise e -> e = KeyError \/ e = TypeError.
Proof.
  unfold Splitter.split_user_errors. cbn [py_contains res_bind]. raised.
  all: try apply py_index_raises.
Qed.

Lemma order_id_under_raises v k e :
  Splitter.order_id_under v k = Raise e ->
  e = KeyError \/ e = TypeError \/ e = AttributeError.
Proof.
  unfold Splitter.order_id_under. raised.
  intros Hget%py_get_raises. tauto.
Qed.

Lemma order_under_raises v k e :
  Splitter.order_under v k = Raise e ->
  e = KeyError \/ e = TypeError \/ e = AttributeError.
Proof. unfold Splitter.order_under. raised. Qed.

Lemma new_order_raises v e :
  Splitter.new_order v = Raise e ->
  e = KeyError \/ e = TypeError \/ e = AttributeError.
Proof.
  unfold Splitter.new_order.
  repeat match goal with
         | |- context [res_bind (py_index ?v ?k) _] =>
             let H := fresh in
             destruct (py_index v k) eqn:H; cbn [res_bind];
             [|apply py_index_raises in H; intros [= <-]; tauto]
         end.
  destruct (truthy _); [|discriminate].
  destruct (Splitter.order_id_under _ "remainingFulfillmentOrder") as [rid|e1] eqn:Hrid;
    cbn [res_bind]; [|intros [= <-]; eapply order_id_under_raises, Hrid].
  destruct (truthy rid).
  - destruct (Splitter.order_under _ "remainingFulfillmentOrder") as [[i st]|e2] eqn:Hsnd;
      cbn [res_bind]; [|intros [= <-]; eapply order_under_raises, Hsnd].
    destruct (truthy i); discriminate.
  - destruct (Splitter.order_id_under _ "fulfillmentOrder") as [fid|e2] eqn:Hsnd;
      cbn [res_bind]; [|intros [= <-]; eapply order_id_under_raises, Hsnd].
    destruct (truthy fid); cbn [res_bind]; [|discriminate].
    destruct (Splitter.order_under _ "fulfillmentOrder") as [[i st]|e3] eqn:Hthd;
      cbn [res_bind]; [|intros [= <-]; eapply order_under_raises, Hthd].
    destruct (truthy i); discriminate.
Qed.

Lemma new_order_id v new_id st :
  Splitter.new_order v = Ok (new_id, st) ->
  (new_id = PNone /\ forall s, st <> Splitter.OrderStatus s)
  \/ (truthy new_id = true /\ exists s, st = Splitter.OrderStatus s).
Proof.
  unfold Splitter.new_order.
  repeat match goal with
         | |- context [res_bind ?r _] => destruct r; cbn [res_bind]; [|discriminate]
         | |- context [if ?b then _ else _] => let H := fresh in destruct b eqn:H
         | |- context [let '(_, _) := ?p in _] => destruct p
         | |- context [match ?o with Some _ => _ | None => _ end] => destruct o
         end.
  all: intros [= <- <-]; try (left; split; [reflexivity|discriminate]).
  all: right; split; [assumption|eexists; reflexivity].
Qed.

(** X14. How [split_fulfillment_order] can end. The only exception that
    leaves it is [AttributeError]. When it returns a pair, the id is
    either [None], and then the second component is one of the messages of
    the function, or a truthy value, and then the second component is the
    status read next to that id: the test [if new_id] of the callers tells
    the two apart. *)
Theorem split_fulfillment_order_outcomes (split_data : option pydict) :
  (forall e, Splitter.split_fulfillment_order split_data = Raise e -> e = AttributeError)
  /\ (forall new_id st, Splitter.split_fulfillment_order split_data = Ok (new_id, st) ->
        (new_id = PNone /\ forall s, st <> Splitter.OrderStatus s)
        \/ (truthy new_id = true /\ exists s, st = Splitter.OrderStatus s)).
Proof.
  unfold Splitter.split_fulfillment_order.
  destruct split_data as [d|]; cbn [result_value];
    [|split; [discriminate|intros ? ? [= <- <-]; left; split; [reflexivity|discriminate]]].
  destruct (negb (truthy (PDict d)));
    [split; [discriminate|intros ? ? [= <- <-]; left; split; [reflexivity|discriminate]]|].
  cbn [py_contains res_bind py_index]. unfold dict_has.
  destruct (dict_lookup "errors" d); cbn [res_bind];
    [split; [discriminate|intros ? ? [= <- <-]; left; split; [reflexivity|discriminate]]|].
  assert (Huser : exists v,
    match Splitter.split_user_errors (PDict d) with
    | Ok v => Ok v
    | Raise KeyError => Ok (PList [])
    | Raise TypeError => Ok (PList [])
    | Raise e => Raise e
    end = Ok v).
  { destruct (Splitter.split_user_errors (PDict d)) as [v|e] eqn:Hu; [eauto|].
    destruct (split_user_errors_raises d e Hu) as [-> | ->]; eauto. }
  destruct Huser as [v ->]. cbn [res_bind].
  destruct (truthy v);
    [split; [discriminate|intros ? ? [= <- <-]; left; split; [reflexivity|discriminate]]|].
  destruct (Splitter.new_order (PDict d)) as [[i s]|e] eqn:Hnew.
  - split; [discriminate|]. intros new_id st [= <- <-]. eapply new_order_id, Hnew.
  - destruct (new_order_raises _ _ Hnew) as [-> |[-> | ->]].
    + split; [discriminate|intros ? ? [= <- <-]; left; split; [reflexivity|discriminate]].
    + split; [discriminate|intros ? ? [= <- <-]; left; split; [reflexivity|discriminate]].
    + split; [intros e [= <-]; reflexivity|discriminate].
Qed.

Lemma split_fulfillment_order_outcomes_witness :
  let reply :=
    Some (split_response_of
            (PList [split_entry (order_entry (PStr "gid://shopify/FulfillmentOrder/2")
                                   (PStr "OPEN"))
                      PNone])) in
  Splitter.split_fulfillment_order reply = Raise AttributeError
  /\ forall e, Splitter.split_fulfillment_order reply = Raise e -> e = AttributeError.
Proof.
  split; [reflexivity|].
  apply (proj1 (split_fulfillment_order_outcomes
                  (Some (split_response_of
                     (PList [split_entry (order_entry (PStr "gid://shopify/FulfillmentOrder/2")
                                            (PStr "OPEN"))
                               PNone]))))).
Defined.

(** X15. The refusals of [split_fulfillment_order] that come before the
    splits are looked at. Nothing back from the executor, or an empty
    object, gives [None] with the no-response message. An [errors] key
    gives [None] with the errors, whatever else the response holds. User
    errors give [None] with the user errors, even when the response also
    lists splits. *)
Theorem split_fulfillment_order_refusals :
  Splitter.split_fulfillment_order None = Ok (PNone, Splitter.NoResponse)
  /\ Splitter.split_fulfillment_order (Some []) = Ok (PNone, Splitter.NoResponse)
  /\ (forall d errors, dict_lookup "errors" d = Some errors ->
        Splitter.split_fulfillment_order (Some d) = Ok (PNone, Splitter.GraphQLErrors errors))
  /\ (forall d errs, dict_lookup "errors" d = None -> reports_split_errors d errs ->
        Splitter.split_fulfillment_order (Some d) = Ok (PNone, Splitter.UserErrors errs)).
Proof.
  split; [reflexivity|]. split; [reflexivity|]. split.
  - intros d errors Herrors. unfold Splitter.split_fulfillment_order.
    destruct d as [|kv d']; [discriminate|]. cbn [result_value truthy negb py_contains res_bind].
    unfold dict_has. cbn [py_index]. rewrite Herrors. reflexivity.
  - intros d errs Herrors (data & split & Hdata & Hsplit & Herrs & Htruthy).
    unfold Splitter.split_fulfillment_order.
    destruct d as [|kv d']; [discriminate|]. cbn [result_value truthy negb py_contains res_bind].
    unfold dict_has. rewrite Herrors. unfold Splitter.split_user_errors.
    cbn [py_contains res_bind py_index]. unfold dict_has. rewrite Hdata.
    cbn [negb res_bind py_index]. rewrite Hsplit. cbn [res_bind].
    assert (Hts : truthy (PDict split) = true).
    { destruct split; [discriminate|reflexivity]. }
    rewrite Hts. cbn [negb py_index res_bind]. rewrite Herrs. cbn [res_bind].
    rewrite Htruthy. cbn [negb res_bind]. rewrite Htruthy. reflexivity.
Qed.

Lemma split_fulfillment_order_refusals_witness :
  Splitter.split_fulfillment_order
    (Some [("data", PDict
              [("fulfillmentOrderSplit", PDict
                  [("fulfillmentOrderSplits",
                    PList [split_entry (order_entry (PStr "gid://shopify/FulfillmentOrder/1")
                                          (PStr "OPEN"))
                             (order_entry (PStr "gid://shopify/FulfillmentOrder/2")
                                (PStr "OPEN"))]);
                   ("userErrors",
                    PList [PDict [("field", PNone);
                                  ("message", PStr "Quantity exceeds what is left")]])])])])
  = Ok (PNone,
        Splitter.UserErrors
          (PList [PDict [("field", PNone);
                         ("message", PStr "Quantity exceeds what is left")]])).
Proof.
  apply (proj2 (proj2 (proj2 split_fulfillment_order_refusals))).
  - reflexivity.
  - eexists _, _. repeat split; reflexivity.
Defined.

(** X16. Which order [split_fulfillment_order] reports when the response
    lists splits and no errors. It looks at the first split only. The id
    and status it returns are those of [remainingFulfillmentOrder] when
    that has a truthy id, whatever [fulfillmentOrder] holds; otherwise
    those of [fulfillmentOrder] when that has a truthy id; otherwise
    [None] with the not-identified message. A missing status reads
    [UNKNOWN]. When [remainingFulfillmentOrder] is present but not an
    object, null included, [AttributeError] leaves the function. *)
Theorem split_fulfillment_order_new_order (fo remaining : pyval) (more : list pyval) :
  let reply := Some (split_response_of (PList (split_entry fo remaining :: more))) in
  (forall rid rst, remaining = order_entry rid rst -> truthy rid = true ->
     Splitter.split_fulfillment_order reply = Ok (rid, Splitter.OrderStatus rst))
  /\ (forall rid, remaining = PDict [("id", rid)] -> truthy rid = true ->
        Splitter.split_fulfillment_order reply
        = Ok (rid, Splitter.OrderStatus (PStr "UNKNOWN")))
  /\ (forall rid rst fid fst, remaining = order_entry rid rst -> truthy rid = false ->
        fo = order_entry fid fst ->
        Splitter.split_fulfillment_order reply
        = if truthy fid then Ok (fid, Splitter.OrderStatus fst)
          else Ok (PNone, Splitter.NotIdentified))
  /\ ((forall d, remaining <> PDict d) ->
        Splitter.split_fulfillment_order reply = Raise AttributeError).
Proof.
  cbv zeta. unfold Splitter.split_fulfillment_order, split_response_of, split_entry.
  cbn [result_value truthy negb py_contains dict_has dict_lookup String.eqb Ascii.eqb Bool.eqb
       res_bind py_index Splitter.split_user_errors].
  unfold Splitter.new_order.
  cbn [truthy negb dict_lookup String.eqb Ascii.eqb Bool.eqb res_bind py_index].
  unfold Splitter.order_id_under, Splitter.order_under.
  cbn [Splitter.first_split res_bind py_get py_index dict_lookup String.eqb Ascii.eqb Bool.eqb].
  split; [|split; [|split]].
  - intros rid rst -> Hrid. unfold order_entry.
    cbn [res_bind py_get py_index dict_lookup String.eqb Ascii.eqb Bool.eqb].
    rewrite Hrid. cbn [res_bind]. rewrite Hrid. reflexivity.
  - intros rid -> Hrid.
    cbn [res_bind py_get py_index dict_lookup String.eqb Ascii.eqb Bool.eqb].
    rewrite Hrid. cbn [res_bind]. rewrite Hrid. reflexivity.
  - intros rid rst fid fst -> Hrid ->. unfold order_entry.
    cbn [res_bind py_get py_index dict_lookup String.eqb Ascii.eqb Bool.eqb].
    rewrite Hrid. cbn [res_bind].
    destruct (truthy fid) eqn:Hfid; cbn [res_bind]; [rewrite Hfid|]; reflexivity.
  - intros Hnot. destruct remaining as [| | | | | |d]; try reflexivity.
    exfalso. apply (Hnot d). reflexivity.
Qed.

Lemma split_fulfillment_order_new_order_witness :
  Splitter.split_fulfillment_order
    (Some (split_response_of
       (PList [split_entry
                 (order_entry (PStr "gid://shopify/FulfillmentOrder/1") (PStr "OPEN"))
                 (order_entry (PStr "gid://shopify/FulfillmentOrder/2") (PStr "CLOSED"))])))
  = Ok (PStr "gid://shopify/FulfillmentOrder/2", Splitter.OrderStatus (PStr "CLOSED")).
Proof.
  apply (proj1 (split_fulfillment_order_new_order
                  (order_entry (PStr "gid://shopify/FulfillmentOrder/1") (PStr "OPEN"))
                  (order_entry (PStr "gid://shopify/FulfillmentOrder/2") (PStr "CLOSED")) [])
               (PStr "gid://shopify/FulfillmentOrder/2") (PStr "CLOSED")).
  - reflexivity.
  - reflexivity.
Defined.

(* ===================================================================== *)
(** * The calls of a whole run                                            *)
(* ===================================================================== *)

Lemma emits_ret {A} (P : event -> Prop) (a : A) : spec (ret a) (fun _ ev => Forall P ev).
Proof. apply spec_ret. constructor. Qed.

Lemma emits_bind {A B} (P : event -> Prop) (m : M A) (k : A -> M B) :
  spec m (fun _ ev => Forall P ev) ->
  (forall a, spec (k a) (fun _ ev => Forall P ev)) ->
  spec (bind m k) (fun _ ev => Forall P ev).
Proof.
  intros Hm Hk. eapply spec_bind; [exact Hm| |].
  - intros e ev H. exact H.
  - intros a ev1 H1. eapply spec_weaken; [apply Hk|].
    intros out ev2 H2. apply Forall_app. split; assumption.
Qed.

Section Addressed.
Variable rm : remote.
Variable order_id : option string.
Variable fo : string.

Let P := addressed order_id fo.

Lemma emits_sleep ms : (ms = 1000 \/ ms = 2000 \/ ms = 3000)%Z ->
  spec (sleep ms) (fun _ ev => Forall P ev).
Proof.
  intros Hms. eapply spec_weaken; [apply spec_sleep|].
  intros out ev [_ ->]. constructor; [exact Hms|constructor].
Qed.

Lemma emits_fetch : spec (get_fulfillment_order_details rm fo) (fun _ ev => Forall P ev).
Proof.
  eapply spec_weaken; [apply spec_fetch|]. intros out ev ->.
  constructor; [reflexivity|constructor].
Qed.

Lemma emits_split sent : sent <> [] ->
  spec (split_fulfillment_order rm fo sent) (fun _ ev => Forall P ev).
Proof.
  intros Hs. eapply spec_weaken; [apply spec_split|]. intros out ev ->.
  constructor; [split; [reflexivity|exact Hs]|constructor].
Qed.

Lemma emits_tag_order tag r : spec (tag_order rm order_id tag r) (fun _ ev => Forall P ev).
Proof.
  intros log. unfold tag_order, add_tag_to_order, id_truthy.
  destruct order_id as [oid|] eqn:Hoid.
  - destruct (String.eqb_spec oid "") as [->|Hne]; cbn [negb].
    + exists (Ok r), []. rewrite app_nil_r. split; [reflexivity|constructor].
    + unfold bind. rewrite tag_result_ok_total. cbn [ret].
      eexists _, [_]. split; [reflexivity|].
      constructor; [|constructor]. exists oid. auto.
  - exists (Ok r), []. rewrite app_nil_r. split; [reflexivity|constructor].
Qed.

Lemma emits_pre_step c r : spec (pre_step rm order_id c r) (fun _ ev => Forall P ev).
Proof.
  unfold pre_step. apply emits_bind.
  - destruct (_ && _); [apply emits_tag_order|apply emits_ret].
  - intros r1. destruct (_ || _); [|apply emits_ret].
    destruct (_ && _); [|apply emits_ret].
    destruct (elements _); [apply emits_ret|apply emits_tag_order].
Qed.

Lemma emits_split_groups msgs groups r :
  spec (split_groups rm msgs order_id fo groups r) (fun _ ev => Forall P ev).
Proof.
  revert r. induction groups as [|[loc its] rest IH]; intros r; cbn [split_groups].
  - apply emits_ret.
  - destruct its as [|x its]; cbn [nonempty negb]; [apply IH|].
    apply emits_bind; [apply emits_split; discriminate|].
    intros [new_id st]. apply emits_bind; [apply emits_sleep; tauto|]. intros [].
    destruct (id_truthy new_id); [|apply emits_ret].
    apply emits_bind; [apply emits_tag_order|]. intros r2.
    apply emits_bind; [apply emits_sleep; tauto|]. intros [].
    apply emits_bind; [apply emits_fetch|]. intros [d|]; [apply IH|apply emits_ret].
Qed.

Lemma emits_split_length_rooftopshop c r :
  spec (split_length_rooftopshop rm order_id fo c r) (fun _ ev => Forall P ev).
Proof.
  unfold split_length_rooftopshop.
  destruct (length_rooftopshop c) as [|x l]; cbn [nonempty]; [apply emits_ret|].
  apply emits_bind; [apply emits_split; discriminate|].
  intros [new_id st]. destruct (id_truthy new_id); [|apply emits_ret].
  apply emits_bind; [apply emits_tag_order|]. intros r2.
  apply emits_bind; [apply emits_sleep; tauto|]. intros [].
  apply emits_bind; [apply emits_fetch|]. intros [d|]; apply emits_ret.
Qed.

Lemma emits_length_branch c r :
  spec (length_branch rm order_id fo c r) (fun _ ev => Forall P ev).
Proof.
  unfold length_branch. apply emits_bind; [apply emits_split_length_rooftopshop|].
  intros [r'|[r' fd]]; [apply emits_ret|].
  destruct (negb _); [|apply emits_ret].
  apply emits_bind.
  - destruct fd; [apply emits_ret|apply emits_fetch].
  - intros [d|]; [apply emits_split_groups|apply emits_ret].
Qed.

Lemma emits_no_length_branch c r :
  spec (no_length_branch rm order_id fo c r) (fun _ ev => Forall P ev).
Proof.
  unfold no_length_branch. destruct (all_non_length_at_rooftopshop _); [apply emits_ret|].
  apply emits_bind; [apply emits_fetch|].
  intros [d|]; [apply emits_split_groups|apply emits_ret].
Qed.

Lemma emits_process c :
  spec (process_fulfillment_according_to_decision_tree rm order_id fo c)
    (fun _ ev => Forall P ev).
Proof.
  unfold process_fulfillment_according_to_decision_tree.
  apply emits_bind; [apply emits_pre_step|]. intros r.
  destruct (has_length_items _).
  - apply emits_bind; [apply emits_length_branch|]. intros r'. apply emits_ret.
  - apply emits_bind; [apply emits_no_length_branch|]. intros r'. apply emits_ret.
Qed.
End Addressed.

Lemma run_addressed rm order_id fo c :
  Forall (addressed order_id fo) (snd (run rm order_id fo c)).
Proof.
  unfold run. destruct (emits_process rm order_id fo c []) as (out & ev & -> & H).
  exact H.
Qed.



(** X18. A run without an order id, or with an empty one, makes no tag
    call at all and reports no tag; its splits and fetches are made all
    the same. *)
Theorem run_without_order_id_adds_no_tag (rm : remote) (order_id : option string)
    (fo : string) (c : categories) :
  id_truthy order_id = false ->
  Forall (fun e => is_tag e = false) (snd (run rm order_id fo c))
  /\ (forall r c', fst (run rm order_id fo c) = Ok (r, c') -> tags_added r = []).
Proof.
  intros Hid.
  assert (Hnone : Forall (fun e => is_tag e = false) (snd (run rm order_id fo c))).
  { eapply List.Forall_impl; [|apply run_addressed].
    intros [gid tag reply| | |] Ha; try reflexivity.
    destruct Ha as (oid & -> & Hne & _). cbn in Hid.
    apply String.eqb_neq in Hne. rewrite Hne in Hid. discriminate. }
  split; [exact Hnone|].
  intros r c' Hrun. unfold run in *.
  destruct (process_tracked rm order_id fo c []) as (out & ev & Heq & Htr).
  rewrite Heq in Hrun, Hnone. cbn [fst snd app] in *. subst out.
  destruct Htr as [[Htags _] _]. rewrite Htags. cbn [initial_results tags_added app].
  clear -Hnone. induction ev as [|e ev IH]; [reflexivity|].
  inversion_clear Hnone as [|? ? He Hev]. destruct e; try discriminate; cbn; auto.
Qed.

Lemma run_without_order_id_adds_no_tag_witness :
  Forall (fun e => is_tag e = false)
    (snd (run accepting None "gid://shopify/FulfillmentOrder/1"
            (categorize_items length_home_and_redfox))).
Proof.
  apply (proj1 (run_without_order_id_adds_no_tag accepting None
                  "gid://shopify/FulfillmentOrder/1"
                  (categorize_items length_home_and_redfox) eq_refl)).
Defined.

(* ===================================================================== *)
(** * How a run ends                                                      *)
(* ===================================================================== *)

Lemma smooth_app ev1 ev2 : smooth ev1 -> smooth ev2 -> smooth (ev1 ++ ev2).
Proof. intros H1 H2. apply Forall_app. split; assumption. Qed.

Lemma smooth_tags ev : Forall (fun e => is_tag e = true) ev -> smooth ev.
Proof. apply List.Forall_impl. intros [] H; try discriminate H; reflexivity. Qed.

Lemma halted_app ev1 ev2 : smooth ev1 -> halted ev2 -> halted (ev1 ++ ev2).
Proof.
  intros H1 (b & e & a & -> & Hb & He & Hr & Ha).
  exists (ev1 ++ b), e, a. rewrite app_assoc.
  repeat split; try assumption. apply smooth_app; assumption.
Qed.

Lemma broken_app x ev1 ev2 : smooth ev1 -> broken x ev2 -> broken x (ev1 ++ ev2).
Proof.
  intros H1 (b & e & -> & Hb & Hr).
  exists (ev1 ++ b), e. rewrite app_assoc.
  repeat split; try assumption. apply smooth_app; assumption.
Qed.

Lemma halted_not_smooth ev : halted ev -> ~ smooth ev.
Proof.
  intros (b & e & a & -> & _ & He & _) Hs.
  apply Forall_app in Hs as [_ Hs]. inversion_clear Hs as [|? ? He' _]. congruence.
Qed.

Lemma settled_after r ev1 r1 out ev2 :
  smooth ev1 -> success r1 = success r -> error r1 = error r ->
  settled r1 out ev2 -> settled r out (ev1 ++ ev2).
Proof.
  intros H1 Hs He. destruct out as [r'|x]; cbn [settled].
  - intros [(H2 & Hs2 & He2)|(Hh & Hs2 & He2)].
    + left. repeat split; [apply smooth_app; assumption|congruence..].
    + right. repeat split; [apply halted_app; assumption|assumption..].
  - apply broken_app, H1.
Qed.

Lemma settled_any_after order_id r ev1 r1 out ev2 :
  smooth ev1 -> success r1 = success r -> error r1 = error r ->
  settled_any order_id r1 out ev2 -> settled_any order_id r out (ev1 ++ ev2).
Proof.
  intros H1 Hs He. destruct out as [r'|x]; cbn [settled_any].
  - apply (settled_after r ev1 r1 (Ok r') ev2 H1 Hs He).
  - intros [Hb|(-> & H2 & Hnt)].
    + left. apply broken_app; assumption.
    + right. repeat split; try apply Hnt. apply smooth_app; assumption.
Qed.

Section SettledAny.
Variable rm : remote.
Variable order_id : pyval.

(** A tag site: it changes nothing but [tags_added] and adds tag calls
    only, or it raises before any call because the order id is not
    text. *)
Lemma spec_tag_order_any tag r :
  spec (AnyId.tag_order rm order_id tag r)
    (fun out ev =>
       match out with
       | Ok r' => success r' = success r /\ error r' = error r
                  /\ Forall (fun e => is_tag e = true) ev
       | Raise x => x = AttributeError /\ ev = [] /\ AnyId.not_text order_id
       end).
Proof.
  intros log. unfold AnyId.tag_order, AnyId.add_tag_to_order.
  destruct (truthy order_id) eqn:Ht; cbn [negb].
  - destruct order_id as [| | | |s| |] eqn:Hid;
      try (exists (Raise AttributeError), []; rewrite app_nil_r;
           split; [reflexivity|];
           split; [reflexivity|split; [reflexivity|split; [exact Ht|discriminate]]]).
    unfold bind. rewrite tag_result_ok_total. cbn [ret].
    eexists _, [_]. split; [reflexivity|].
    destruct (tag_ok _); repeat split; repeat constructor.
  - exists (Ok r), []. rewrite app_nil_r. split; [reflexivity|].
    repeat split. constructor.
Qed.

(** The pre-step ends no run: it raises only at a tag site. *)
Lemma pre_step_any c r :
  spec (AnyId.pre_step rm order_id c r)
    (fun out ev =>
       Forall (fun e => is_tag e = true) ev
       /\ match out with
          | Ok r' => success r' = success r /\ error r' = error r
          | Raise x => x = AttributeError /\ AnyId.not_text order_id
          end).
Proof.
  unfold AnyId.pre_step.
  assert (Hret : forall r0, spec (ret (A := results) r0)
            (fun out ev => match out with
                           | Ok r' => success r' = success r0 /\ error r' = error r0
                                      /\ Forall (fun e => is_tag e = true) ev
                           | Raise x => x = AttributeError /\ ev = []
                                        /\ AnyId.not_text order_id
                           end)).
  { intros r0. apply spec_ret. repeat split. constructor. }
  eapply spec_bind.
  - destruct (has_length_items (summary c) && (length (length_external c) =? 0)%nat);
      [apply spec_tag_order_any|apply Hret].
  - intros e ev (-> & -> & Hnt). split; [constructor|split; [reflexivity|exact Hnt]].
  - intros r1 ev1 (Hsu1 & Her1 & Ht1).
    assert (Hthen : forall m,
              spec m (fun out ev => match out with
                                    | Ok r' => success r' = success r1 /\ error r' = error r1
                                               /\ Forall (fun e => is_tag e = true) ev
                                    | Raise x => x = AttributeError /\ ev = []
                                                 /\ AnyId.not_text order_id
                                    end) ->
              spec m (fun out ev2 =>
                        Forall (fun e => is_tag e = true) (ev1 ++ ev2)
                        /\ match out with
                           | Ok r' => success r' = success r /\ error r' = error r
                           | Raise x => x = AttributeError /\ AnyId.not_text order_id
                           end)).
    { intros m Hm. eapply spec_weaken; [exact Hm|].
      intros [r'|x] ev2.
      - intros (Hsu2 & Her2 & Ht2). split; [apply Forall_app; split; assumption|].
        split; congruence.
      - intros (-> & -> & Hnt). rewrite app_nil_r. split; [exact Ht1|].
        split; [reflexivity|exact Hnt]. }
    apply Hthen.
    destruct ((0 <? length (length_external c))%nat || (0 <? length (non_length_external c))%nat);
      [|apply Hret].
    match goal with |- context [if ?b then _ else _] => destruct b end; [|apply Hret].
    destruct (elements _); [apply Hret|apply spec_tag_order_any].
Qed.

Lemma split_groups_settled msgs fo groups r :
  spec (AnyId.split_groups rm msgs order_id fo groups r) (settled_any order_id r).
Proof.
  revert r. induction groups as [|[loc its] rest IH]; intros r; cbn [AnyId.split_groups].
  - apply spec_ret. left. repeat split. constructor.
  - destruct (negb (nonempty its)); [apply IH|].
    eapply spec_bind; [apply spec_split| |].
    + intros e ev ->. left. exists [], (SplitCall fo its (Raise e)). repeat split. constructor.
    + intros [new_id st] ev1 ->.
      eapply spec_bind; [apply spec_sleep| |]; [intros ? ? [[=] _]|].
      intros [] ev2 [_ ->].
      destruct (id_truthy new_id) eqn:Hid.
      * assert (Hsplit : smooth ([SplitCall fo its (Ok (new_id, st))] ++ [SleepCall 3000])).
        { cbn [app]. constructor; [cbn; rewrite Hid; reflexivity|]. repeat constructor. }
        eapply spec_bind; [apply spec_tag_order_any| |].
        { intros e ev (-> & -> & Hnt). right. rewrite app_nil_r.
          split; [reflexivity|]. split; [exact Hsplit|exact Hnt]. }
        intros r2 ev3 (Hsu & Her & Htags).
        cbn [append_split success error] in Hsu, Her.
        eapply spec_bind; [apply spec_sleep| |]; [intros ? ? [[=] _]|].
        intros [] ev4 [_ ->].
        assert (Hsm : smooth ([SplitCall fo its (Ok (new_id, st))] ++ [SleepCall 3000]
                                ++ ev3 ++ [SleepCall 1000])).
        { cbn [app]. constructor; [cbn; rewrite Hid; reflexivity|].
          constructor; [reflexivity|].
          apply smooth_app; [apply smooth_tags, Htags|repeat constructor]. }
        eapply spec_bind; [apply spec_fetch| |].
        -- intros e ev ->. left.
           exists ([SplitCall fo its (Ok (new_id, st))] ++ [SleepCall 3000]
                     ++ ev3 ++ [SleepCall 1000]), (FetchCall fo (Raise e)).
           split; [rewrite <- ?app_assoc; reflexivity|]. split; [exact Hsm|reflexivity].
        -- intros details ev5 ->. destruct details as [d|].
           ++ eapply spec_weaken; [apply IH|]. intros out ev Hst.
              assert (Hsm' : smooth (([SplitCall fo its (Ok (new_id, st))] ++ [SleepCall 3000]
                                        ++ ev3 ++ [SleepCall 1000])
                                     ++ [FetchCall fo (Ok (Some d))])).
              { apply smooth_app; [exact Hsm|repeat constructor]. }
              pose proof (settled_any_after order_id r _ r2 out ev Hsm' Hsu Her Hst) as H.
              rewrite <- ?app_assoc in H. rewrite <- ?app_assoc. exact H.
           ++ apply spec_ret. cbn [settled_any settled]. right.
              split; [|split; [reflexivity|eexists; reflexivity]].
              exists ([SplitCall fo its (Ok (new_id, st))] ++ [SleepCall 3000]
                        ++ ev3 ++ [SleepCall 1000]), (FetchCall fo (Ok None)), [].
              split; [rewrite <- ?app_assoc; reflexivity|].
              repeat split; [exact Hsm|constructor].
      * apply spec_ret. cbn [settled_any settled]. right.
        split; [|split; [reflexivity|eexists; reflexivity]].
        exists [], (SplitCall fo its (Ok (new_id, st))), [SleepCall 3000].
        split; [reflexivity|]. split; [constructor|].
        split; [cbn; rewrite Hid; reflexivity|]. split; [reflexivity|repeat constructor].
Qed.

Lemma split_length_rooftopshop_settled fo c r :
  spec (AnyId.split_length_rooftopshop rm order_id fo c r) (settled_any_step order_id r).
Proof.
  unfold AnyId.split_length_rooftopshop.
  destruct (nonempty (length_rooftopshop c));
    [|apply spec_ret; repeat split; constructor].
  set (combined := map to_split (length_rooftopshop c) ++ _).
  eapply spec_bind; [apply spec_split| |].
  - intros e ev ->. left. exists [], (SplitCall fo combined (Raise e)).
    repeat split. constructor.
  - intros [new_id st] ev1 ->.
    destruct (id_truthy new_id) eqn:Hid.
    + assert (Hsplit : smooth [SplitCall fo combined (Ok (new_id, st))]).
      { constructor; [cbn; rewrite Hid; reflexivity|constructor]. }
      eapply spec_bind; [apply spec_tag_order_any| |].
      { intros e ev (-> & -> & Hnt). right. rewrite app_nil_r.
        split; [reflexivity|]. split; [exact Hsplit|exact Hnt]. }
      intros r2 ev3 (Hsu & Her & Htags).
      cbn [append_split success error] in Hsu, Her.
      eapply spec_bind; [apply spec_sleep| |]; [intros ? ? [[=] _]|].
      intros [] ev4 [_ ->].
      assert (Hsm : smooth ([SplitCall fo combined (Ok (new_id, st))] ++ ev3
                              ++ [SleepCall 2000])).
      { cbn [app]. constructor; [cbn; rewrite Hid; reflexivity|].
        apply smooth_app; [apply smooth_tags, Htags|repeat constructor]. }
      eapply spec_bind; [apply spec_fetch| |].
      * intros e ev ->. left.
        exists ([SplitCall fo combined (Ok (new_id, st))] ++ ev3 ++ [SleepCall 2000]),
          (FetchCall fo (Raise e)).
        split; [rewrite <- ?app_assoc; reflexivity|]. split; [exact Hsm|reflexivity].
      * intros details ev5 ->.
        destruct details as [d|]; apply spec_ret; cbn [settled_any_step settled_step].
        -- split; [|split; assumption].
           rewrite app_nil_r.
           assert (Hsm' : smooth (([SplitCall fo combined (Ok (new_id, st))] ++ ev3
                                     ++ [SleepCall 2000]) ++ [FetchCall fo (Ok (Some d))])).
           { apply smooth_app; [exact Hsm|repeat constructor]. }
           rewrite <- ?app_assoc in Hsm'. rewrite <- ?app_assoc. exact Hsm'.
        -- split; [|split; [reflexivity|eexists; reflexivity]].
           exists ([SplitCall fo combined (Ok (new_id, st))] ++ ev3 ++ [SleepCall 2000]),
             (FetchCall fo (Ok None)), [].
           split; [rewrite app_nil_r, <- ?app_assoc; reflexivity|].
           repeat split; [exact Hsm|constructor].
    + apply spec_ret. cbn [settled_any_step settled_step].
      split; [|split; [reflexivity|eexists; reflexivity]].
      exists [], (SplitCall fo combined (Ok (new_id, st))), [].
      split; [reflexivity|]. split; [constructor|].
      split; [cbn; rewrite Hid; reflexivity|]. split; [reflexivity|constructor].
Qed.

Lemma length_branch_settled fo c r :
  spec (AnyId.length_branch rm order_id fo c r) (settled_any order_id r).
Proof.
  unfold AnyId.length_branch.
  eapply spec_bind; [apply split_length_rooftopshop_settled| |].
  - intros e ev H. exact H.
  - intros [r'|[r' fd]] ev1; cbn [settled_any_step settled_step].
    + intros H. apply spec_ret. rewrite app_nil_r. right. exact H.
    + intros (Hsm & Hsu & Her).
      destruct (negb (all_items_at_rooftopshop (summary c)));
        [|apply spec_ret; rewrite app_nil_r; left; repeat split; assumption].
      eapply spec_bind with
        (P := fun out ev => match out with
                            | Ok (Some _) => smooth ev
                            | Ok None => ev = [FetchCall fo (Ok None)]
                            | Raise x => ev = [FetchCall fo (Raise x)]
                            end).
      * destruct fd as [d|].
        -- apply spec_ret. constructor.
        -- eapply spec_weaken; [apply spec_fetch|].
           intros [[d|]|x] ev ->; try reflexivity. repeat constructor.
      * intros e ev2 ->. left. exists ev1, (FetchCall fo (Raise e)).
        repeat split. exact Hsm.
      * intros [d|] ev2 H2.
        -- eapply spec_weaken; [apply split_groups_settled|].
           intros out ev Hst.
           pose proof (settled_any_after order_id r (ev1 ++ ev2) r' out ev
                         (smooth_app _ _ Hsm H2) Hsu Her Hst) as H.
           rewrite <- app_assoc in H. exact H.
        -- subst ev2. apply spec_ret. rewrite app_nil_r. right.
           split; [|split; [reflexivity|eexists; reflexivity]].
           exists ev1, (FetchCall fo (Ok None)), [].
           repeat split; [exact Hsm|constructor].
Qed.

Lemma no_length_branch_settled fo c r :
  spec (AnyId.no_length_branch rm order_id fo c r) (settled_any order_id r).
Proof.
  unfold AnyId.no_length_branch.
  destruct (all_non_length_at_rooftopshop (summary c));
    [apply spec_ret; left; repeat split; constructor|].
  eapply spec_bind; [apply spec_fetch| |].
  - intros e ev ->. left. exists [], (FetchCall fo (Raise e)). repeat split. constructor.
  - intros [d|] ev1 ->.
    + eapply spec_weaken; [apply split_groups_settled|].
      intros out ev Hst.
      apply (settled_any_after order_id r [FetchCall fo (Ok (Some d))] r out ev);
        try reflexivity; [repeat constructor|exact Hst].
    + apply spec_ret. right.
      split; [|split; [reflexivity|eexists; reflexivity]].
      exists [], (FetchCall fo (Ok None)), []. repeat split; constructor.
Qed.

Lemma process_settled fo c :
  spec (AnyId.process_fulfillment_according_to_decision_tree rm order_id fo c)
    (fun out ev =>
       match out with
       | Ok (r, _) => settled initial_results (Ok r) ev
       | Raise x =>
           broken x ev \/ (x = AttributeError /\ smooth ev /\ AnyId.not_text order_id)
       end).
Proof.
  unfold AnyId.process_fulfillment_according_to_decision_tree.
  eapply spec_bind; [apply pre_step_any| |].
  - intros e ev (Htags & -> & Hnt). right.
    split; [reflexivity|]. split; [apply smooth_tags, Htags|exact Hnt].
  - intros r1 ev1 (Htags & Hsu & Her).
    assert (Hbranch : forall (m : M results) (c' : categories),
              spec m (settled_any order_id r1) ->
              spec (bind m (fun r' => ret (r', c')))
                (fun out ev2 =>
                   match out with
                   | Ok (r, _) => settled initial_results (Ok r) (ev1 ++ ev2)
                   | Raise x =>
                       broken x (ev1 ++ ev2)
                       \/ (x = AttributeError /\ smooth (ev1 ++ ev2)
                           /\ AnyId.not_text order_id)
                   end)).
    { intros m c' Hm. eapply spec_bind; [exact Hm| |].
      - intros e ev2 H.
        exact (settled_any_after order_id initial_results ev1 r1 (Raise e) ev2
                 (smooth_tags _ Htags) Hsu Her H).
      - intros r2 ev2 H. apply spec_ret. rewrite app_nil_r.
        exact (settled_any_after order_id initial_results ev1 r1 (Ok r2) ev2
                 (smooth_tags _ Htags) Hsu Her H). }
    destruct (has_length_items (summary c)); apply Hbranch;
      [apply length_branch_settled|apply no_length_branch_settled].
Qed.
End SettledAny.

(* ===================================================================== *)
(** * The tree for any order id and the tree for text                     *)
(* ===================================================================== *)

Lemma same_bind {A B} (m1 m2 : M A) (k1 k2 : A -> M B) :
  same_run m1 m2 -> (forall a, same_run (k1 a) (k2 a)) -> same_run (bind m1 k1) (bind m2 k2).
Proof.
  intros Hm Hk log. unfold bind. rewrite Hm.
  destruct (m2 log) as [[a|e] log']; [apply Hk|reflexivity].
Qed.

Lemma same_refl {A} (m : M A) : same_run m m.
Proof. intros log. reflexivity. Qed.

Section SameTree.
Variable rm : remote.
Variable oid : option string.

Let order_id := AnyId.id_value oid.

Lemma same_tag_order tag r :
  same_run (AnyId.tag_order rm order_id tag r) (tag_order rm oid tag r).
Proof.
  intros log. unfold order_id, AnyId.tag_order, tag_order, AnyId.add_tag_to_order,
    add_tag_to_order, id_truthy, bind.
  destruct oid as [s|]; [|reflexivity]. cbn [AnyId.id_value truthy].
  destruct (String.eqb s ""); reflexivity.
Qed.

Lemma same_pre_step c r :
  same_run (AnyId.pre_step rm order_id c r) (pre_step rm oid c r).
Proof.
  unfold AnyId.pre_step, pre_step. apply same_bind.
  - destruct (_ && _); [apply same_tag_order|apply same_refl].
  - intros r1. destruct (_ || _); [|apply same_refl].
    destruct (_ && _); [|apply same_refl].
    destruct (elements _); [apply same_refl|apply same_tag_order].
Qed.

Lemma same_split_groups msgs fo groups r :
  same_run (AnyId.split_groups rm msgs order_id fo groups r)
    (split_groups rm msgs oid fo groups r).
Proof.
  revert r. induction groups as [|[loc its] rest IH]; intros r;
    cbn [AnyId.split_groups split_groups]; [apply same_refl|].
  destruct (negb (nonempty its)); [apply IH|].
  apply same_bind; [apply same_refl|]. intros [new_id st].
  apply same_bind; [apply same_refl|]. intros [].
  destruct (id_truthy new_id); [|apply same_refl].
  apply same_bind; [apply same_tag_order|]. intros r2.
  apply same_bind; [apply same_refl|]. intros [].
  apply same_bind; [apply same_refl|]. intros [d|]; [apply IH|apply same_refl].
Qed.

Lemma same_split_length_rooftopshop fo c r :
  same_run (AnyId.split_length_rooftopshop rm order_id fo c r)
    (split_length_rooftopshop rm oid fo c r).
Proof.
  unfold AnyId.split_length_rooftopshop, split_length_rooftopshop.
  destruct (nonempty (length_rooftopshop c)); [|apply same_refl].
  apply same_bind; [apply same_refl|]. intros [new_id st].
  destruct (id_truthy new_id); [|apply same_refl].
  apply same_bind; [apply same_tag_order|]. intros r2. apply same_refl.
Qed.

Lemma same_length_branch fo c r :
  same_run (AnyId.length_branch rm order_id fo c r) (length_branch rm oid fo c r).
Proof.
  unfold AnyId.length_branch, length_branch.
  apply same_bind; [apply same_split_length_rooftopshop|].
  intros [r'|[r' fd]]; [apply same_refl|].
  destruct (negb _); [|apply same_refl].
  apply same_bind; [apply same_refl|].
  intros [d|]; [apply same_split_groups|apply same_refl].
Qed.

Lemma same_no_length_branch fo c r :
  same_run (AnyId.no_length_branch rm order_id fo c r) (no_length_branch rm oid fo c r).
Proof.
  unfold AnyId.no_length_branch, no_length_branch.
  destruct (all_non_length_at_rooftopshop _); [apply same_refl|].
  apply same_bind; [apply same_refl|].
  intros [d|]; [apply same_split_groups|apply same_refl].
Qed.

Lemma same_process fo c :
  same_run (AnyId.process_fulfillment_according_to_decision_tree rm order_id fo c)
    (process_fulfillment_according_to_decision_tree rm oid fo c).
Proof.
  unfold AnyId.process_fulfillment_according_to_decision_tree,
    process_fulfillment_according_to_decision_tree.
  apply same_bind; [apply same_pre_step|]. intros r.
  destruct (has_length_items _).
  - apply same_bind; [apply same_length_branch|]. intros r'. apply same_refl.
  - apply same_bind; [apply same_no_length_branch|]. intros r'. apply same_refl.
Qed.
End SameTree.

(** X19. How a run ends, for whatever value the handler read as order
    id. If it raises, either the exception is the one raised by its last
    call, a split or a fetch, and no call before that was refused; or the
    order id is truthy and not text, a number for instance, and the
    exception is the [AttributeError] of the first tag site the run
    reached, no call before having been refused, which can be after a
    split that went through. If it returns, [success] is true exactly
    when [error] is [None], and exactly when every split gave a new order
    id and every fetch gave details. Otherwise the log stops at the first
    split without a new order id or fetch without details, followed by
    sleeps at most, and [error] holds a message. A tag that could not be
    added never changes how a run ends. On [None] and on text the run is
    the run of the decision tree above. *)
Theorem run_verdict (rm : remote) (order_id : pyval) (fo : string) (c : categories) :
  (forall oid, order_id = AnyId.id_value oid ->
     AnyId.run rm order_id fo c = run rm oid fo c)
  /\ let '(out, log) := AnyId.run rm order_id fo c in
     match out with
     | Ok (r, _) =>
         (success r = true <-> error r = None)
         /\ (success r = true <-> smooth log)
         /\ (success r = false -> halted log /\ exists msg, error r = Some msg)
     | Raise x =>
         broken x log
         \/ (x = AttributeError /\ smooth log /\ AnyId.not_text order_id)
     end.
Proof.
  split.
  - intros oid ->. apply same_process.
  - unfold AnyId.run.
    destruct (process_settled rm order_id fo c []) as (out & ev & -> & H).
    cbn [app]. destruct out as [[r c']|x]; [|exact H].
    cbn [settled initial_results success error] in H.
    destruct H as [(Hsm & Hsu & Her)|(Hh & Hsu & msg & Her)].
    + rewrite Hsu, Her. repeat split; auto; discriminate.
    + rewrite Hsu, Her. repeat split; try discriminate; eauto.
      intros Hsm. exfalso. exact (halted_not_smooth ev Hh Hsm).
Qed.

(** A numeric order id and two plain items at two external locations:
    the first split goes through, and the tag site after it raises. *)
Lemma run_verdict_witness :
  AnyId.run (accepting_unchanged compri_and_redfox) (PInt 9)
    "gid://shopify/FulfillmentOrder/1" (categorize_items compri_and_redfox)
  = (Raise AttributeError,
     [FetchCall "gid://shopify/FulfillmentOrder/1" (Ok (Some compri_and_redfox));
      SplitCall "gid://shopify/FulfillmentOrder/1"
        [{| split_id := "gid://shopify/FulfillmentOrderLineItem/1"; split_quantity := 1 |}]
        (Ok (Some "gid://shopify/FulfillmentOrder/2", "OPEN"));
      SleepCall 3000])
  /\ (broken AttributeError
        (snd (AnyId.run (accepting_unchanged compri_and_redfox) (PInt 9)
                "gid://shopify/FulfillmentOrder/1" (categorize_items compri_and_redfox)))
      \/ (AttributeError = AttributeError
          /\ smooth
               (snd (AnyId.run (accepting_unchanged compri_and_redfox) (PInt 9)
                       "gid://shopify/FulfillmentOrder/1"
                       (categorize_items compri_and_redfox)))
          /\ AnyId.not_text (PInt 9))).
Proof.
  split; [vm_compute; reflexivity|].
  exact (proj2 (run_verdict (accepting_unchanged compri_and_redfox) (PInt 9)
                  "gid://shopify/FulfillmentOrder/1"
                  (categorize_items compri_and_redfox))).
Defined.

(* ===================================================================== *)
(** * The first split of the length branch                                *)
(* ===================================================================== *)

Lemma count_tags p ev :
  (forall e, is_tag e = true -> p e = false) ->
  Forall (fun e => is_tag e = true) ev -> count p ev = 0%nat.
Proof.
  intros Hp H. unfold count. induction H as [|e ev He _ IH]; [reflexivity|].
  cbn [List.filter]. rewrite (Hp e He). exact IH.
Qed.

Lemma combined_items (c : buckets) :
  map to_split (length_rooftopshop c)
  ++ (if nonempty (daktrim_koppelstukje_rooftopshop c)
      then map to_split (daktrim_koppelstukje_rooftopshop c) else [])
  = map to_split (length_rooftopshop c ++ daktrim_koppelstukje_rooftopshop c).
Proof.
  rewrite List.map_app. destruct (daktrim_koppelstukje_rooftopshop c); reflexivity.
Qed.

Section FirstLengthSplit.
Variable rm : remote.

Lemma any_ret {A} (a : A) : spec (ret a) (fun _ _ => True).
Proof. apply spec_ret. exact I. Qed.

Lemma any_bind {A B} (m : M A) (k : A -> M B) :
  spec m (fun _ _ => True) -> (forall a, spec (k a) (fun _ _ => True)) ->
  spec (bind m k) (fun _ _ => True).
Proof.
  intros Hm Hk. eapply spec_bind; [exact Hm| |]; [intros; exact I|].
  intros a ev1 _. eapply spec_weaken; [apply Hk|]. intros; exact I.
Qed.

Lemma any_sleep ms : spec (sleep ms) (fun _ _ => True).
Proof. eapply spec_weaken; [apply spec_sleep|]. intros; exact I. Qed.

Lemma any_fetch fo : spec (get_fulfillment_order_details rm fo) (fun _ _ => True).
Proof. eapply spec_weaken; [apply (spec_fetch rm)|]. intros; exact I. Qed.

Lemma any_tag_order order_id tag r : spec (tag_order rm order_id tag r) (fun _ _ => True).
Proof. eapply spec_weaken; [apply spec_tag_order|]. intros; exact I. Qed.

Lemma split_length_rooftopshop_first log order_id fo (c : categories) r :
  length_rooftopshop c <> [] -> count is_split log = 0%nat ->
  spec_at log (split_length_rooftopshop rm order_id fo c r)
    (fun _ ev =>
       exists rest,
         ev = SplitCall fo
                (map to_split (length_rooftopshop c ++ daktrim_koppelstukje_rooftopshop c))
                (split_reply rm 0) :: rest).
Proof.
  intros Hl Hcount. unfold split_length_rooftopshop. rewrite combined_items.
  destruct (length_rooftopshop c) as [|x l] eqn:Hlr; [congruence|]. cbn [nonempty].
  rewrite <- Hlr.
  eapply spec_at_bind; [apply at_split| |].
  - rewrite Hcount. intros e ev [-> ->]. eexists. reflexivity.
  - rewrite Hcount. intros a ev1 [Ha ->]. rewrite <- Ha.
    eapply spec_at_weaken with (P := fun _ _ => True);
      [|intros out ev2 _; cbn [app]; eexists; reflexivity].
    apply spec_to_at. destruct a as [new_id st].
    destruct (id_truthy new_id); [|apply any_ret].
    apply any_bind; [apply any_tag_order|]. intros r2.
    apply any_bind; [apply any_sleep|]. intros [].
    apply any_bind; [apply any_fetch|]. intros [d|]; apply any_ret.
Qed.

Lemma length_branch_first log order_id fo (c : categories) r :
  length_rooftopshop c <> [] -> count is_split log = 0%nat ->
  spec_at log (length_branch rm order_id fo c r)
    (fun _ ev =>
       exists rest,
         ev = SplitCall fo
                (map to_split (length_rooftopshop c ++ daktrim_koppelstukje_rooftopshop c))
                (split_reply rm 0) :: rest).
Proof.
  intros Hl Hcount. unfold length_branch.
  eapply spec_at_bind; [apply split_length_rooftopshop_first; assumption| |].
  - intros e ev H. exact H.
  - intros step ev1 (rest & ->).
    eapply spec_at_weaken with (P := fun _ _ => True);
      [|intros out ev2 _; cbn [app]; eexists; reflexivity].
    apply spec_to_at. destruct step as [r'|[r' fd]]; [apply any_ret|].
    destruct (negb _); [|apply any_ret].
    apply any_bind.
    + destruct fd; [apply any_ret|apply any_fetch].
    + intros [d|]; [apply split_groups_runs|apply any_ret].
Qed.
End FirstLengthSplit.

(** X20. The first split of an order with length items at home. After
    the tags of the pre-step, the run starts with one split that carries
    every length item at home followed by every coupling piece at home,
    each with its full quantity, in the order of the line items; it is the
    first split the remote side sees. *)
Theorem length_items_at_home_split_first (rm : remote) (order_id : option string)
    (fo : string) (c : categories) :
  has_length_items (summary c) = true ->
  length_rooftopshop c <> [] ->
  exists tags rest,
    snd (run rm order_id fo c)
    = tags
      ++ SplitCall fo
           (map to_split (length_rooftopshop c ++ daktrim_koppelstukje_rooftopshop c))
           (split_reply rm 0) :: rest
    /\ Forall (fun e => is_tag e = true) tags.
Proof.
  intros Hlen Hl. unfold run, process_fulfillment_according_to_decision_tree.
  rewrite Hlen.
  assert (H : spec_at []
    (bind (pre_step rm order_id c initial_results)
       (fun r => bind (length_branch rm order_id fo c r) (fun r' => ret (r', c))))
    (fun _ ev => exists tags rest,
       ev = tags
            ++ SplitCall fo
                 (map to_split (length_rooftopshop c ++ daktrim_koppelstukje_rooftopshop c))
                 (split_reply rm 0) :: rest
       /\ Forall (fun e => is_tag e = true) tags)).
  { eapply spec_at_bind; [apply spec_to_at, pre_step_tracked| |].
    - intros e ev (r' & [=] & _).
    - intros r1 ev1 (r' & _ & _ & _ & _ & _ & _ & Htags). cbn [app].
      eapply spec_at_bind;
        [apply length_branch_first;
         [exact Hl|apply count_tags; [intros []; try discriminate; reflexivity|exact Htags]]| |].
      + intros e ev (rest & ->). exists ev1, rest. split; [reflexivity|exact Htags].
      + intros r2 ev2 (rest & ->). apply spec_at_ret. rewrite app_nil_r.
        exists ev1, rest. split; [reflexivity|exact Htags]. }
  destruct H as (out & ev & -> & Hev). exact Hev.
Qed.

Lemma length_items_at_home_split_first_witness :
  exists tags rest,
    snd (run accepting (Some "9") "gid://shopify/FulfillmentOrder/1"
           (categorize_items three_items))
    = tags
      ++ SplitCall "gid://shopify/FulfillmentOrder/1"
           [{| split_id := "gid://shopify/FulfillmentOrderLineItem/2"; split_quantity := 1 |};
            {| split_id := "gid://shopify/FulfillmentOrderLineItem/1"; split_quantity := 2 |}]
           (Ok (Some "gid://shopify/FulfillmentOrder/2", "OPEN")) :: rest
    /\ Forall (fun e => is_tag e = true) tags.
Proof.
  apply (length_items_at_home_split_first accepting (Some "9")
           "gid://shopify/FulfillmentOrder/1" (categorize_items three_items)).
  - reflexivity.
  - discriminate.
Defined.

(* ===================================================================== *)
(** * Orders that need nothing, and what the handler counts               *)
(* ===================================================================== *)

Lemma run_categories rm order_id fo (c : categories) r c' :
  fst (run rm order_id fo c) = Ok (r, c') ->
  c' = if has_length_items (summary c) then c else fold_koppelstukje c.
Proof.
  unfold run, process_fulfillment_according_to_decision_tree, bind.
  destruct (pre_step rm order_id c initial_results []) as [[r1|e] log1]; [|discriminate].
  destruct (has_length_items (summary c)).
  - destruct (length_branch rm order_id fo c r1 log1) as [[r2|e] log2]; [|discriminate].
    cbn. congruence.
  - destruct (no_length_branch rm order_id fo (fold_koppelstukje c) r1 log1)
      as [[r2|e] log2]; [|discriminate].
    cbn. congruence.
Qed.

(** X21. An order that needs nothing. When every line item lists the
    home warehouse and no length item is left once the coupling pieces at
    home are set aside, the run makes no call at all: no tag, no split, no
    fetch, no sleep. It reports success with no split and no tag, and
    leaves the coupling pieces appended to the non-length items at
    home. *)
Theorem order_at_home_without_length_items (rm : remote) (order_id : option string)
    (fo : string) (details : order_details) :
  let c := categorize_items details in
  forallb at_home (line_items details) = true ->
  existsb (fun item => is_length_transport item && negb (koppelstukje_at_home item))
    (line_items details) = false ->
  run rm order_id fo c = (Ok (initial_results, fold_koppelstukje c), []).
Proof.
  cbv zeta. intros Hhome Hlen.
  pose proof (has_length_items_of_items details) as H1.
  pose proof (all_items_at_rooftopshop_of_items details) as H3.
  rewrite Hlen in H1. rewrite Hhome in H3.
  destruct (summary_of_categorize details) as [ext Hsum].
  assert (Hext : length (length_external (categorize_items details)) = 0%nat
                 /\ length (non_length_external (categorize_items details)) = 0%nat).
  { rewrite Hsum in H3. cbn [make_summary all_items_at_rooftopshop] in H3.
    apply Nat.eqb_eq in H3. lia. }
  destruct Hext as [Hle Hnle].
  assert (H4 : all_non_length_at_rooftopshop (summary (categorize_items details)) = true).
  { rewrite Hsum. cbn [make_summary all_non_length_at_rooftopshop]. rewrite Hnle. reflexivity. }
  unfold run, process_fulfillment_according_to_decision_tree, pre_step, no_length_branch.
  rewrite H1. cbn [andb fold_koppelstukje summary]. rewrite Hle, Hnle, H4. reflexivity.
Qed.

Lemma order_at_home_without_length_items_witness :
  run accepting (Some "9") "gid://shopify/FulfillmentOrder/1"
    (categorize_items (order_of [koppelstukje_item]))
  = (Ok (initial_results, fold_koppelstukje (categorize_items (order_of [koppelstukje_item]))),
     []).
Proof.
  apply (order_at_home_without_length_items accepting (Some "9")
           "gid://shopify/FulfillmentOrder/1" (order_of [koppelstukje_item])).
  - reflexivity.
  - reflexivity.
Defined.

(** X22. What the handler counts after a run that returned. The four
    counts of [item_categories] are taken from [categories] as the run
    left it. In an order without length items the coupling pieces at home
    were appended to the non-length items at home, so the counts add up
    to the number of line items. In an order with length items the
    coupling pieces at home are in none of the four counts. *)
Theorem item_categories_counts (rm : remote) (order_id : option string) (fo : string)
    (details : order_details) (r : results) (c' : categories) :
  let c := categorize_items details in
  let counts := Handler.count_items c' in
  fst (run rm order_id fo c) = Ok (r, c') ->
  (Handler.length_items_count counts + Handler.non_length_items_count counts
   = Handler.items_at_rooftopshop counts + Handler.items_at_external counts)%nat
  /\ (Handler.length_items_count counts + Handler.non_length_items_count counts
      + (if has_length_items (summary c)
         then length (daktrim_koppelstukje_rooftopshop c) else 0)
      = length (line_items details))%nat.
Proof.
  cbv zeta. intros Hrun. apply run_categories in Hrun. subst c'.
  pose proof (items_for_lengths (line_items details)) as Hall.
  rewrite <- !bucket_length in Hall. cbn [get_bucket] in Hall.
  destruct (has_length_items (summary (categorize_items details)));
    cbn [Handler.count_items Handler.length_items_count Handler.non_length_items_count
         Handler.items_at_rooftopshop Handler.items_at_external fold_koppelstukje lists
         length_rooftopshop non_length_rooftopshop length_external non_length_external];
    rewrite ?length_app; lia.
Qed.

Lemma item_categories_counts_witness :
  let c := categorize_items three_items in
  let counts := Handler.count_items c in
  (Handler.length_items_count counts + Handler.non_length_items_count counts + 1 = 3)%nat.
Proof.
  cbv zeta.
  destruct (run accepting (Some "9") "gid://shopify/FulfillmentOrder/1"
              (categorize_items three_items)) as [[[r c']|x] log] eqn:Hrun.
  - pose proof (item_categories_counts accepting (Some "9")
                  "gid://shopify/FulfillmentOrder/1" three_items r c') as H.
    cbv zeta in H. rewrite Hrun in H. specialize (H eq_refl). destruct H as [_ H].
    vm_compute in Hrun. injection Hrun as _ <- _. exact H.
  - vm_compute in Hrun. discriminate Hrun.
Defined.

(* ===================================================================== *)
(** * The request the handler reads                                       *)
(* ===================================================================== *)

Lemma first_key_dict d keys : exists v, Handler.first_key (PDict d) keys = Ok v.
Proof.
  induction keys as [|k keys IH]; cbn [Handler.first_key py_contains res_bind]; [eauto|].
  unfold dict_has. cbn [py_index].
  destruct (dict_lookup k d); [eauto|exact IH].
Qed.

Lemma fulfillment_order_gid_prefix v gid :
  Handler.fulfillment_order_gid v = Ok gid -> String.prefix "gid://" gid = true.
Proof.
  destruct v as [| | | |s| |]; try discriminate. cbn [Handler.fulfillment_order_gid].
  destruct (String.prefix "gid://" s) eqn:Hs; intros [= <-]; [exact Hs|reflexivity].
Qed.

(** X23. The request as the handler reads it. Whatever the event, the
    fulfillment order id handed on starts with [gid://]. An event that is
    not an object is answered as a request without body. For a direct
    invocation, a [FulfillmentOrderId] key decides alone: when its value
    is empty or null the request is refused as lacking the id, even if
    [fulfillmentOrderId] or [id] hold one, and when it is a number other
    than zero [AttributeError] is raised. An API Gateway event whose body
    is the text of an object is read like a direct invocation with that
    object. *)
Theorem read_request_outcomes (json_loads : pyval -> res pyval) (event : pyval) :
  (forall order_id gid,
     Handler.read_request json_loads event = Ok (inr (order_id, gid)) ->
     String.prefix "gid://" gid = true)
  /\ ((forall d, event <> PDict d) ->
      Handler.read_request json_loads event = Ok (inl Handler.NoRequestBody))
  /\ (forall d v, event = PDict d -> dict_has "body" d = false ->
        dict_lookup "FulfillmentOrderId" d = Some v -> truthy v = false ->
        Handler.read_request json_loads event = Ok (inl Handler.NoFulfillmentOrderId))
  /\ (forall d n, event = PDict d -> dict_has "body" d = false ->
        dict_lookup "FulfillmentOrderId" d = Some (PInt n) -> n <> 0%Z ->
        Handler.read_request json_loads event = Raise AttributeError)
  /\ (forall d text body, event = PDict d ->
        dict_lookup "body" d = Some (PStr text) ->
        json_loads (PStr text) = Ok (PDict body) -> dict_has "body" body = false ->
        Handler.read_request json_loads event
        = Handler.read_request json_loads (PDict body)).
Proof.
  split; [|split; [|split; [|split]]].
  - intros order_id gid. unfold Handler.read_request.
    destruct (Handler.request_body json_loads event) as [body|]; [|discriminate].
    cbn [res_bind]. destruct (negb (truthy body)); [discriminate|].
    destruct (Handler.first_key body _) as [oid|]; [|discriminate]. cbn [res_bind].
    destruct (Handler.first_key body _) as [fid|]; [|discriminate]. cbn [res_bind].
    destruct (negb (truthy fid)); [discriminate|].
    destruct (Handler.fulfillment_order_gid fid) as [g|] eqn:Hg; [|discriminate].
    cbn [res_bind]. intros [= _ <-]. eapply fulfillment_order_gid_prefix, Hg.
  - intros Hnot. destruct event as [| | | | | |d]; try reflexivity.
    exfalso. apply (Hnot d). reflexivity.
  - intros d v -> Hbody Hfo Hv. unfold Handler.read_request, Handler.request_body.
    rewrite Hbody. cbn [res_bind].
    destruct d as [|kv d']; [discriminate|]. cbn [truthy negb].
    destruct (first_key_dict (kv :: d') ["OrderId"; "orderId"]) as [oid ->].
    cbn [res_bind Handler.first_key py_contains py_index]. unfold dict_has.
    rewrite Hfo. cbn [res_bind]. rewrite Hv. reflexivity.
  - intros d n -> Hbody Hfo Hn. unfold Handler.read_request, Handler.request_body.
    rewrite Hbody. cbn [res_bind].
    destruct d as [|kv d']; [discriminate|]. cbn [truthy negb].
    destruct (first_key_dict (kv :: d') ["OrderId"; "orderId"]) as [oid ->].
    cbn [res_bind Handler.first_key py_contains py_index]. unfold dict_has.
    rewrite Hfo. cbn [res_bind truthy].
    apply Z.eqb_neq in Hn. rewrite Hn. reflexivity.
  - intros d text body -> Hd Hloads Hbody.
    unfold Handler.read_request, Handler.request_body. unfold dict_has at 1.
    cbn [py_index]. rewrite Hd, Hbody. cbn [res_bind]. rewrite Hloads. reflexivity.
Qed.

Lemma read_request_outcomes_witness :
  Handler.read_request Json.loads
    (PDict [("FulfillmentOrderId", PStr ""); ("id", PStr "42")])
  = Ok (inl Handler.NoFulfillmentOrderId).
Proof.
  apply (proj1 (proj2 (proj2 (read_request_outcomes Json.loads
           (PDict [("FulfillmentOrderId", PStr ""); ("id", PStr "42")]))))
           [("FulfillmentOrderId", PStr ""); ("id", PStr "42")] (PStr "")).
  - reflexivity.
  - reflexivity.
  - reflexivity.
  - reflexivity.
Defined.

(* ===================================================================== *)
(** * What a run never sends                                              *)
(* ===================================================================== *)

Section Candidates.
Variable rm : remote.

Lemma length_branch_candidates order_id fo (c : categories) r :
  spec (length_branch rm order_id fo c r)
    (fun _ ev => sent_within (split_candidates c) ev).
Proof.
  unfold length_branch.
  eapply spec_bind with (P := fun _ ev => sent_within (split_candidates c) ev).
  - unfold split_length_rooftopshop. rewrite combined_items.
    destruct (nonempty (length_rooftopshop c)); [|apply spec_ret; constructor].
    assert (Hsent : incl (map to_split (length_rooftopshop c
                                        ++ daktrim_koppelstukje_rooftopshop c))
                      (split_candidates c)).
    { intros y Hy. apply in_or_app. left. exact Hy. }
    eapply spec_bind; [apply spec_split| |].
    + intros e ev ->. constructor; [exact Hsent|constructor].
    + intros [new_id st] ev1 ->.
      assert (Hrest : forall (m : M (results + results * option order_details)),
                spec m (fun _ ev => Forall (fun e => is_split e = false) ev) ->
                spec m (fun _ ev2 =>
                  sent_within (split_candidates c)
                    ([SplitCall fo (map to_split (length_rooftopshop c
                                       ++ daktrim_koppelstukje_rooftopshop c))
                        (Ok (new_id, st))] ++ ev2))).
      { intros m Hm. eapply spec_weaken; [exact Hm|]. intros out ev2 H2.
        cbn [app]. constructor; [exact Hsent|].
        eapply List.Forall_impl; [|exact H2]. intros [] He; try exact I. discriminate He. }
      apply Hrest. destruct (id_truthy new_id); [|apply emits_ret].
      apply emits_bind.
      { eapply spec_weaken; [apply spec_tag_order|].
        intros out ev (r' & _ & _ & _ & _ & _ & _ & Htags).
        eapply List.Forall_impl; [|exact Htags]. intros [] He; try discriminate He; reflexivity. }
      intros r2. apply emits_bind.
      { eapply spec_weaken; [apply spec_sleep|]. intros out ev [_ ->]. repeat constructor. }
      intros []. apply emits_bind.
      { eapply spec_weaken; [apply (spec_fetch rm)|]. intros out ev ->. repeat constructor. }
      intros [d|]; apply emits_ret.
  - intros e ev H. exact H.
  - intros [r'|[r' fd]] ev1 H1.
    + apply spec_ret. rewrite app_nil_r. exact H1.
    + assert (Hrest : forall (m : M results),
                spec m (fun _ ev => sent_within (split_candidates c) ev) ->
                spec m (fun _ ev2 => sent_within (split_candidates c) (ev1 ++ ev2))).
      { intros m Hm. eapply spec_weaken; [exact Hm|]. intros out ev2 H2.
        apply sent_within_app; assumption. }
      apply Hrest. destruct (negb _); [|apply spec_ret; constructor].
      eapply spec_bind with (P := fun _ ev => sent_within (split_candidates c) ev).
      * destruct fd; [apply spec_ret; constructor|].
        eapply spec_weaken; [apply (spec_fetch rm)|]. intros out ev ->. repeat constructor.
      * intros e ev H. exact H.
      * intros [d|] ev2 H2; [|apply spec_ret; rewrite app_nil_r; exact H2].
        eapply spec_weaken.
        -- apply (split_groups_sent rm (split_candidates c)).
           unfold split_candidates, external_candidates.
           apply group_remaining_within;
             [intros y Hy; apply in_or_app; right; rewrite map_app; apply in_or_app; right;
              exact Hy|].
           apply group_remaining_within;
             [intros y Hy; apply in_or_app; right; rewrite map_app; apply in_or_app; left;
              exact Hy|constructor].
        -- intros out ev Hev. apply sent_within_app; assumption.
Qed.

Lemma no_length_branch_candidates order_id fo (c : categories) r :
  spec (no_length_branch rm order_id fo c r)
    (fun _ ev => sent_within (map to_split (non_length_external c)) ev).
Proof.
  unfold no_length_branch. destruct (all_non_length_at_rooftopshop _);
    [apply spec_ret; constructor|].
  eapply spec_bind; [apply (spec_fetch rm)| |].
  - intros e ev ->. repeat constructor.
  - intros [d|] ev1 ->; [|apply spec_ret; repeat constructor].
    eapply spec_weaken.
    + apply (split_groups_sent rm (map to_split (non_length_external c))).
      apply group_remaining_within; [intros y Hy; exact Hy|constructor].
    + intros out ev Hev. cbn [app]. constructor; [exact I|exact Hev].
Qed.

Lemma run_candidates order_id fo (c : categories) :
  sent_within
    (if has_length_items (summary c) then split_candidates c
     else map to_split (non_length_external c))
    (snd (run rm order_id fo c)).
Proof.
  unfold run, process_fulfillment_according_to_decision_tree.
  set (allowed := if has_length_items (summary c) then split_candidates c
                  else map to_split (non_length_external c)).
  assert (Hspec : spec
    (bind (pre_step rm order_id c initial_results)
       (fun r =>
          if has_length_items (summary c)
          then bind (length_branch rm order_id fo c r) (fun r' => ret (r', c))
          else bind (no_length_branch rm order_id fo (fold_koppelstukje c) r)
                 (fun r' => ret (r', fold_koppelstukje c))))
    (fun _ ev => sent_within allowed ev)).
  { eapply spec_bind; [apply pre_step_sent| |].
    - intros e ev [H _]. exact H.
    - intros r ev1 [H1 _]. unfold allowed.
      destruct (has_length_items (summary c)).
      + eapply spec_bind; [apply length_branch_candidates| |].
        * intros e ev2 H2. apply sent_within_app; assumption.
        * intros r' ev2 H2. apply spec_ret. rewrite app_nil_r.
          apply sent_within_app; assumption.
      + eapply spec_bind; [apply no_length_branch_candidates| |].
        * intros e ev2 H2. apply sent_within_app; assumption.
        * intros r' ev2 H2. apply spec_ret. rewrite app_nil_r.
          apply sent_within_app; assumption. }
  destruct (Hspec []) as (out & ev & -> & Hev). exact Hev.
Qed.
End Candidates.

(** X24. What a run never sends. Every split of a run carries items of
    the length items at home, the coupling pieces at home and the two
    external buckets only, and in an order without length items of the
    non-length external bucket only. So, when the line ids of the order
    are pairwise distinct, a non-length item at home that is no coupling
    piece is never split off, and in an order without length items no
    coupling piece at home is split off either. *)
Theorem items_at_home_are_not_split_off (rm : remote) (order_id : option string)
    (fo : string) (details : order_details) (fo' : string) (sent : list split_item)
    (reply : split_reply_t) :
  let c := categorize_items details in
  In (SplitCall fo' sent reply) (snd (run rm order_id fo c)) ->
  incl sent (split_candidates c)
  /\ (has_length_items (summary c) = false -> incl sent (map to_split (non_length_external c)))
  /\ (List.NoDup (map fulfillment_order_line_item_id (line_items details)) ->
      forall x, In x sent ->
        ~ In (split_id x) (bucket_ids NonLengthRooftopshop c)
        /\ (has_length_items (summary c) = false ->
            ~ In (split_id x) (bucket_ids DaktrimKoppelstukjeRooftopshop c))).
Proof.
  intros c Hin.
  pose proof (run_candidates rm order_id fo c) as Hsent.
  unfold sent_within in Hsent. rewrite List.Forall_forall in Hsent.
  specialize (Hsent _ Hin). cbn beta iota in Hsent.
  assert (Hnle : incl (map to_split (non_length_external c)) (split_candidates c)).
  { intros y Hy. unfold split_candidates, external_candidates.
    apply in_or_app. right. rewrite map_app. apply in_or_app. right. exact Hy. }
  assert (Hall : incl sent (split_candidates c)).
  { destruct (has_length_items (summary c)); [exact Hsent|].
    intros y Hy. apply Hnle, Hsent, Hy. }
  assert (Hno : has_length_items (summary c) = false ->
                incl sent (map to_split (non_length_external c))).
  { intros Hlen. rewrite Hlen in Hsent. exact Hsent. }
  split; [exact Hall|]. split; [exact Hno|].
  intros Hnd x Hx. split.
  - intros Hhome. apply Hall in Hx. unfold split_candidates, external_candidates in Hx.
    rewrite <- map_app in Hx. apply in_map_iff in Hx as (d & <- & Hd).
    cbn [to_split split_id] in Hhome.
    assert (Hkey : exists key, key <> NonLengthRooftopshop /\ In (item_id d) (bucket_ids key c)).
    { repeat (apply in_app_or in Hd as [Hd|Hd]);
        [exists LengthRooftopshop|exists DaktrimKoppelstukjeRooftopshop
        |exists LengthExternal|exists NonLengthExternal];
        (split; [discriminate|apply in_map; exact Hd]). }
    destruct Hkey as (key & Hne & Hi).
    apply Hne. exact (bucket_ids_disjoint details _ _ _ Hnd Hi Hhome).
  - intros Hlen Hdk. apply (Hno Hlen) in Hx. apply in_map_iff in Hx as (d & <- & Hd).
    cbn [to_split split_id] in Hdk.
    assert (Hi : In (item_id d) (bucket_ids NonLengthExternal c)) by (apply in_map; exact Hd).
    pose proof (bucket_ids_disjoint details _ _ _ Hnd Hi Hdk). discriminate.
Qed.

Lemma items_at_home_are_not_split_off_witness :
  let sent :=
    [{| split_id := "gid://shopify/FulfillmentOrderLineItem/2"; split_quantity := 1 |}] in
  In (SplitCall "gid://shopify/FulfillmentOrder/1" sent
        (Ok (Some "gid://shopify/FulfillmentOrder/2", "OPEN")))
     (snd (run accepting (Some "9") "gid://shopify/FulfillmentOrder/1"
             (categorize_items koppelstukje_and_external_length)))
  /\ incl sent (split_candidates (categorize_items koppelstukje_and_external_length)).
Proof.
  assert (Hin : In (SplitCall "gid://shopify/FulfillmentOrder/1"
                      [{| split_id := "gid://shopify/FulfillmentOrderLineItem/2";
                          split_quantity := 1 |}]
                      (Ok (Some "gid://shopify/FulfillmentOrder/2", "OPEN")))
                   (snd (run accepting (Some "9") "gid://shopify/FulfillmentOrder/1"
                           (categorize_items koppelstukje_and_external_length)))).
  { vm_compute. auto 6. }
  split; [exact Hin|].
  exact (proj1 (items_at_home_are_not_split_off accepting (Some "9")
                  "gid://shopify/FulfillmentOrder/1" koppelstukje_and_external_length
                  _ _ _ Hin)).
Defined.

(* ===================================================================== *)
(** * The snapshot as a dict                                              *)
(* ===================================================================== *)

Lemma remaining_line_items_rev l :
  fold_left (fun (m : gmap string line_item) item =>
               <[ fulfillment_order_line_item_id item := item ]> m) l ∅
  = fold_right (fun item (m : gmap string line_item) =>
                  <[ fulfillment_order_line_item_id item := item ]> m) ∅ (rev l).
Proof. rewrite <- fold_left_rev_right. reflexivity. Qed.

(** X25. The snapshot the decision tree looks items up in. An id is in
    it exactly when some line item of the fetched details carries it, and
    it then stands for the last such line item: when two line items share
    an id, the locations of the later one decide where the id is
    grouped. *)
Theorem remaining_line_items_last_wins (details : order_details) (i : string) :
  remaining_line_items details !! i = last_with_id i (line_items details).
Proof.
  unfold remaining_line_items, last_with_id. rewrite remaining_line_items_rev.
  induction (rev (line_items details)) as [|item l IH]; cbn [fold_right List.find].
  - apply lookup_empty.
  - destruct (String.eqb_spec (fulfillment_order_line_item_id item) i) as [->|Hne].
    + apply lookup_insert_eq.
    + rewrite lookup_insert_ne by exact Hne. exact IH.
Qed.
